(** * Talaria: the BeginQuorumEpochRequest codec, the security-protocol parser
      and the advertised-listener check

    A shallow embedding of
    - [protocol/begin_quorum_epoch_request.go]: the three record types of the
      message with their [encode]/[decode] methods and the registry methods;
    - [ParseSecurityProtocol];
    - [validateAdvertisedListeners].

    Go values are modelled as follows.
    - [int16], [int32], [int]: [Z]; the range of an [int32] field is the
      predicate [int32_range].
    - [string]: [string] (a sequence of bytes, as in Go).
    - [*string]: [option string], [None] being the [nil] pointer.
    - [[]T]: [slice T = option (list T)], [None] being the [nil] slice and
      [Some []] an allocated slice of length 0.
    - [error]: [option error], [None] being [nil].
    - a method with a pointer receiver returns the receiver after the call next
      to its results; the receiver is returned on the error path as well, since
      Go leaves it as it is at the [return]. *)

From Stdlib Require Import ZArith Lia.
From Stdlib.Strings Require Import Ascii Byte.
From Stdlib Require DecimalString.
From stdpp Require Import base list strings gmap.

Local Open Scope Z_scope.

(** ** Go values *)

Inductive error : Type :=
| ErrInsufficientData
| ErrMalformedLength
| ErrEncodeValueTooLarge
| ErrUnsupportedVersion
| Errorf (msg : string).

Definition slice (A : Type) : Type := option (list A).

(** [for _, x := range s]: the elements visited, none for a [nil] slice. *)
Definition elems {A} (s : slice A) : list A :=
  match s with
  | None => []
  | Some l => l
  end.

(** [len(s)] *)
Definition len {A} (s : slice A) : Z := Z.of_nat (length (elems s)).

Definition int32_range (x : Z) : Prop := -2147483648 <= x <= 2147483647.

(** ** The encoder and decoder interfaces

    [packetEncoder] and [packetDecoder] are Go interfaces; the message code
    only calls their methods.  The methods below are the ones the message
    uses, with the signatures of their call sites: a [get] returns the value
    together with the error, and the value is assigned before the error is
    tested. *)

Class packetEncoder (E : Type) := {
  putInt32 : E -> Z -> E;
  putString : E -> string -> E * option error;
  putNullableString : E -> option string -> E * option error;
  putArrayLength : E -> Z -> E * option error
}.

Class packetDecoder (D : Type) := {
  getInt32 : D -> D * Z * option error;
  getString : D -> D * string * option error;
  getNullableString : D -> D * option string * option error;
  getArrayLength : D -> D * Z * option error
}.

(** ** PartitionData_BeginQuorumEpochRequest *)

Module PartitionData_BeginQuorumEpochRequest.

Record t : Type := mk {
  Version : Z;
  PartitionIndex : Z;
  LeaderID : Z;
  LeaderEpoch : Z
}.

(** The zero value, [var block PartitionData_BeginQuorumEpochRequest]. *)
Definition zero : t := mk 0 0 0 0.

Definition set_Version (v : Z) (p : t) : t :=
  mk v (PartitionIndex p) (LeaderID p) (LeaderEpoch p).
Definition set_PartitionIndex (x : Z) (p : t) : t :=
  mk (Version p) x (LeaderID p) (LeaderEpoch p).
Definition set_LeaderID (x : Z) (p : t) : t :=
  mk (Version p) (PartitionIndex p) x (LeaderEpoch p).
Definition set_LeaderEpoch (x : Z) (p : t) : t :=
  mk (Version p) (PartitionIndex p) (LeaderID p) x.

Section Codec.
Context {E D : Type} `{!packetEncoder E} `{!packetDecoder D}.

Definition encode (p : t) (pe : E) (version : Z) : t * E * option error :=
  let p := set_Version version p in
  let pe := putInt32 pe (PartitionIndex p) in
  let pe := putInt32 pe (LeaderID p) in
  let pe := putInt32 pe (LeaderEpoch p) in
  (p, pe, None).

Definition decode (p : t) (pd : D) (version : Z) : t * D * option error :=
  let p := set_Version version p in
  let '(pd, x, err) := getInt32 pd in
  let p := set_PartitionIndex x p in
  match err with
  | Some e => (p, pd, Some e)
  | None =>
    let '(pd, x, err) := getInt32 pd in
    let p := set_LeaderID x p in
    match err with
    | Some e => (p, pd, Some e)
    | None =>
      let '(pd, x, err) := getInt32 pd in
      let p := set_LeaderEpoch x p in
      match err with
      | Some e => (p, pd, Some e)
      | None => (p, pd, None)
      end
    end
  end.
End Codec.

End PartitionData_BeginQuorumEpochRequest.

(** ** TopicData_BeginQuorumEpochRequest *)

Module TopicData_BeginQuorumEpochRequest.

Module P := PartitionData_BeginQuorumEpochRequest.

Record t : Type := mk {
  Version : Z;
  TopicName : string;
  Partitions : slice P.t
}.

Definition zero : t := mk 0 "" None.

Definition set_Version (v : Z) (x : t) : t :=
  mk v (TopicName x) (Partitions x).
Definition set_TopicName (s : string) (x : t) : t :=
  mk (Version x) s (Partitions x).
Definition set_Partitions (ps : slice P.t) (x : t) : t :=
  mk (Version x) (TopicName x) ps.

Section Codec.
Context {E D : Type} `{!packetEncoder E} `{!packetDecoder D}.

(** [for _, block := range t.Partitions { block.encode(pe, t.Version) }].
    [block] is a copy of the element, and [encode] has a pointer receiver,
    so the call writes to the copy.  The first component is the list of
    the values the variable [block] holds after each call; it is dropped by
    [encode] below, as the variable goes out of scope in Go. *)
Fixpoint encode_blocks (blocks : list P.t) (pe : E) (version : Z)
  : list P.t * E * option error :=
  match blocks with
  | [] => ([], pe, None)
  | block :: rest =>
    let '(block, pe, err) := P.encode block pe version in
    match err with
    | Some e => ([block], pe, Some e)
    | None =>
      let '(copies, pe, err) := encode_blocks rest pe version in
      (block :: copies, pe, err)
    end
  end.

(** [encode] with the loop copies kept as a second result. *)
Definition encode_traced (x : t) (pe : E) (version : Z)
  : t * list P.t * E * option error :=
  let x := set_Version version x in
  let '(pe, err) := putString pe (TopicName x) in
  match err with
  | Some e => (x, [], pe, Some e)
  | None =>
    let '(pe, err) := putArrayLength pe (len (Partitions x)) in
    match err with
    | Some e => (x, [], pe, Some e)
    | None =>
      let '(copies, pe, err) :=
        encode_blocks (elems (Partitions x)) pe (Version x) in
      (x, copies, pe, err)
    end
  end.

Definition encode (x : t) (pe : E) (version : Z) : t * E * option error :=
  let '(x, _, pe, err) := encode_traced x pe version in (x, pe, err).

(** The loop [for i := 0; i < numPartitions; i++] of [decode], from index
    [i] with [k] iterations left; [arr] is the backing array of
    [t.Partitions], which [make] fills with zero values.  A block whose
    decode fails is not stored. *)
Fixpoint decode_blocks (k : nat) (i : nat) (arr : list P.t) (pd : D)
  (version : Z) : list P.t * D * option error :=
  match k with
  | O => (arr, pd, None)
  | S k =>
    let '(block, pd, err) := P.decode P.zero pd version in
    match err with
    | Some e => (arr, pd, Some e)
    | None => decode_blocks k (S i) (<[i := block]> arr) pd version
    end
  end.

Definition decode (x : t) (pd : D) (version : Z) : t * D * option error :=
  let x := set_Version version x in
  let '(pd, s, err) := getString pd in
  let x := set_TopicName s x in
  match err with
  | Some e => (x, pd, Some e)
  | None =>
    let '(pd, numPartitions, err) := getArrayLength pd in
    match err with
    | Some e => (x, pd, Some e)
    | None =>
      if 0 <? numPartitions then
        let n := Z.to_nat numPartitions in
        let '(arr, pd, err) :=
          decode_blocks n 0 (replicate n P.zero) pd (Version x) in
        (set_Partitions (Some arr) x, pd, err)
      else (x, pd, None)
    end
  end.
End Codec.

End TopicData_BeginQuorumEpochRequest.

(** ** BeginQuorumEpochRequest *)

Module BeginQuorumEpochRequest.

Module P := PartitionData_BeginQuorumEpochRequest.
Module T := TopicData_BeginQuorumEpochRequest.

Record t : Type := mk {
  Version : Z;
  ClusterID : option string;
  Topics : slice T.t
}.

Definition zero : t := mk 0 None None.

Definition set_Version (v : Z) (r : t) : t :=
  mk v (ClusterID r) (Topics r).
Definition set_ClusterID (c : option string) (r : t) : t :=
  mk (Version r) c (Topics r).
Definition set_Topics (ts : slice T.t) (r : t) : t :=
  mk (Version r) (ClusterID r) ts.

Section Codec.
Context {E D : Type} `{!packetEncoder E} `{!packetDecoder D}.

(** [for _, block := range r.Topics { block.encode(pe, r.Version) }]; the
    first component lists, for each call made, the copy [block] after the
    call and the partition copies of that call. *)
Fixpoint encode_blocks (blocks : list T.t) (pe : E) (version : Z)
  : list (T.t * list P.t) * E * option error :=
  match blocks with
  | [] => ([], pe, None)
  | block :: rest =>
    let '(block, parts, pe, err) := T.encode_traced block pe version in
    match err with
    | Some e => ([(block, parts)], pe, Some e)
    | None =>
      let '(copies, pe, err) := encode_blocks rest pe version in
      ((block, parts) :: copies, pe, err)
    end
  end.

(** [encode] takes no version and does not assign [r.Version]. *)
Definition encode_traced (r : t) (pe : E)
  : t * list (T.t * list P.t) * E * option error :=
  let '(pe, err) := putNullableString pe (ClusterID r) in
  match err with
  | Some e => (r, [], pe, Some e)
  | None =>
    let '(pe, err) := putArrayLength pe (len (Topics r)) in
    match err with
    | Some e => (r, [], pe, Some e)
    | None =>
      let '(copies, pe, err) :=
        encode_blocks (elems (Topics r)) pe (Version r) in
      (r, copies, pe, err)
    end
  end.

Definition encode (r : t) (pe : E) : t * E * option error :=
  let '(r, _, pe, err) := encode_traced r pe in (r, pe, err).

Fixpoint decode_blocks (k : nat) (i : nat) (arr : list T.t) (pd : D)
  (version : Z) : list T.t * D * option error :=
  match k with
  | O => (arr, pd, None)
  | S k =>
    let '(block, pd, err) := T.decode T.zero pd version in
    match err with
    | Some e => (arr, pd, Some e)
    | None => decode_blocks k (S i) (<[i := block]> arr) pd version
    end
  end.

Definition decode (r : t) (pd : D) (version : Z) : t * D * option error :=
  let r := set_Version version r in
  let '(pd, c, err) := getNullableString pd in
  let r := set_ClusterID c r in
  match err with
  | Some e => (r, pd, Some e)
  | None =>
    let '(pd, numTopics, err) := getArrayLength pd in
    match err with
    | Some e => (r, pd, Some e)
    | None =>
      if 0 <? numTopics then
        let n := Z.to_nat numTopics in
        let '(arr, pd, err) :=
          decode_blocks n 0 (replicate n T.zero) pd (Version r) in
        (set_Topics (Some arr) r, pd, err)
      else (r, pd, None)
    end
  end.
End Codec.

Definition GetKey (r : t) : Z := 53.
Definition GetVersion (r : t) : Z := Version r.
Definition GetHeaderVersion (r : t) : Z := 1.
Definition IsValidVersion (r : t) : bool := Version r =? 0.
Definition GetRequiredVersion (r : t) : Z := 0.

End BeginQuorumEpochRequest.

(** ** The binary cursors

    Modelled from the spec: the implementations of [packetEncoder] and
    [packetDecoder] are not part of the sources at hand; the two cursors below
    follow sections 4.1 to 4.3 of the specification.
    - The encoder buffer is the sequence of bytes written so far; a [put]
      appends to it.  A string longer than the 16-bit prefix can express, or a
      count beyond the 32-bit prefix, is [ErrEncodeValueTooLarge] and writes
      nothing.
    - The decoder view is the unread part of the frame.  A read beyond it is
      [ErrInsufficientData]; a length or count below [-1] is
      [ErrMalformedLength]; [-1] is the null sentinel, returned as [nil] for a
      nullable string and as the count [-1] for an array, and refused for a
      non-nullable string, whose prefix must be at least 0.  A failed read
      exhausts the view, so that no later read on it succeeds, and returns the
      zero value of its type next to the error. *)

(** Modelled from the spec: the conversion between a byte of the buffer and
    its value; [byte(z)] in Go keeps the low 8 bits. *)
Definition byte_of_Z (z : Z) : byte :=
  default x00 (Byte.of_N (Z.to_N (z mod 256))).

Definition Z_of_byte (b : byte) : Z := Z.of_N (Byte.to_N b).

(** Modelled from the spec: "big-endian fixed-width integers", two's
    complement, 16 and 32 bits. *)
Definition be16 (x : Z) : list byte :=
  [byte_of_Z (Z.shiftr x 8); byte_of_Z x].

Definition be32 (x : Z) : list byte :=
  [byte_of_Z (Z.shiftr x 24); byte_of_Z (Z.shiftr x 16);
   byte_of_Z (Z.shiftr x 8); byte_of_Z x].

Definition int16_of_bytes (b0 b1 : byte) : Z :=
  let u := Z_of_byte b0 * 256 + Z_of_byte b1 in
  if u <? 32768 then u else u - 65536.

Definition int32_of_bytes (b0 b1 b2 b3 : byte) : Z :=
  let u := Z_of_byte b0 * 16777216 + Z_of_byte b1 * 65536
           + Z_of_byte b2 * 256 + Z_of_byte b3 in
  if u <? 2147483648 then u else u - 4294967296.

Definition bytes_of_string (s : string) : list byte :=
  String.list_byte_of_string s.

Definition string_of_bytes (l : list byte) : string :=
  String.string_of_list_byte l.

(** [len(s)] of a Go string: its number of bytes. *)
Definition strlen (s : string) : Z := Z.of_nat (length (bytes_of_string s)).

Definition realEncoder : Type := list byte.
Definition realDecoder : Type := list byte.

(** Modelled from the spec: the encoder of section 4.1 with the field
    conventions of section 4.3; its Go implementation is not among the
    sources. *)
Module realEncoder.

Definition putInt16 (pe : realEncoder) (x : Z) : realEncoder := pe ++ be16 x.

Definition putInt32 (pe : realEncoder) (x : Z) : realEncoder := pe ++ be32 x.

Definition putString (pe : realEncoder) (s : string)
  : realEncoder * option error :=
  if 32767 <? strlen s then (pe, Some ErrEncodeValueTooLarge)
  else (putInt16 pe (strlen s) ++ bytes_of_string s, None).

Definition putNullableString (pe : realEncoder) (s : option string)
  : realEncoder * option error :=
  match s with
  | None => (putInt16 pe (-1), None)
  | Some s => putString pe s
  end.

Definition putArrayLength (pe : realEncoder) (n : Z)
  : realEncoder * option error :=
  if 2147483647 <? n then (pe, Some ErrEncodeValueTooLarge)
  else (putInt32 pe n, None).

End realEncoder.

(** Modelled from the spec: the decoder of section 4.2 with the field
    conventions of section 4.3; its Go implementation is not among the
    sources. *)
Module realDecoder.

Definition getInt16 (pd : realDecoder) : realDecoder * Z * option error :=
  match pd with
  | b0 :: b1 :: rest => (rest, int16_of_bytes b0 b1, None)
  | _ => ([], 0, Some ErrInsufficientData)
  end.

Definition getInt32 (pd : realDecoder) : realDecoder * Z * option error :=
  match pd with
  | b0 :: b1 :: b2 :: b3 :: rest => (rest, int32_of_bytes b0 b1 b2 b3, None)
  | _ => ([], 0, Some ErrInsufficientData)
  end.

(** The [n] bytes of a string payload, [0 <= n]. *)
Definition getRaw (pd : realDecoder) (n : Z)
  : realDecoder * string * option error :=
  if Z.of_nat (length pd) <? n then ([], "", Some ErrInsufficientData)
  else (drop (Z.to_nat n) pd, string_of_bytes (take (Z.to_nat n) pd), None).

Definition getString (pd : realDecoder)
  : realDecoder * string * option error :=
  let '(pd, n, err) := getInt16 pd in
  match err with
  | Some e => (pd, "", Some e)
  | None =>
    if n <? 0 then ([], "", Some ErrMalformedLength) else getRaw pd n
  end.

Definition getNullableString (pd : realDecoder)
  : realDecoder * option string * option error :=
  let '(pd, n, err) := getInt16 pd in
  match err with
  | Some e => (pd, None, Some e)
  | None =>
    if n =? -1 then (pd, None, None)
    else if n <? 0 then ([], None, Some ErrMalformedLength)
    else
      let '(pd, s, err) := getRaw pd n in
      match err with
      | Some e => (pd, None, Some e)
      | None => (pd, Some s, None)
      end
  end.

Definition getArrayLength (pd : realDecoder)
  : realDecoder * Z * option error :=
  let '(pd, n, err) := getInt32 pd in
  match err with
  | Some e => (pd, 0, Some e)
  | None =>
    if n <? -1 then ([], 0, Some ErrMalformedLength) else (pd, n, None)
  end.

End realDecoder.

#[export] Instance realEncoder_packetEncoder : packetEncoder realEncoder := {
  putInt32 := realEncoder.putInt32;
  putString := realEncoder.putString;
  putNullableString := realEncoder.putNullableString;
  putArrayLength := realEncoder.putArrayLength
}.

#[export] Instance realDecoder_packetDecoder : packetDecoder realDecoder := {
  getInt32 := realDecoder.getInt32;
  getString := realDecoder.getString;
  getNullableString := realDecoder.getNullableString;
  getArrayLength := realDecoder.getArrayLength
}.

(** ** The body layout, as the specification words it

    "Body layout for the example message (request, body version 0): nullable
    string (cluster id) - array of {non-nullable string (topic name) - array
    of {int32 partition index, int32 leader id, int32 leader epoch}}", an
    array being an int32 element count followed by its elements.  The layout
    is a list of primitive writes; [run_ops] performs them in order on any
    encoder and stops at the first failure. *)

Inductive wire_op : Type :=
| OpInt32 (x : Z)
| OpString (s : string)
| OpNullableString (s : option string)
| OpArrayLength (n : Z).

Definition put_op {E} `{!packetEncoder E} (pe : E) (op : wire_op)
  : E * option error :=
  match op with
  | OpInt32 x => (putInt32 pe x, None)
  | OpString s => putString pe s
  | OpNullableString s => putNullableString pe s
  | OpArrayLength n => putArrayLength pe n
  end.

Fixpoint run_ops {E} `{!packetEncoder E} (pe : E) (ops : list wire_op)
  : E * option error :=
  match ops with
  | [] => (pe, None)
  | op :: ops =>
    let '(pe, err) := put_op pe op in
    match err with
    | Some e => (pe, Some e)
    | None => run_ops pe ops
    end
  end.

Definition layout_partition (p : PartitionData_BeginQuorumEpochRequest.t)
  : list wire_op :=
  [OpInt32 (PartitionData_BeginQuorumEpochRequest.PartitionIndex p);
   OpInt32 (PartitionData_BeginQuorumEpochRequest.LeaderID p);
   OpInt32 (PartitionData_BeginQuorumEpochRequest.LeaderEpoch p)].

Definition layout_topic (x : TopicData_BeginQuorumEpochRequest.t)
  : list wire_op :=
  OpString (TopicData_BeginQuorumEpochRequest.TopicName x)
  :: OpArrayLength (len (TopicData_BeginQuorumEpochRequest.Partitions x))
  :: flat_map layout_partition
       (elems (TopicData_BeginQuorumEpochRequest.Partitions x)).

Definition layout_request (r : BeginQuorumEpochRequest.t) : list wire_op :=
  OpNullableString (BeginQuorumEpochRequest.ClusterID r)
  :: OpArrayLength (len (BeginQuorumEpochRequest.Topics r))
  :: flat_map layout_topic (elems (BeginQuorumEpochRequest.Topics r)).

(** The encoder state and the error of a call, without the receiver. *)
Definition out {A B C} (x : A * B * C) : B * C := (x.1.2, x.2).

(** ** Go's [strings.ToUpper] and [strings.EqualFold]

    Both library functions have a path for input made of ASCII bytes only,
    which is embedded here, and a path for input that holds a byte of [0x80]
    or more, which walks the Unicode tables.  The second path is a parameter
    of the model ([upper_unicode], [fold_unicode]). *)

Module strings.

(** [c >= utf8.RuneSelf] *)
Definition nonASCII (c : ascii) : bool := (128 <=? N_of_ascii c)%N.

Definition isASCII (s : string) : bool :=
  forallb (fun c => negb (nonASCII c)) (String.list_ascii_of_string s).

(** [if 'a' <= c && c <= 'z' { c -= 'a' - 'A' }] *)
Definition upper_byte (c : ascii) : ascii :=
  let n := N_of_ascii c in
  if ((97 <=? n) && (n <=? 122))%N then ascii_of_N (n - 32) else c.

Fixpoint map_bytes (f : ascii -> ascii) (s : string) : string :=
  match s with
  | EmptyString => EmptyString
  | String c s => String (f c) (map_bytes f s)
  end.

Section Unicode.
Variable upper_unicode : string -> string.
Variable fold_unicode : string -> string -> bool.

Definition ToUpper (s : string) : string :=
  if isASCII s then map_bytes upper_byte s else upper_unicode s.

(** The byte loop of [EqualFold]; [fold_unicode] receives what is left of
    both strings at the first position where either holds a non-ASCII
    byte.  When the shorter string is exhausted the result is
    [len(s) == len(t)]. *)
Fixpoint EqualFold (s t : string) : bool :=
  match s, t with
  | String sr s', String tr t' =>
    if nonASCII sr || nonASCII tr then fold_unicode s t
    else if Ascii.eqb tr sr then EqualFold s' t'
    else
      let lo := N.min (N_of_ascii sr) (N_of_ascii tr) in
      let hi := N.max (N_of_ascii sr) (N_of_ascii tr) in
      if ((65 <=? lo) && (lo <=? 90) && (hi =? lo + 32))%N
      then EqualFold s' t'
      else false
  | EmptyString, EmptyString => true
  | _, _ => false
  end.
End Unicode.

End strings.

(** ** ParseSecurityProtocol *)

Inductive SecurityProtocol : Type :=
| PLAINTEXT
| SSL
| SASL_PLAINTEXT
| SASL_SSL
| UNDEFINED.

(** The [iota] values of the constants. *)
Definition SecurityProtocol_value (p : SecurityProtocol) : Z :=
  match p with
  | PLAINTEXT => 0
  | SSL => 1
  | SASL_PLAINTEXT => 2
  | SASL_SSL => 3
  | UNDEFINED => 4
  end.

Definition ParseSecurityProtocol (upper_unicode : string -> string)
  (p : string) : SecurityProtocol * bool :=
  let u := strings.ToUpper upper_unicode p in
  if String.eqb u "PLAINTEXT" then (PLAINTEXT, true)
  else if String.eqb u "SSL" then (SSL, true)
  else if String.eqb u "SASL_PLAINTEXT" then (SASL_PLAINTEXT, true)
  else if String.eqb u "SASL_SSL" then (SASL_SSL, true)
  else (UNDEFINED, false).

(** The four scheme names of the specification. *)
Definition scheme_names : list string :=
  ["PLAINTEXT"; "SSL"; "SASL_PLAINTEXT"; "SASL_SSL"].

(** ** validateAdvertisedListeners *)

(** The fields of [Listener] and [Broker] are those the tests of the
    repository fill in. *)
Record Listener : Type := mkListener {
  Host : string;
  Port : Z;
  ListenerSecurityProtocol : SecurityProtocol;
  ListenerName : string
}.

Record Broker : Type := mkBroker {
  BrokerID : Z;
  Rack : option string;
  Listeners : slice Listener;
  AdvertisedListeners : slice Listener
}.

(** The test of the loop body: the host is refused. *)
Definition refused_host (fold_unicode : string -> string -> bool)
  (listener : Listener) : bool :=
  strings.EqualFold fold_unicode (Host listener) "0.0.0.0"
  || String.eqb (Host listener) "".

Fixpoint validateAdvertisedListeners_loop
  (fold_unicode : string -> string -> bool) (ls : list Listener)
  : option error :=
  match ls with
  | [] => None
  | listener :: ls =>
    if refused_host fold_unicode listener then
      Some (Errorf
        ("advertising listener on 0.0.0.0 address is not allowed for listener "
         +:+ ListenerName listener))
    else validateAdvertisedListeners_loop fold_unicode ls
  end.

(** The broker is passed by pointer; it is returned next to the error. *)
Definition validateAdvertisedListeners
  (fold_unicode : string -> string -> bool) (b : Broker)
  : Broker * option error :=
  (b, validateAdvertisedListeners_loop fold_unicode
        (elems (AdvertisedListeners b))).

(** ** One version in force

    [R_versioned v r]: the message and every record stored in it report
    version [v]. *)

Definition P_versioned (v : Z) (p : PartitionData_BeginQuorumEpochRequest.t)
  : Prop :=
  PartitionData_BeginQuorumEpochRequest.Version p = v.

Definition T_versioned (v : Z) (x : TopicData_BeginQuorumEpochRequest.t)
  : Prop :=
  TopicData_BeginQuorumEpochRequest.Version x = v
  /\ Forall (P_versioned v)
       (elems (TopicData_BeginQuorumEpochRequest.Partitions x)).

Definition R_versioned (v : Z) (r : BeginQuorumEpochRequest.t) : Prop :=
  BeginQuorumEpochRequest.Version r = v
  /\ Forall (T_versioned v) (elems (BeginQuorumEpochRequest.Topics r)).

(** ** The copies an encode works on

    [call_versioned v c]: the topic copy of one call of the topic [encode] and
    the partition copies of that call all hold version [v].  [traced_copy v x]
    is what the call leaves in its copies for the stored topic [x]. *)

Definition call_versioned (v : Z)
  (c : TopicData_BeginQuorumEpochRequest.t
       * list PartitionData_BeginQuorumEpochRequest.t) : Prop :=
  TopicData_BeginQuorumEpochRequest.Version c.1 = v
  /\ Forall (P_versioned v) c.2.

Definition traced_copy (v : Z) (x : TopicData_BeginQuorumEpochRequest.t)
  : TopicData_BeginQuorumEpochRequest.t
    * list PartitionData_BeginQuorumEpochRequest.t :=
  (TopicData_BeginQuorumEpochRequest.set_Version v x,
   map (PartitionData_BeginQuorumEpochRequest.set_Version v)
     (elems (TopicData_BeginQuorumEpochRequest.Partitions x))).

(** ** Legal field values

    A message is legal for version [v] when every [Version] field in it is
    [v], every [int32] field is in range, every string fits the 16-bit length
    prefix, every list fits the 32-bit count prefix, and a list without
    elements is the [nil] slice. *)

Definition slice_legal {A} (Q : A -> Prop) (s : slice A) : Prop :=
  s <> Some [] /\ len s <= 2147483647 /\ Forall Q (elems s).

Definition P_legal (v : Z) (p : PartitionData_BeginQuorumEpochRequest.t)
  : Prop :=
  PartitionData_BeginQuorumEpochRequest.Version p = v
  /\ int32_range (PartitionData_BeginQuorumEpochRequest.PartitionIndex p)
  /\ int32_range (PartitionData_BeginQuorumEpochRequest.LeaderID p)
  /\ int32_range (PartitionData_BeginQuorumEpochRequest.LeaderEpoch p).

Definition T_legal (v : Z) (x : TopicData_BeginQuorumEpochRequest.t) : Prop :=
  TopicData_BeginQuorumEpochRequest.Version x = v
  /\ strlen (TopicData_BeginQuorumEpochRequest.TopicName x) <= 32767
  /\ slice_legal (P_legal v)
       (TopicData_BeginQuorumEpochRequest.Partitions x).

Definition nullable_legal (c : option string) : Prop :=
  match c with
  | None => True
  | Some s => strlen s <= 32767
  end.

Definition R_legal (v : Z) (r : BeginQuorumEpochRequest.t) : Prop :=
  BeginQuorumEpochRequest.Version r = v
  /\ nullable_legal (BeginQuorumEpochRequest.ClusterID r)
  /\ slice_legal (T_legal v) (BeginQuorumEpochRequest.Topics r).

(** The bytes of one primitive write on the cursor of the specification, and
    the values it can express. *)
Definition op_bytes (op : wire_op) : list byte :=
  match op with
  | OpInt32 x => be32 x
  | OpString s => be16 (strlen s) ++ bytes_of_string s
  | OpNullableString None => be16 (-1)
  | OpNullableString (Some s) => be16 (strlen s) ++ bytes_of_string s
  | OpArrayLength n => be32 n
  end.

Definition op_legal (op : wire_op) : Prop :=
  match op with
  | OpInt32 x => int32_range x
  | OpString s => strlen s <= 32767
  | OpNullableString c => nullable_legal c
  | OpArrayLength n => 0 <= n <= 2147483647
  end.

Definition wire_partition (p : PartitionData_BeginQuorumEpochRequest.t)
  : list byte := flat_map op_bytes (layout_partition p).

Definition wire_topic (x : TopicData_BeginQuorumEpochRequest.t)
  : list byte := flat_map op_bytes (layout_topic x).

Definition wire_request (r : BeginQuorumEpochRequest.t) : list byte :=
  flat_map op_bytes (layout_request r).

(** ** Sample messages and frames *)

Module P := PartitionData_BeginQuorumEpochRequest.
Module T := TopicData_BeginQuorumEpochRequest.
Module R := BeginQuorumEpochRequest.

Module Examples.

(** Scenario A of the specification: cluster id absent, one topic "orders"
    with one partition {index 3, leader 7, leaderEpoch 42}. *)
Definition partition_3_7_42 : P.t := P.mk 0 3 7 42.
Definition topic_orders : T.t := T.mk 0 "orders" (Some [partition_3_7_42]).
Definition scenarioA : R.t := R.mk 0 None (Some [topic_orders]).

(** Scenario B: an allocated topic list of length 0. *)
Definition scenarioB : R.t := R.mk 0 None (Some []).

(** A topic whose partition list is allocated and of length 0. *)
Definition topic_no_partitions : T.t := T.mk 0 "t" (Some []).
Definition request_topic_no_partitions : R.t :=
  R.mk 0 (Some "c") (Some [topic_no_partitions]).

(** A message whose records carry three different versions. *)
Definition mixed_versions : R.t :=
  R.mk 0 None (Some [T.mk 1 "a" (Some [P.mk 2 0 0 0])]).

Definition empty_buffer : realEncoder := [].

(** The frame of scenario A. *)
Definition frameA : realDecoder :=
  Eval vm_compute in (R.encode scenarioA empty_buffer).1.2.

(** Cluster id "c", a count of two topics, the topic "orders" of scenario A
    and then the start of a second topic "t" that announces one partition
    and breaks off after two of its bytes. *)
Definition frame_truncated : realDecoder :=
  Eval vm_compute in
    (op_bytes (OpNullableString (Some "c")) ++ be32 2
     ++ wire_topic topic_orders
     ++ op_bytes (OpString "t") ++ be32 1 ++ [x00; x00]).

(** Cluster id absent and a count of 0; cluster id absent and the null
    sentinel as count. *)
Definition frame_count_0 : realDecoder :=
  Eval vm_compute in (be16 (-1) ++ be32 0).
Definition frame_count_null : realDecoder :=
  Eval vm_compute in (be16 (-1) ++ be32 (-1)).

(** The bytes of the topic "t" with a partition count of 0. *)
Definition frame_topic_count_0 : realDecoder :=
  Eval vm_compute in wire_topic topic_no_partitions.

Definition client_listener (host : string) : Listener :=
  mkListener host 1234 PLAINTEXT "client".
Definition broker_with (hosts : list string) : Broker :=
  mkBroker 0 None None (Some (map client_listener hosts)).

End Examples.

(** ** What the encoder accepts, and how much it writes

    [op_fits]: the write succeeds on the cursor of the specification; an
    [int32] write always does.  [R_encodable r]: every string and count of the
    message fits its prefix. *)

Definition op_fits (op : wire_op) : Prop :=
  match op with
  | OpInt32 _ => True
  | OpString s => strlen s <= 32767
  | OpNullableString c => nullable_legal c
  | OpArrayLength n => n <= 2147483647
  end.

Definition T_encodable (x : T.t) : Prop :=
  strlen (T.TopicName x) <= 32767 /\ len (T.Partitions x) <= 2147483647.

Definition R_encodable (r : R.t) : Prop :=
  nullable_legal (R.ClusterID r)
  /\ len (R.Topics r) <= 2147483647
  /\ Forall T_encodable (elems (R.Topics r)).

(** Sizes in bytes: 2 for a string prefix, 4 for a count, 12 for a partition. *)
Definition nullable_size (c : option string) : Z :=
  match c with
  | None => 2
  | Some s => 2 + strlen s
  end.

Definition topic_size (x : T.t) : Z :=
  2 + strlen (T.TopicName x) + 4 + 12 * len (T.Partitions x).

Fixpoint topics_size (ts : list T.t) : Z :=
  match ts with
  | [] => 0
  | x :: ts => topic_size x + topics_size ts
  end.

Definition request_size (r : R.t) : Z :=
  nullable_size (R.ClusterID r) + 4 + topics_size (elems (R.Topics r)).

(** ** Messages up to their Version fields *)

Definition P_unversioned (p : P.t) : P.t := P.set_Version 0 p.

Definition T_unversioned (x : T.t) : T.t :=
  T.mk 0 (T.TopicName x) (option_map (map P_unversioned) (T.Partitions x)).

Definition R_unversioned (r : R.t) : R.t :=
  R.mk 0 (R.ClusterID r) (option_map (map T_unversioned) (R.Topics r)).

(** ** Truncated input

    [cut_short pd w]: [pd] is [w] with a non-empty tail missing. *)
Definition cut_short (pd w : list byte) : Prop :=
  exists missing, missing <> [] /\ w = pd ++ missing.

Module MoreExamples.

(** Cluster id absent and a count of 1000 topics, none of which follows. *)
Definition frame_count_1000 : realDecoder :=
  Eval vm_compute in (be16 (-1) ++ be32 1000).

(** A message with a cluster id and two topics, of one and of two
    partitions, and its frame. *)
Definition request_two_topics : R.t :=
  R.mk 0 (Some "c")
    (Some [Examples.topic_orders;
           T.mk 0 "events" (Some [P.mk 0 0 1 5; P.mk 0 1 2 5])]).
Definition frame_two_topics : realDecoder :=
  Eval vm_compute in wire_request request_two_topics.

End MoreExamples.

Import MoreExamples.

(** ** The broker set-up: NewBroker and the functions it calls

    Library functions the code calls are embedded where they work on bytes
    ([strings.ReplaceAll] of a space by nothing, [strings.Split] on a one-byte
    separator, [strconv.Itoa]) and are parameters of the model otherwise
    ([utils.GetEnvVar], [url.Parse], [net.SplitHostPort], [strconv.Atoi], and
    [netip.ParseAddr] followed by [Is4]).  An index out of range is a panic
    of the Go runtime; a function that can panic returns an [outcome]. *)

Inductive outcome (A : Type) : Type :=
| Returned (a : A)
| Panicked (msg : string).
Arguments Returned {A} a.
Arguments Panicked {A} msg.

(** [strings.ReplaceAll(s, " ", "")] *)
Fixpoint remove_spaces (s : string) : string :=
  match s with
  | EmptyString => EmptyString
  | String c s =>
    if Ascii.eqb c " " then remove_spaces s else String c (remove_spaces s)
  end.

(** [strings.Split(s, sep)] for a separator of one byte: the pieces between
    the separators, a single piece when there is none. *)
Fixpoint Split (sep : ascii) (s : string) : list string :=
  match s with
  | EmptyString => [EmptyString]
  | String c s =>
    if Ascii.eqb c sep then EmptyString :: Split sep s
    else
      match Split sep s with
      | piece :: pieces => String c piece :: pieces
      | [] => [String c EmptyString]
      end
  end.

(** [strconv.Itoa] *)
Definition Itoa (n : Z) : string :=
  DecimalString.NilZero.string_of_int (Z.to_int n).

(** [int32(n)] of an [int]: the low 32 bits, two's complement. *)
Definition int32_of_int (n : Z) : Z :=
  (n + 2147483648) mod 4294967296 - 2147483648.

(** The fields of [url.URL] the code reads. *)
Record URL : Type := mkURL {
  Scheme : string;
  URLHost : string
}.

Definition RESERVED_BROKER_MAX_ID : Z := 1000.

Definition zeroListener : Listener := mkListener "" 0 PLAINTEXT "".
Definition zeroBroker : Broker := mkBroker 0 None None None.

(** [append(s, l...)]: [s] itself when [l] has no element. *)
Definition go_append {A} (s : slice A) (l : list A) : slice A :=
  match l with
  | [] => s
  | _ => Some (elems s ++ l)
  end.

Section BrokerSetup.
Variable GetEnvVar : string -> string -> string * bool.
Variable url_Parse : string -> URL * option error.
Variable SplitHostPort : string -> string * string * option error.
Variable Atoi : string -> Z * option error.
(** [err.Error()] *)
Variable error_message : error -> string.
Variable upper_unicode : string -> string.
Variable fold_unicode : string -> string -> bool.
(** [is4 host]: [netip.ParseAddr(host)] gives an address for which [Is4()]
    holds; it does not for a host name, and not for an IPv6 address. *)
Variable is4 : string -> bool.

(** The loop of [getBrokerNameComponents] over the entries of the map. *)
Fixpoint getBrokerNameComponents_loop (s : string) (spm : list string)
  : outcome (string * SecurityProtocol * option error) :=
  match spm with
  | [] =>
    Returned ("", UNDEFINED,
      Some (Errorf ("broker " +:+ s
                    +:+ " not found in listener.security.protocol.map")))
  | sp :: spm =>
    let components := Split ":" sp in
    match components !! 0%nat with
    | None => Panicked "runtime error: index out of range [0] with length 0"
    | Some c0 =>
      if strings.EqualFold fold_unicode s c0 then
        match components !! 1%nat with
        | None => Panicked "runtime error: index out of range [1] with length 1"
        | Some c1 =>
          let '(securityProtocol, ok) :=
            ParseSecurityProtocol upper_unicode c1 in
          if negb ok then
            Returned ("", UNDEFINED,
              Some (Errorf ("unknown security protocol for listener "
                            +:+ c0)))
          else Returned (s, securityProtocol, None)
        end
      else getBrokerNameComponents_loop s spm
    end
  end.

Definition getBrokerNameComponents (s : string)
  : outcome (string * SecurityProtocol * option error) :=
  let '(securityProtocol, ok) := ParseSecurityProtocol upper_unicode s in
  if ok then Returned (s, securityProtocol, None)
  else
    let '(listenerSpmStr, _) :=
      GetEnvVar "listener.security.protocol.map" "" in
    let spm := Split "," (remove_spaces listenerSpmStr) in
    getBrokerNameComponents_loop s spm.

Definition parseListener (l : string) : outcome (Listener * option error) :=
  let '(listener, err) := url_Parse l in
  match err with
  | Some e => Returned (zeroListener, Some e)
  | None =>
    match getBrokerNameComponents (Scheme listener) with
    | Panicked msg => Panicked msg
    | Returned (listenerName, securityProtocol, err) =>
      match err with
      | Some e => Returned (zeroListener, Some e)
      | None =>
        let '(host, port, err) := SplitHostPort (URLHost listener) in
        match err with
        | Some e => Returned (zeroListener, Some e)
        | None =>
          let '(parsedPort, err) := Atoi port in
          match err with
          | Some e => Returned (zeroListener, Some e)
          | None =>
            Returned
              (mkListener host (int32_of_int parsedPort) securityProtocol
                 listenerName, None)
          end
        end
      end
    end
  end.

(** The loop of [parseListeners]; [result] is what has been appended. *)
Fixpoint parseListeners_loop (listeners : list string)
  (result : list Listener) : outcome (slice Listener * option error) :=
  match listeners with
  | [] => Returned (Some result, None)
  | l :: listeners =>
    if String.eqb l "" then parseListeners_loop listeners result
    else
      match parseListener l with
      | Panicked msg => Panicked msg
      | Returned (listener, err) =>
        match err with
        | Some e => Returned (Some [], Some e)
        | None => parseListeners_loop listeners (result ++ [listener])
        end
      end
  end.

Definition parseListeners (listeners : slice string)
  : outcome (slice Listener * option error) :=
  parseListeners_loop (elems listeners) [].

Definition areIpProtocolsSame (host1 host2 : string) : bool :=
  Bool.eqb (is4 host1) (is4 host2).

(** The loop of [validateListeners] with its two maps. *)
Fixpoint validateListeners_loop (ls : list Listener)
  (ports : gmap Z string) (listenerNames : gmap string string)
  : option error :=
  match ls with
  | [] => None
  | listener :: ls =>
    let port_taken :=
      match ports !! Port listener with
      | Some val => areIpProtocolsSame (Host listener) val
      | None => false
      end in
    if port_taken then
      Some (Errorf ("listener port is not unique for listener "
                    +:+ ListenerName listener))
    else
      let name_taken :=
        match listenerNames !! ListenerName listener with
        | Some val => areIpProtocolsSame (Host listener) val
        | None => false
        end in
      if name_taken then
        Some (Errorf ("listener name is not unique for listener "
                      +:+ ListenerName listener))
      else
        validateListeners_loop ls
          (<[Port listener := Host listener]> ports)
          (<[ListenerName listener := Host listener]> listenerNames)
  end.

Definition validateListeners (b : Broker) : Broker * option error :=
  (b, validateListeners_loop (elems (Listeners b)) ∅ ∅).

Definition set_Listeners (ls : slice Listener) (b : Broker) : Broker :=
  mkBroker (BrokerID b) (Rack b) ls (AdvertisedListeners b).
Definition set_AdvertisedListeners (ls : slice Listener) (b : Broker)
  : Broker :=
  mkBroker (BrokerID b) (Rack b) (Listeners b) ls.
Definition set_BrokerID (id : Z) (b : Broker) : Broker :=
  mkBroker id (Rack b) (Listeners b) (AdvertisedListeners b).

Definition NewBroker : outcome (Broker * option error) :=
  let broker := zeroBroker in
  let '(advListenerStr, _) := GetEnvVar "advertised.listeners" "" in
  let advertisedListeners := Some (Split "," (remove_spaces advListenerStr)) in
  let '(listenerStr, ok) := GetEnvVar "listeners" "" in
  if negb ok then Returned (zeroBroker, Some (Errorf "no listeners set"))
  else
    let listeners := Some (Split "," (remove_spaces listenerStr)) in
    let advertisedListeners :=
      if len advertisedListeners =? 0 then listeners
      else advertisedListeners in
    match parseListeners listeners with
    | Panicked msg => Panicked msg
    | Returned (listenersArray, err) =>
      match err with
      | Some e => Returned (zeroBroker, Some e)
      | None =>
        let broker :=
          set_Listeners (go_append (Listeners broker) (elems listenersArray))
            broker in
        let '(broker, err) := validateListeners broker in
        match err with
        | Some e => Returned (zeroBroker, Some e)
        | None =>
          match parseListeners advertisedListeners with
          | Panicked msg => Panicked msg
          | Returned (advertisedListenersArr, err) =>
            match err with
            | Some e => Returned (zeroBroker, Some e)
            | None =>
              let broker :=
                set_AdvertisedListeners
                  (go_append (AdvertisedListeners broker)
                     (elems advertisedListenersArr)) broker in
              let '(broker, err) :=
                validateAdvertisedListeners fold_unicode broker in
              match err with
              | Some e => Returned (zeroBroker, Some e)
              | None =>
                let '(brokerIdSetting, _) := GetEnvVar "broker.id" "-1" in
                let '(brokerId, err) := Atoi brokerIdSetting in
                match err with
                | Some e =>
                  Returned (broker,
                    Some (Errorf ("error parsing broker.id: "
                                  +:+ error_message e)))
                | None =>
                  if RESERVED_BROKER_MAX_ID <? brokerId then
                    Returned (broker,
                      Some (Errorf
                        ("the configured node ID is greater than `reserved.broker.max.id`. Please adjust the `reserved.broker.max.id` setting. ["
                         +:+ Itoa brokerId +:+ " > "
                         +:+ Itoa RESERVED_BROKER_MAX_ID +:+ "]")))
                  else
                    let brokerId :=
                      if brokerId =? -1 then RESERVED_BROKER_MAX_ID + 1
                      else brokerId in
                    Returned
                      (set_BrokerID (int32_of_int brokerId) broker, None)
                end
              end
            end
          end
        end
      end
    end.
End BrokerSetup.

(** ** What validateListeners compares with

    The two maps of [validateListeners] keep, for a port and for a listener
    name, the host of the last listener seen with it.  [last_host_by key k pre]
    is that host among the listeners [pre]; [clash is4 pre l]: the listener
    [l] has the port or the name of an earlier listener and the host that is
    remembered for it is of the same kind of address. *)

Definition last_host_by {K} `{EqDecision K} (key : Listener -> K) (k : K)
  (pre : list Listener) : option string :=
  Host <$> last (filter (fun l => key l = k) pre).

Definition clash (is4 : string -> bool) (pre : list Listener) (l : Listener)
  : Prop :=
  (exists h, last_host_by Port (Port l) pre = Some h
             /\ is4 (Host l) = is4 h)
  \/ (exists h, last_host_by ListenerName (ListenerName l) pre = Some h
                /\ is4 (Host l) = is4 h).

(** Sample environments and library behaviour for the broker set-up. *)
Module BrokerExamples.

Definition env_custom_map (key default : string) : string * bool :=
  if String.eqb key "listener.security.protocol.map"
  then ("CUSTOM:PLAINTEXT, BROKEN", true)
  else (default, false).

Definition env_good_map (key default : string) : string * bool :=
  if String.eqb key "listener.security.protocol.map"
  then ("CUSTOM:PLAINTEXT, INTERNAL:SSL", true)
  else (default, false).

(** [url.Parse] returns the scheme in lower case (strings.ToLower). *)
Definition lower_byte (c : ascii) : ascii :=
  let n := N_of_ascii c in
  if ((65 <=? n) && (n <=? 90))%N then ascii_of_N (n + 32) else c.

(** A stand-in for [url.Parse] on listener addresses: the scheme is what
    precedes "://", in lower case as [url.Parse] returns it; the host is what
    follows, as it is written. *)
Definition sample_url_Parse (l : string) : URL * option error :=
  match Split ":" l with
  | scheme :: _ :: _ =>
    (mkURL (strings.map_bytes lower_byte scheme)
       (String.substring (String.length scheme + 3) (String.length l) l),
     None)
  | _ => (mkURL "" "", Some (Errorf "missing protocol scheme"))
  end.

(** A stand-in for [net.SplitHostPort]: host and port around the colon. *)
Definition sample_SplitHostPort (hostport : string)
  : string * string * option error :=
  match Split ":" hostport with
  | [host; port] => (host, port, None)
  | _ => ("", "", Some (Errorf "missing port in address"))
  end.

(** A stand-in for [strconv.Atoi], for the numbers of the samples. *)
Definition sample_Atoi (s : string) : Z * option error :=
  if String.eqb s "9092" then (9092, None)
  else if String.eqb s "9093" then (9093, None)
  else if String.eqb s "-1" then (-1, None)
  else if String.eqb s "7" then (7, None)
  else if String.eqb s "2000" then (2000, None)
  else (0, Some (Errorf "invalid syntax")).

Definition sample_error_message (e : error) : string :=
  match e with
  | Errorf msg => msg
  | _ => "error"
  end.

(** Only [listeners] is set. *)
Definition env_listeners_only (key default : string) : string * bool :=
  if String.eqb key "listeners"
  then ("PLAINTEXT://localhost:9092, SSL://localhost:9093", true)
  else (default, false).

(** [listeners], [advertised.listeners] and [broker.id] are set. *)
Definition env_full (key default : string) : string * bool :=
  if String.eqb key "listeners" then ("PLAINTEXT://localhost:9092", true)
  else if String.eqb key "advertised.listeners"
  then ("PLAINTEXT://example.com:9092", true)
  else if String.eqb key "broker.id" then ("7", true)
  else (default, false).

(** [listeners] is set and [broker.id] is above the reserved maximum. *)
Definition env_big_id (key default : string) : string * bool :=
  if String.eqb key "listeners" then ("PLAINTEXT://localhost:9092", true)
  else if String.eqb key "broker.id" then ("2000", true)
  else (default, false).

Definition env_unset (key default : string) : string * bool :=
  (default, false).

Definition plain_upper (s : string) : string := s.
Definition plain_fold (s t : string) : bool := String.eqb s t.

(** An address kind by its first byte, enough for the samples. *)
Definition sample_is4 (host : string) : bool :=
  match host with
  | String "1" _ => true
  | _ => false
  end.

Definition listener_at (name host : string) (port : Z) : Listener :=
  mkListener host port PLAINTEXT name.

End BrokerExamples.

Import BrokerExamples.

(** [listeners_ready ... b0]: [b0] holds the listeners NewBroker builds from
    the settings [listeners] and [advertised.listeners], both parsed and
    validated without error, and no broker id yet. *)
Definition listeners_ready
  (GetEnvVar : string -> string -> string * bool)
  (url_Parse : string -> URL * option error)
  (SplitHostPort : string -> string * string * option error)
  (Atoi : string -> Z * option error)
  (upper_unicode : string -> string) (fold_unicode : string -> string -> bool)
  (is4 : string -> bool) (b0 : Broker) : Prop :=
  (GetEnvVar "listeners" "").2 = true
  /\ exists ls advs,
       parseListeners GetEnvVar url_Parse SplitHostPort Atoi upper_unicode
         fold_unicode
         (Some (Split "," (remove_spaces (GetEnvVar "listeners" "").1)))
       = Returned (ls, None)
       /\ parseListeners GetEnvVar url_Parse SplitHostPort Atoi upper_unicode
            fold_unicode
            (Some (Split ","
                     (remove_spaces (GetEnvVar "advertised.listeners" "").1)))
          = Returned (advs, None)
       /\ b0 = mkBroker 0 None (go_append None (elems ls))
                 (go_append None (elems advs))
       /\ (validateListeners is4 b0).2 = None
       /\ (validateAdvertisedListeners fold_unicode b0).2 = None.

(** ** The receiver after a failed decode

    [R_failed_receiver r0 pd v r pd' e] describes the receiver [r] and the
    decoder [pd'] that a decode of a message into [r0], from [pd] at version
    [v], leaves behind next to the error [e], by the place of the failure:
    - the read of the cluster id failed: the receiver holds the version, what
      that read returned, and the topic list it had before the call;
    - the read of the count failed: the receiver holds the version, the
      cluster id read, and the topic list it had before the call;
    - the decode of the topic at index [length ts] failed, after the topics
      [ts] were decoded: the receiver holds the version, the cluster id read,
      and the list of [n] entries made by the call, which starts with [ts]
      and holds zero values from the index of the failing topic on.
    [T_failed_receiver] is the same for a topic and its partitions. *)
Definition R_failed_receiver {D : Type} `{!packetDecoder D}
  (r0 : R.t) (pd : D) (v : Z) (r : R.t) (pd' : D) (e : error) : Prop :=
  (exists c,
     getNullableString pd = (pd', c, Some e)
     /\ r = R.mk v c (R.Topics r0))
  \/ (exists c pd1 n,
        getNullableString pd = (pd1, c, None)
        /\ getArrayLength pd1 = (pd', n, Some e)
        /\ r = R.mk v c (R.Topics r0))
  \/ (exists c pd1 n pd2 ts pdj xfail,
        getNullableString pd = (pd1, c, None)
        /\ getArrayLength pd1 = (pd2, n, None)
        /\ (length ts < Z.to_nat n)%nat
        /\ R.decode_blocks (length ts) 0 (replicate (Z.to_nat n) T.zero) pd2 v
           = (ts ++ replicate (Z.to_nat n - length ts) T.zero, pdj, None)
        /\ Forall (T_versioned v) ts
        /\ T.decode T.zero pdj v = (xfail, pd', Some e)
        /\ r = R.mk v c
                 (Some (ts ++ replicate (Z.to_nat n - length ts) T.zero))).

Definition T_failed_receiver {D : Type} `{!packetDecoder D}
  (x0 : T.t) (pd : D) (v : Z) (x : T.t) (pd' : D) (e : error) : Prop :=
  (exists s,
     getString pd = (pd', s, Some e)
     /\ x = T.mk v s (T.Partitions x0))
  \/ (exists s pd1 n,
        getString pd = (pd1, s, None)
        /\ getArrayLength pd1 = (pd', n, Some e)
        /\ x = T.mk v s (T.Partitions x0))
  \/ (exists s pd1 n pd2 ps pdj pfail,
        getString pd = (pd1, s, None)
        /\ getArrayLength pd1 = (pd2, n, None)
        /\ (length ps < Z.to_nat n)%nat
        /\ T.decode_blocks (length ps) 0 (replicate (Z.to_nat n) P.zero) pd2 v
           = (ps ++ replicate (Z.to_nat n - length ps) P.zero, pdj, None)
        /\ Forall (P_versioned v) ps
        /\ P.decode P.zero pdj v = (pfail, pd', Some e)
        /\ x = T.mk v s
                 (Some (ps ++ replicate (Z.to_nat n - length ps) P.zero))).

Import Examples.

(** * Properties *)

(** ** Bytes and fixed-width integers *)

Lemma Z_of_byte_of_Z (z : Z) : Z_of_byte (byte_of_Z z) = z mod 256.
Proof.
  unfold Z_of_byte, byte_of_Z.
  assert (Hr : 0 <= z mod 256 < 256) by (apply Z.mod_pos_bound; lia).
  destruct (Byte.of_N (Z.to_N (z mod 256))) as [b|] eqn:Hb; simpl.
  - apply Byte.to_of_N in Hb. rewrite Hb. apply Z2N.id. lia.
  - apply Byte.of_N_None_iff in Hb. lia.
Qed.

Lemma int16_of_bytes_be16 (x : Z) :
  -32768 <= x <= 32767 ->
  int16_of_bytes (byte_of_Z (Z.shiftr x 8)) (byte_of_Z x) = x.
Proof.
  intros Hx. unfold int16_of_bytes.
  rewrite !Z_of_byte_of_Z, Z.shiftr_div_pow2 by lia.
  change (2 ^ 8) with 256.
  destruct (Z.ltb_spec (x / 256 mod 256 * 256 + x mod 256) 32768);
    Z.div_mod_to_equations; lia.
Qed.

Lemma int32_of_bytes_be32 (x : Z) :
  int32_range x ->
  int32_of_bytes (byte_of_Z (Z.shiftr x 24)) (byte_of_Z (Z.shiftr x 16))
                 (byte_of_Z (Z.shiftr x 8)) (byte_of_Z x) = x.
Proof.
  unfold int32_range. intros Hx. unfold int32_of_bytes.
  rewrite !Z_of_byte_of_Z, !Z.shiftr_div_pow2 by lia.
  change (2 ^ 8) with 256. change (2 ^ 16) with 65536.
  change (2 ^ 24) with 16777216.
  match goal with |- (if ?u <? _ then _ else _) = _ =>
    destruct (Z.ltb_spec u 2147483648) end;
    Z.div_mod_to_equations; lia.
Qed.

Lemma string_of_bytes_of_string (s : string) :
  string_of_bytes (bytes_of_string s) = s.
Proof. apply String.string_of_list_byte_of_string. Qed.

Lemma strlen_nonneg (s : string) : 0 <= strlen s.
Proof. unfold strlen. lia. Qed.

(** ** Encoding follows the layout *)

Section EncodeLayout.
Context {E : Type} `{!packetEncoder E}.

Lemma run_ops_app (ops1 ops2 : list wire_op) (pe : E) :
  run_ops pe (ops1 ++ ops2) =
  match run_ops pe ops1 with
  | (pe', None) => run_ops pe' ops2
  | (pe', Some e) => (pe', Some e)
  end.
Proof.
  revert pe. induction ops1 as [|op ops1 IH]; intros pe; simpl; [done|].
  destruct (put_op pe op) as [pe' [e|]]; [done|]. apply IH.
Qed.

Lemma P_encode_layout (p : P.t) (pe : E) (v : Z) :
  out (P.encode p pe v) = run_ops pe (layout_partition p).
Proof. reflexivity. Qed.

Lemma T_encode_blocks_layout (ps : list P.t) (pe : E) (v : Z) :
  out (T.encode_blocks ps pe v) = run_ops pe (flat_map layout_partition ps).
Proof.
  revert pe. induction ps as [|p ps IH]; intros pe; [done|].
  change (flat_map layout_partition (p :: ps))
    with (layout_partition p ++ flat_map layout_partition ps).
  rewrite run_ops_app, <- (P_encode_layout p pe v). simpl.
  rewrite <- IH.
  by destruct (T.encode_blocks ps _ v) as [[? ?] ?].
Qed.

Lemma T_encode_traced_layout (x : T.t) (pe : E) (v : Z) :
  out (T.encode_traced x pe v) = run_ops pe (layout_topic x).
Proof.
  unfold T.encode_traced, layout_topic. simpl.
  destruct (putString pe (T.TopicName x)) as [pe1 [e|]]; [done|].
  destruct (putArrayLength pe1 _) as [pe2 [e|]]; [done|].
  rewrite <- (T_encode_blocks_layout _ pe2 v).
  by destruct (T.encode_blocks _ pe2 v) as [[? ?] ?].
Qed.

Lemma T_encode_layout (x : T.t) (pe : E) (v : Z) :
  out (T.encode x pe v) = run_ops pe (layout_topic x).
Proof.
  rewrite <- T_encode_traced_layout with (v := v). unfold T.encode.
  by destruct (T.encode_traced x pe v) as [[[? ?] ?] ?].
Qed.

Lemma R_encode_blocks_layout (ts : list T.t) (pe : E) (v : Z) :
  out (R.encode_blocks ts pe v) = run_ops pe (flat_map layout_topic ts).
Proof.
  revert pe. induction ts as [|x ts IH]; intros pe; [done|].
  change (flat_map layout_topic (x :: ts))
    with (layout_topic x ++ flat_map layout_topic ts).
  rewrite run_ops_app, <- (T_encode_traced_layout x pe v). simpl.
  destruct (T.encode_traced x pe v) as [[[x' cs] pe1] [e|]]; [done|].
  simpl. rewrite <- IH.
  by destruct (R.encode_blocks ts pe1 v) as [[? ?] ?].
Qed.

Lemma R_encode_layout (r : R.t) (pe : E) :
  out (R.encode r pe) = run_ops pe (layout_request r).
Proof.
  unfold R.encode, R.encode_traced, layout_request. simpl.
  destruct (putNullableString pe (R.ClusterID r)) as [pe1 [e|]]; [done|].
  destruct (putArrayLength pe1 _) as [pe2 [e|]]; [done|].
  rewrite <- (R_encode_blocks_layout _ pe2 (R.Version r)).
  by destruct (R.encode_blocks _ pe2 _) as [[? ?] ?].
Qed.
End EncodeLayout.

(** ** Decoding: versions *)

Section DecodeVersion.
Context {D : Type} `{!packetDecoder D}.

Lemma P_decode_Version (p : P.t) (pd : D) (v : Z) :
  P.Version (P.decode p pd v).1.1 = v.
Proof.
  unfold P.decode.
  destruct (getInt32 pd) as [[pd1 x1] [e|]]; [done|].
  destruct (getInt32 pd1) as [[pd2 x2] [e|]]; [done|].
  by destruct (getInt32 pd2) as [[pd3 x3] [e|]].
Qed.

Lemma T_decode_blocks_versioned (v : Z) (k : nat) :
  forall (i : nat) (arr : list P.t) (pd : D) arr' pd',
    T.decode_blocks k i arr pd v = (arr', pd', None) ->
    length arr = (i + k)%nat ->
    Forall (P_versioned v) (take i arr) ->
    Forall (P_versioned v) arr'.
Proof.
  induction k as [|k IH]; intros i arr pd arr' pd' Hrun Hlen Hpre;
    simpl in Hrun.
  - injection Hrun as <- _. by rewrite take_ge in Hpre by lia.
  - pose proof (P_decode_Version P.zero pd v) as Hv.
    destruct (P.decode P.zero pd v) as [[b pd1] [e|]]; [done|].
    apply IH in Hrun; [done | rewrite length_insert; lia |].
    rewrite (take_S_r _ _ b) by (apply list_lookup_insert_eq; lia).
    rewrite take_insert_ge by lia.
    apply Forall_app. split; [done|]. by apply Forall_singleton.
Qed.

Lemma T_decode_versioned (x0 : T.t) (pd : D) (v : Z) x pd' :
  T.Partitions x0 = None ->
  T.decode x0 pd v = (x, pd', None) ->
  T_versioned v x.
Proof.
  unfold T.decode, T_versioned. intros Hnil Hrun.
  destruct (getString pd) as [[pd1 s] [e|]]; [done|].
  destruct (getArrayLength pd1) as [[pd2 n] [e|]]; [done|].
  destruct (0 <? n).
  - simpl in Hrun.
    destruct (T.decode_blocks _ _ _ _ _) as [[arr pd3] err] eqn:Hloop.
    injection Hrun as <- _ ->. simpl. split; [done|].
    eapply T_decode_blocks_versioned; [exact Hloop| |by rewrite take_0].
    by rewrite length_replicate.
  - injection Hrun as <- _. simpl. rewrite Hnil. split; [done|constructor].
Qed.

Lemma R_decode_blocks_versioned (v : Z) (k : nat) :
  forall (i : nat) (arr : list T.t) (pd : D) arr' pd',
    R.decode_blocks k i arr pd v = (arr', pd', None) ->
    length arr = (i + k)%nat ->
    Forall (T_versioned v) (take i arr) ->
    Forall (T_versioned v) arr'.
Proof.
  induction k as [|k IH]; intros i arr pd arr' pd' Hrun Hlen Hpre;
    simpl in Hrun.
  - injection Hrun as <- _. by rewrite take_ge in Hpre by lia.
  - destruct (T.decode T.zero pd v) as [[b pd1] [e|]] eqn:Hb; [done|].
    apply T_decode_versioned in Hb; [|done].
    apply IH in Hrun; [done | rewrite length_insert; lia |].
    rewrite (take_S_r _ _ b) by (apply list_lookup_insert_eq; lia).
    rewrite take_insert_ge by lia.
    apply Forall_app. split; [done|]. by apply Forall_singleton.
Qed.

Lemma R_decode_versioned (r0 : R.t) (pd : D) (v : Z) r pd' :
  R.Topics r0 = None ->
  R.decode r0 pd v = (r, pd', None) ->
  R_versioned v r.
Proof.
  unfold R.decode, R_versioned. intros Hnil Hrun.
  destruct (getNullableString pd) as [[pd1 s] [e|]]; [done|].
  destruct (getArrayLength pd1) as [[pd2 n] [e|]]; [done|].
  destruct (0 <? n).
  - simpl in Hrun.
    destruct (R.decode_blocks _ _ _ _ _) as [[arr pd3] err] eqn:Hloop.
    injection Hrun as <- _ ->. simpl. split; [done|].
    eapply R_decode_blocks_versioned; [exact Hloop| |by rewrite take_0].
    by rewrite length_replicate.
  - injection Hrun as <- _. simpl. rewrite Hnil. split; [done|constructor].
Qed.
End DecodeVersion.

(** ** Decoding: the first failure ends the call *)

Section DecodeFailure.
Context {D : Type} `{!packetDecoder D}.

Lemma T_decode_blocks_app (v : Z) (j m : nat) :
  forall (i : nat) (arr : list P.t) (pd : D),
    T.decode_blocks (j + m) i arr pd v =
    match T.decode_blocks j i arr pd v with
    | (arr', pd', None) => T.decode_blocks m (i + j) arr' pd' v
    | failed => failed
    end.
Proof.
  induction j as [|j IH]; intros i arr pd; simpl.
  - by rewrite Nat.add_0_r.
  - destruct (P.decode P.zero pd v) as [[b pd1] [e|]]; [done|].
    rewrite IH. by rewrite Nat.add_succ_r.
Qed.

Lemma R_decode_blocks_app (v : Z) (j m : nat) :
  forall (i : nat) (arr : list T.t) (pd : D),
    R.decode_blocks (j + m) i arr pd v =
    match R.decode_blocks j i arr pd v with
    | (arr', pd', None) => R.decode_blocks m (i + j) arr' pd' v
    | failed => failed
    end.
Proof.
  induction j as [|j IH]; intros i arr pd; simpl.
  - by rewrite Nat.add_0_r.
  - destruct (T.decode T.zero pd v) as [[b pd1] [e|]]; [done|].
    rewrite IH. by rewrite Nat.add_succ_r.
Qed.

(** A partition that fails after [j] good ones fails the loop, whatever the
    number [n > j] of partitions announced. *)
Lemma T_decode_blocks_fail (v : Z) (n j : nat) (arr0 arr : list P.t)
  (pd pdj pd' : D) b e :
  (j < n)%nat ->
  T.decode_blocks j 0 arr0 pd v = (arr, pdj, None) ->
  P.decode P.zero pdj v = (b, pd', Some e) ->
  T.decode_blocks n 0 arr0 pd v = (arr, pd', Some e).
Proof.
  intros Hj Hpre Hfail.
  replace n with (j + S (n - S j))%nat by lia.
  rewrite T_decode_blocks_app, Hpre. simpl. by rewrite Hfail.
Qed.

Lemma R_decode_blocks_fail (v : Z) (n j : nat) (arr0 arr : list T.t)
  (pd pdj pd' : D) b e :
  (j < n)%nat ->
  R.decode_blocks j 0 arr0 pd v = (arr, pdj, None) ->
  T.decode T.zero pdj v = (b, pd', Some e) ->
  R.decode_blocks n 0 arr0 pd v = (arr, pd', Some e).
Proof.
  intros Hj Hpre Hfail.
  replace n with (j + S (n - S j))%nat by lia.
  rewrite R_decode_blocks_app, Hpre. simpl. by rewrite Hfail.
Qed.

Lemma T_decode_fail_in_blocks (x0 : T.t) (v : Z) (pd pd1 pd2 pd' : D)
  name n arr e :
  getString pd = (pd1, name, None) ->
  getArrayLength pd1 = (pd2, n, None) ->
  0 < n ->
  T.decode_blocks (Z.to_nat n) 0 (replicate (Z.to_nat n) P.zero) pd2 v
    = (arr, pd', Some e) ->
  T.decode x0 pd v = (T.mk v name (Some arr), pd', Some e).
Proof.
  intros Hs Hn Hpos Hloop. unfold T.decode. rewrite Hs, Hn.
  destruct (Z.ltb_spec 0 n); [|lia]. simpl. by rewrite Hloop.
Qed.

Lemma R_decode_fail_in_blocks (r0 : R.t) (v : Z) (pd pd1 pd2 pd' : D)
  c n arr e :
  getNullableString pd = (pd1, c, None) ->
  getArrayLength pd1 = (pd2, n, None) ->
  0 < n ->
  R.decode_blocks (Z.to_nat n) 0 (replicate (Z.to_nat n) T.zero) pd2 v
    = (arr, pd', Some e) ->
  R.decode r0 pd v = (R.mk v c (Some arr), pd', Some e).
Proof.
  intros Hs Hn Hpos Hloop. unfold R.decode. rewrite Hs, Hn.
  destruct (Z.ltb_spec 0 n); [|lia]. simpl. by rewrite Hloop.
Qed.
End DecodeFailure.

(** ** The cursors of the specification: what is written is read back *)

Section RealCursor.

Lemma real_put_op (pe : realEncoder) (op : wire_op) :
  op_legal op -> put_op pe op = (pe ++ op_bytes op, None).
Proof.
  destruct op as [x|s|[s|]|n]; simpl; intros Hop; try done.
  - unfold realEncoder.putString.
    destruct (Z.ltb_spec 32767 (strlen s)); [lia|].
    unfold realEncoder.putInt16. by rewrite <- app_assoc.
  - unfold realEncoder.putString.
    destruct (Z.ltb_spec 32767 (strlen s)); [lia|].
    unfold realEncoder.putInt16. by rewrite <- app_assoc.
  - unfold realEncoder.putArrayLength.
    by destruct (Z.ltb_spec 2147483647 n); [lia|].
Qed.

Lemma real_run_ops (ops : list wire_op) (pe : realEncoder) :
  Forall op_legal ops ->
  run_ops pe ops = (pe ++ flat_map op_bytes ops, None).
Proof.
  intros Hops. revert pe.
  induction Hops as [|op ops Hop _ IH]; intros pe; simpl.
  - by rewrite app_nil_r.
  - rewrite real_put_op by done. rewrite IH. by rewrite <- app_assoc.
Qed.

Lemma real_getInt32 (x : Z) (rest : list byte) :
  int32_range x ->
  getInt32 (be32 x ++ rest : realDecoder) = (rest, x, None).
Proof. intros Hx. simpl. by rewrite int32_of_bytes_be32. Qed.

Lemma real_getInt16 (x : Z) (rest : list byte) :
  -32768 <= x <= 32767 ->
  realDecoder.getInt16 (be16 x ++ rest) = (rest, x, None).
Proof. intros Hx. simpl. by rewrite int16_of_bytes_be16. Qed.

Lemma real_getRaw (s : string) (rest : list byte) :
  realDecoder.getRaw (bytes_of_string s ++ rest) (strlen s)
  = (rest, s, None).
Proof.
  unfold realDecoder.getRaw, strlen. rewrite length_app.
  destruct (Z.ltb_spec
    (Z.of_nat (length (bytes_of_string s) + length rest))
    (Z.of_nat (length (bytes_of_string s)))); [lia|].
  rewrite Nat2Z.id, drop_app_length, take_app_length.
  by rewrite string_of_bytes_of_string.
Qed.

Lemma real_getString (s : string) (rest : list byte) :
  strlen s <= 32767 ->
  getString (op_bytes (OpString s) ++ rest : realDecoder) = (rest, s, None).
Proof.
  intros Hs. pose proof (strlen_nonneg s) as H0.
  cbn [op_bytes getString realDecoder_packetDecoder].
  unfold realDecoder.getString. rewrite <- app_assoc.
  rewrite real_getInt16 by lia.
  destruct (Z.ltb_spec (strlen s) 0); [lia|]. apply real_getRaw.
Qed.

Lemma real_getNullableString (c : option string) (rest : list byte) :
  nullable_legal c ->
  getNullableString (op_bytes (OpNullableString c) ++ rest : realDecoder)
  = (rest, c, None).
Proof.
  destruct c as [s|]; simpl; intros Hs; [|done].
  pose proof (strlen_nonneg s) as H0.
  unfold realDecoder.getNullableString.
  change (byte_of_Z (Z.shiftr (strlen s) 8) :: byte_of_Z (strlen s)
          :: bytes_of_string s ++ rest)
    with (be16 (strlen s) ++ bytes_of_string s ++ rest).
  rewrite real_getInt16 by lia.
  destruct (Z.eqb_spec (strlen s) (-1)); [lia|].
  destruct (Z.ltb_spec (strlen s) 0); [lia|].
  by rewrite real_getRaw.
Qed.

Lemma real_getArrayLength (n : Z) (rest : list byte) :
  0 <= n <= 2147483647 ->
  getArrayLength (be32 n ++ rest : realDecoder) = (rest, n, None).
Proof.
  intros Hn. cbn [getArrayLength realDecoder_packetDecoder].
  unfold realDecoder.getArrayLength.
  pose proof (real_getInt32 n rest) as Hg.
  cbn [getInt32 realDecoder_packetDecoder] in Hg.
  rewrite Hg by (unfold int32_range; lia).
  by destruct (Z.ltb_spec n (-1)); [lia|].
Qed.
End RealCursor.

(** ** Round trip of the three records on the cursors of the specification *)

Section RoundTrip.

Lemma P_layout_legal (v : Z) (p : P.t) :
  P_legal v p -> Forall op_legal (layout_partition p).
Proof.
  intros (_ & H1 & H2 & H3). unfold layout_partition.
  repeat (apply Forall_cons; split; [done|]). constructor.
Qed.

Lemma Forall_flat_map_legal {A} (f : A -> list wire_op) (l : list A)
  (Q : A -> Prop) :
  (forall a, Q a -> Forall op_legal (f a)) ->
  Forall Q l -> Forall op_legal (flat_map f l).
Proof.
  intros Hf Hl. induction Hl as [|a l Ha _ IH]; simpl; [constructor|].
  apply Forall_app. split; [by apply Hf | exact IH].
Qed.

Lemma len_range {A} (s : slice A) :
  len s <= 2147483647 -> 0 <= len s <= 2147483647.
Proof. unfold len. lia. Qed.

Lemma T_layout_legal (v : Z) (x : T.t) :
  T_legal v x -> Forall op_legal (layout_topic x).
Proof.
  intros (_ & Hname & _ & Hlen & Hps). unfold layout_topic.
  constructor; [exact Hname|]. constructor; [by apply len_range|].
  eapply Forall_flat_map_legal; [apply P_layout_legal | exact Hps].
Qed.

Lemma R_layout_legal (v : Z) (r : R.t) :
  R_legal v r -> Forall op_legal (layout_request r).
Proof.
  intros (_ & Hc & _ & Hlen & Hts). unfold layout_request.
  constructor; [exact Hc|]. constructor; [by apply len_range|].
  eapply Forall_flat_map_legal; [apply T_layout_legal | exact Hts].
Qed.

(** Receivers after an encode. *)
Lemma T_encode_receiver {E} `{!packetEncoder E} (x : T.t) (pe : E) (v : Z) :
  (T.encode x pe v).1.1 = T.set_Version v x.
Proof.
  unfold T.encode, T.encode_traced.
  destruct (putString pe _) as [pe1 [e|]]; [done|].
  destruct (putArrayLength pe1 _) as [pe2 [e|]]; [done|].
  by destruct (T.encode_blocks _ pe2 _) as [[? ?] ?].
Qed.

Lemma R_encode_receiver {E} `{!packetEncoder E} (r : R.t) (pe : E) :
  (R.encode r pe).1.1 = r.
Proof.
  unfold R.encode, R.encode_traced.
  destruct (putNullableString pe _) as [pe1 [e|]]; [done|].
  destruct (putArrayLength pe1 _) as [pe2 [e|]]; [done|].
  by destruct (R.encode_blocks _ pe2 _) as [[? ?] ?].
Qed.

Lemma P_encode_wire (v : Z) (p : P.t) (pe : realEncoder) :
  P_legal v p -> P.encode p pe v = (p, pe ++ wire_partition p, None).
Proof.
  intros Hp. pose proof (P_encode_layout p pe v) as Hout.
  rewrite real_run_ops in Hout by (by eapply P_layout_legal).
  destruct Hp as (Hv & _). destruct p as [v0 a b c]. simpl in Hv. subst v0.
  exact (f_equal (fun o => (P.mk v a b c, o.1, o.2)) Hout).
Qed.

Lemma T_encode_wire (v : Z) (x : T.t) (pe : realEncoder) :
  T_legal v x -> T.encode x pe v = (x, pe ++ wire_topic x, None).
Proof.
  intros Hx. pose proof (T_encode_traced_layout x pe v) as Hout.
  rewrite real_run_ops in Hout by (by eapply T_layout_legal).
  pose proof (T_encode_receiver x pe v) as Hrec.
  unfold T.encode in *.
  destruct (T.encode_traced x pe v) as [[[x' cs] pe'] err].
  unfold out in Hout. simpl in Hout, Hrec. injection Hout as -> ->.
  subst x'. destruct Hx as (Hv & _). destruct x as [v0 n ps].
  simpl in Hv. by subst v0.
Qed.

Lemma R_encode_wire (v : Z) (r : R.t) (pe : realEncoder) :
  R_legal v r -> R.encode r pe = (r, pe ++ wire_request r, None).
Proof.
  intros Hr. pose proof (R_encode_layout r pe) as Hout.
  rewrite real_run_ops in Hout by (by eapply R_layout_legal).
  pose proof (R_encode_receiver r pe) as Hrec.
  destruct (R.encode r pe) as [[r' pe'] err].
  unfold out in Hout. simpl in Hout, Hrec. injection Hout as -> ->.
  by subst r'.
Qed.

Lemma P_decode_wire (v : Z) (p p0 : P.t) (rest : list byte) :
  P_legal v p ->
  P.decode p0 (wire_partition p ++ rest : realDecoder) v = (p, rest, None).
Proof.
  intros (Hv & H1 & H2 & H3). destruct p as [v0 a b c].
  simpl in Hv, H1, H2, H3. subst v0. unfold P.decode.
  change (wire_partition (P.mk v a b c) ++ rest)
    with (be32 a ++ be32 b ++ be32 c ++ rest).
  rewrite real_getInt32 by done. rewrite real_getInt32 by done.
  by rewrite real_getInt32 by done.
Qed.

Lemma T_decode_blocks_wire (v : Z) (ps : list P.t) :
  forall (pre suf : list P.t) (rest : list byte),
    Forall (P_legal v) ps ->
    length suf = length ps ->
    T.decode_blocks (length ps) (length pre) (pre ++ suf)
      (flat_map wire_partition ps ++ rest : realDecoder) v
    = (pre ++ ps, rest, None).
Proof.
  induction ps as [|p ps IH]; intros pre suf rest Hps Hlen.
  - destruct suf; [|done]. done.
  - destruct suf as [|z suf]; [done|].
    apply Forall_cons in Hps as [Hp Hps].
    cbn [length T.decode_blocks flat_map]. rewrite <- app_assoc.
    rewrite P_decode_wire by done.
    rewrite insert_app_r_alt, Nat.sub_diag by lia. cbn [insert list_insert].
    rewrite (cons_middle p pre suf), (cons_middle p pre ps), !app_assoc.
    replace (S (length pre)) with (length (pre ++ [p]))
      by (rewrite length_app; simpl; lia).
    apply IH; [done|]. simpl in Hlen. lia.
Qed.
End RoundTrip.

Section RoundTripNested.

Lemma flat_map_flat_map {A B C} (f : A -> list B) (g : B -> list C)
  (l : list A) :
  flat_map g (flat_map f l) = flat_map (fun a => flat_map g (f a)) l.
Proof.
  induction l as [|a l IH]; simpl; [done|].
  by rewrite flat_map_app, IH.
Qed.

Lemma wire_topic_eq (x : T.t) :
  wire_topic x =
  op_bytes (OpString (T.TopicName x)) ++ be32 (len (T.Partitions x))
  ++ flat_map wire_partition (elems (T.Partitions x)).
Proof.
  unfold wire_topic, layout_topic. cbn [flat_map].
  by rewrite flat_map_flat_map.
Qed.

Lemma wire_request_eq (r : R.t) :
  wire_request r =
  op_bytes (OpNullableString (R.ClusterID r)) ++ be32 (len (R.Topics r))
  ++ flat_map wire_topic (elems (R.Topics r)).
Proof.
  unfold wire_request, layout_request. cbn [flat_map].
  by rewrite flat_map_flat_map.
Qed.

Lemma len_cons {A} (a : A) (l : list A) :
  0 < len (Some (a :: l))
  /\ Z.to_nat (len (Some (a :: l))) = length (a :: l).
Proof. unfold len. cbn [elems]. split; [simpl; lia | apply Nat2Z.id]. Qed.

Lemma T_decode_wire (v : Z) (x x0 : T.t) (rest : list byte) :
  T_legal v x ->
  T.Partitions x0 = None ->
  T.decode x0 (wire_topic x ++ rest : realDecoder) v = (x, rest, None).
Proof.
  intros (Hv & Hname & Hne & Hlen & Hps) Hnil.
  rewrite wire_topic_eq, <- !app_assoc. unfold T.decode.
  rewrite real_getString by done.
  rewrite real_getArrayLength by (by apply len_range).
  destruct x as [v0 name [[|p ps]|]]; cbn [T.Partitions T.TopicName T.Version]
    in *; subst v0; [done| |].
  - destruct (len_cons p ps) as [Hpos Hn].
    destruct (Z.ltb_spec 0 (len (Some (p :: ps)))); [|lia].
    cbn zeta. rewrite Hn. cbn [elems].
    pose proof (T_decode_blocks_wire v (p :: ps) []
                  (replicate (length (p :: ps)) P.zero) rest Hps
                  (length_replicate _ _)) as Hloop.
    change (T.Version (T.set_TopicName name (T.set_Version v x0))) with v.
    change (T.decode_blocks (length (p :: ps)) 0
              (replicate (length (p :: ps)) P.zero)
              (flat_map wire_partition (p :: ps) ++ rest : realDecoder) v
            = (p :: ps, rest, None)) in Hloop.
    by rewrite Hloop.
  - cbn [elems flat_map app]. change (len None) with 0.
    cbn [Z.ltb Z.compare]. unfold T.set_TopicName, T.set_Version.
    cbn [T.Partitions T.TopicName T.Version]. by rewrite Hnil.
Qed.

Lemma R_decode_blocks_wire (v : Z) (ts : list T.t) :
  forall (pre suf : list T.t) (rest : list byte),
    Forall (T_legal v) ts ->
    length suf = length ts ->
    R.decode_blocks (length ts) (length pre) (pre ++ suf)
      (flat_map wire_topic ts ++ rest : realDecoder) v
    = (pre ++ ts, rest, None).
Proof.
  induction ts as [|x ts IH]; intros pre suf rest Hts Hlen.
  - destruct suf; [|done]. done.
  - destruct suf as [|z suf]; [done|].
    apply Forall_cons in Hts as [Hx Hts].
    cbn [length R.decode_blocks flat_map]. rewrite <- app_assoc.
    rewrite T_decode_wire by done.
    rewrite insert_app_r_alt, Nat.sub_diag by lia. cbn [insert list_insert].
    rewrite (cons_middle x pre suf), (cons_middle x pre ts), !app_assoc.
    replace (S (length pre)) with (length (pre ++ [x]))
      by (rewrite length_app; simpl; lia).
    apply IH; [done|]. simpl in Hlen. lia.
Qed.

Lemma R_decode_wire (v : Z) (r r0 : R.t) (rest : list byte) :
  R_legal v r ->
  R.Topics r0 = None ->
  R.decode r0 (wire_request r ++ rest : realDecoder) v = (r, rest, None).
Proof.
  intros (Hv & Hc & Hne & Hlen & Hts) Hnil.
  rewrite wire_request_eq, <- !app_assoc. unfold R.decode.
  rewrite real_getNullableString by done.
  rewrite real_getArrayLength by (by apply len_range).
  destruct r as [v0 c [[|x ts]|]]; cbn [R.Topics R.ClusterID R.Version]
    in *; subst v0; [done| |].
  - destruct (len_cons x ts) as [Hpos Hn].
    destruct (Z.ltb_spec 0 (len (Some (x :: ts)))); [|lia].
    cbn zeta. rewrite Hn. cbn [elems].
    pose proof (R_decode_blocks_wire v (x :: ts) []
                  (replicate (length (x :: ts)) T.zero) rest Hts
                  (length_replicate _ _)) as Hloop.
    change (R.Version (R.set_ClusterID c (R.set_Version v r0))) with v.
    change (R.decode_blocks (length (x :: ts)) 0
              (replicate (length (x :: ts)) T.zero)
              (flat_map wire_topic (x :: ts) ++ rest : realDecoder) v
            = (x :: ts, rest, None)) in Hloop.
    by rewrite Hloop.
  - cbn [elems flat_map app]. change (len None) with 0.
    cbn [Z.ltb Z.compare]. unfold R.set_ClusterID, R.set_Version.
    cbn [R.Topics R.ClusterID R.Version]. by rewrite Hnil.
Qed.
End RoundTripNested.

(** ** Encoding: the version each call works with *)

Section EncodeVersion.
Context {E : Type} `{!packetEncoder E}.

Lemma T_encode_blocks_copies (ps : list P.t) (pe : E) (v : Z) :
  (T.encode_blocks ps pe v).1.1 = map (P.set_Version v) ps
  /\ (T.encode_blocks ps pe v).2 = None.
Proof.
  revert pe. induction ps as [|p ps IH]; intros pe; [done|].
  cbn [T.encode_blocks]. unfold P.encode. cbn zeta.
  specialize (IH (putInt32 (putInt32 (putInt32 pe
    (P.PartitionIndex (P.set_Version v p)))
    (P.LeaderID (P.set_Version v p)))
    (P.LeaderEpoch (P.set_Version v p)))).
  destruct (T.encode_blocks ps _ v) as [[cs pe'] err].
  simpl in IH. destruct IH as [-> ->]. done.
Qed.

Lemma set_Version_versioned (v : Z) (ps : list P.t) :
  Forall (P_versioned v) (map (P.set_Version v) ps).
Proof. induction ps; constructor; done. Qed.

Lemma traced_copy_versioned (v : Z) (x : T.t) :
  call_versioned v (traced_copy v x).
Proof. split; [done | apply set_Version_versioned]. Qed.

(** The copies of a topic call: the receiver with its version set, and the
    partition copies of the loop, if the loop was reached. *)
Lemma T_encode_traced_copies (x : T.t) (pe : E) (v : Z) :
  call_versioned v ((T.encode_traced x pe v).1.1.1,
                    (T.encode_traced x pe v).1.1.2)
  /\ ((T.encode_traced x pe v).2 = None ->
      ((T.encode_traced x pe v).1.1.1, (T.encode_traced x pe v).1.1.2)
      = traced_copy v x).
Proof.
  unfold T.encode_traced, call_versioned.
  destruct (putString pe _) as [pe1 [e|]]; [by repeat split|].
  destruct (putArrayLength pe1 _) as [pe2 [e|]]; [by repeat split|].
  pose proof (T_encode_blocks_copies
    (elems (T.Partitions (T.set_Version v x))) pe2
    (T.Version (T.set_Version v x))) as [Hc He].
  destruct (T.encode_blocks _ pe2 _) as [[cs pe'] err].
  simpl in Hc, He. subst cs err. cbn.
  split; [|done]. split; [done|apply set_Version_versioned].
Qed.

Lemma R_encode_blocks_copies (ts : list T.t) (pe : E) (v : Z) :
  Forall (call_versioned v) (R.encode_blocks ts pe v).1.1
  /\ ((R.encode_blocks ts pe v).2 = None ->
      (R.encode_blocks ts pe v).1.1 = map (traced_copy v) ts).
Proof.
  revert pe. induction ts as [|x ts IH]; intros pe; [by split|].
  cbn [R.encode_blocks map].
  pose proof (T_encode_traced_copies x pe v) as [Hv Hok].
  destruct (T.encode_traced x pe v) as [[[x' cs] pe1] [e|]];
    cbn [fst snd] in Hv, Hok.
  - split; [|done]. cbn. by constructor.
  - specialize (IH pe1). rewrite <- Hok by done.
    destruct (R.encode_blocks ts pe1 v) as [[cs' pe2] err].
    cbn [fst snd] in IH |- *. destruct IH as [IHv IHok].
    split; [by constructor|]. intros ->. by rewrite IHok.
Qed.

Lemma R_encode_traced_copies (r : R.t) (pe : E) :
  (R.encode_traced r pe).1.1.1 = r
  /\ Forall (call_versioned (R.Version r)) (R.encode_traced r pe).1.1.2
  /\ ((R.encode_traced r pe).2 = None ->
      (R.encode_traced r pe).1.1.2
      = map (traced_copy (R.Version r)) (elems (R.Topics r))).
Proof.
  unfold R.encode_traced.
  destruct (putNullableString pe _) as [pe1 [e|]]; [by repeat split|].
  destruct (putArrayLength pe1 _) as [pe2 [e|]]; [by repeat split|].
  pose proof (R_encode_blocks_copies (elems (R.Topics r)) pe2 (R.Version r))
    as [Hv Hok].
  by destruct (R.encode_blocks _ pe2 _) as [[cs pe'] err].
Qed.

End EncodeVersion.

(** ** Decoding: what a failed call and an empty count leave behind *)

Section DecodeLeftovers.
Context {D : Type} `{!packetDecoder D}.

Lemma R_decode_no_elements (r0 : R.t) (v : Z) (pd pd1 pd2 : D) c n :
  getNullableString pd = (pd1, c, None) ->
  getArrayLength pd1 = (pd2, n, None) ->
  n <= 0 ->
  R.decode r0 pd v = (R.mk v c (R.Topics r0), pd2, None).
Proof.
  intros Hc Hn Hle. unfold R.decode. rewrite Hc, Hn.
  by destruct (Z.ltb_spec 0 n); [lia|].
Qed.

Lemma T_decode_no_elements (x0 : T.t) (v : Z) (pd pd1 pd2 : D) s n :
  getString pd = (pd1, s, None) ->
  getArrayLength pd1 = (pd2, n, None) ->
  n <= 0 ->
  T.decode x0 pd v = (T.mk v s (T.Partitions x0), pd2, None).
Proof.
  intros Hc Hn Hle. unfold T.decode. rewrite Hc, Hn.
  by destruct (Z.ltb_spec 0 n); [lia|].
Qed.
End DecodeLeftovers.

(** ** Decoding: what a failed decode leaves in the receiver *)

Section DecodeFailedReceiver.
Context {D : Type} `{!packetDecoder D}.

Lemma T_decode_blocks_first_failure (v : Z) (k : nat) :
  forall (i : nat) (arr : list P.t) (pd : D) arr' pd' e,
    T.decode_blocks k i arr pd v = (arr', pd', Some e) ->
    exists (j : nat) pdj pfail,
      (j < k)%nat
      /\ T.decode_blocks j i arr pd v = (arr', pdj, None)
      /\ P.decode P.zero pdj v = (pfail, pd', Some e).
Proof.
  induction k as [|k IH]; intros i arr pd arr' pd' e Hrun; [done|].
  cbn [T.decode_blocks] in Hrun.
  destruct (P.decode P.zero pd v) as [[b pd1] [e1|]] eqn:Hb.
  - injection Hrun as <- <- <-. exists 0%nat, pd, b.
    split; [lia|]. by split.
  - apply IH in Hrun as (j & pdj & pf & Hj & Hpre & Hfail).
    exists (S j), pdj, pf. split; [lia|]. split; [|done].
    cbn [T.decode_blocks]. by rewrite Hb.
Qed.

Lemma R_decode_blocks_first_failure (v : Z) (k : nat) :
  forall (i : nat) (arr : list T.t) (pd : D) arr' pd' e,
    R.decode_blocks k i arr pd v = (arr', pd', Some e) ->
    exists (j : nat) pdj xfail,
      (j < k)%nat
      /\ R.decode_blocks j i arr pd v = (arr', pdj, None)
      /\ T.decode T.zero pdj v = (xfail, pd', Some e).
Proof.
  induction k as [|k IH]; intros i arr pd arr' pd' e Hrun; [done|].
  cbn [R.decode_blocks] in Hrun.
  destruct (T.decode T.zero pd v) as [[b pd1] [e1|]] eqn:Hb.
  - injection Hrun as <- <- <-. exists 0%nat, pd, b.
    split; [lia|]. by split.
  - apply IH in Hrun as (j & pdj & xf & Hj & Hpre & Hfail).
    exists (S j), pdj, xf. split; [lia|]. split; [|done].
    cbn [R.decode_blocks]. by rewrite Hb.
Qed.

(** [k] iterations that succeed store [k] decoded records at the indices
    from [i] on and leave every other entry as it was. *)
Lemma T_decode_blocks_prefix (v : Z) (k : nat) :
  forall (i : nat) (arr : list P.t) (pd : D) arr' pd',
    T.decode_blocks k i arr pd v = (arr', pd', None) ->
    (i + k <= length arr)%nat ->
    exists ps, length ps = k /\ Forall (P_versioned v) ps
      /\ arr' = take i arr ++ ps ++ drop (i + k) arr.
Proof.
  induction k as [|k IH]; intros i arr pd arr' pd' Hrun Hlen.
  - injection Hrun as <- _. exists []. rewrite Nat.add_0_r.
    cbn [app]. by rewrite take_drop.
  - cbn [T.decode_blocks] in Hrun.
    pose proof (P_decode_Version P.zero pd v) as Hv.
    destruct (P.decode P.zero pd v) as [[b pd1] [e1|]]; [done|].
    apply IH in Hrun as (ps & Hps & Hall & ->);
      [|rewrite length_insert; lia].
    exists (b :: ps). split; [simpl; lia|]. split; [by constructor|].
    rewrite (take_S_r _ _ b) by (apply list_lookup_insert_eq; lia).
    rewrite take_insert_ge by lia. rewrite drop_insert_lt by lia.
    rewrite <- app_assoc. cbn [app].
    by replace (S i + k)%nat with (i + S k)%nat by lia.
Qed.

Lemma R_decode_blocks_prefix (v : Z) (k : nat) :
  forall (i : nat) (arr : list T.t) (pd : D) arr' pd',
    R.decode_blocks k i arr pd v = (arr', pd', None) ->
    (i + k <= length arr)%nat ->
    exists ts, length ts = k /\ Forall (T_versioned v) ts
      /\ arr' = take i arr ++ ts ++ drop (i + k) arr.
Proof.
  induction k as [|k IH]; intros i arr pd arr' pd' Hrun Hlen.
  - injection Hrun as <- _. exists []. rewrite Nat.add_0_r.
    cbn [app]. by rewrite take_drop.
  - cbn [R.decode_blocks] in Hrun.
    destruct (T.decode T.zero pd v) as [[b pd1] [e1|]] eqn:Hb; [done|].
    apply T_decode_versioned in Hb; [|done].
    apply IH in Hrun as (ts & Hts & Hall & ->);
      [|rewrite length_insert; lia].
    exists (b :: ts). split; [simpl; lia|]. split; [by constructor|].
    rewrite (take_S_r _ _ b) by (apply list_lookup_insert_eq; lia).
    rewrite take_insert_ge by lia. rewrite drop_insert_lt by lia.
    rewrite <- app_assoc. cbn [app].
    by replace (S i + k)%nat with (i + S k)%nat by lia.
Qed.

Lemma T_decode_failed_receiver (x0 : T.t) (pd : D) (v : Z) x pd' e :
  T.decode x0 pd v = (x, pd', Some e) ->
  T_failed_receiver x0 pd v x pd' e.
Proof.
  unfold T.decode, T_failed_receiver. intros Hrun.
  destruct (getString pd) as [[pd1 s] [e1|]].
  { injection Hrun as <- <- <-. left. by exists s. }
  destruct (getArrayLength pd1) as [[pd2 n] [e1|]] eqn:Hn.
  { injection Hrun as <- <- <-. right. left. by exists s, pd1, n. }
  destruct (Z.ltb_spec 0 n); [|done]. cbn zeta in Hrun.
  change (T.Version (T.set_TopicName s (T.set_Version v x0))) with v in Hrun.
  destruct (T.decode_blocks _ _ _ _ _) as [[arr pd3] err] eqn:Hloop.
  injection Hrun as <- <- ->.
  apply T_decode_blocks_first_failure in Hloop
    as (j & pdj & pf & Hj & Hpre & Hfail).
  pose proof Hpre as Hpre'.
  apply T_decode_blocks_prefix in Hpre' as (ps & Hps & Hall & Harr);
    [|rewrite length_replicate; lia].
  rewrite take_0, drop_replicate in Harr. cbn [app plus] in Harr.
  subst arr j. right. right.
  by exists s, pd1, n, pd2, ps, pdj, pf.
Qed.

Lemma R_decode_failed_receiver (r0 : R.t) (pd : D) (v : Z) r pd' e :
  R.decode r0 pd v = (r, pd', Some e) ->
  R_failed_receiver r0 pd v r pd' e.
Proof.
  unfold R.decode, R_failed_receiver. intros Hrun.
  destruct (getNullableString pd) as [[pd1 c] [e1|]].
  { injection Hrun as <- <- <-. left. by exists c. }
  destruct (getArrayLength pd1) as [[pd2 n] [e1|]] eqn:Hn.
  { injection Hrun as <- <- <-. right. left. by exists c, pd1, n. }
  destruct (Z.ltb_spec 0 n); [|done]. cbn zeta in Hrun.
  change (R.Version (R.set_ClusterID c (R.set_Version v r0))) with v in Hrun.
  destruct (R.decode_blocks _ _ _ _ _) as [[arr pd3] err] eqn:Hloop.
  injection Hrun as <- <- ->.
  apply R_decode_blocks_first_failure in Hloop
    as (j & pdj & xf & Hj & Hpre & Hfail).
  pose proof Hpre as Hpre'.
  apply R_decode_blocks_prefix in Hpre' as (ts & Hts & Hall & Harr);
    [|rewrite length_replicate; lia].
  rewrite take_0, drop_replicate in Harr. cbn [app plus] in Harr.
  subst arr j. right. right.
  by exists c, pd1, n, pd2, ts, pdj, xf.
Qed.
End DecodeFailedReceiver.

(** * The claims *)

(** C2.  Encoding a BeginQuorumEpochRequest performs, on any encoder, exactly
    the writes of the body layout of version 0, in that order: the nullable
    cluster id, the topic count, and per topic the name, the partition count
    and per partition the index, the leader id and the leader epoch; so do the
    topic and partition encodes for their part of the layout.  A write that
    fails ends both. *)
Theorem encode_emits_layout {E : Type} `{!packetEncoder E}
  (r : R.t) (x : T.t) (p : P.t) (pe : E) (v : Z) :
  out (R.encode r pe) = run_ops pe (layout_request r)
  /\ out (T.encode x pe v) = run_ops pe (layout_topic x)
  /\ out (P.encode p pe v) = run_ops pe (layout_partition p).
Proof.
  split; [apply R_encode_layout|].
  split; [apply T_encode_layout | apply P_encode_layout].
Qed.

(** C3.  A decode with version [v] that succeeds, into a receiver that holds
    no topic list yet, leaves [v] in the top-level Version field, in the
    Version field of every topic record and in the Version field of every
    partition record. *)
Theorem decode_propagates_version {D : Type} `{!packetDecoder D}
  (r0 : R.t) (pd : D) (v : Z) (r : R.t) (pd' : D) :
  R.Topics r0 = None ->
  R.decode r0 pd v = (r, pd', None) ->
  R_versioned v r.
Proof. apply R_decode_versioned. Qed.

Lemma decode_propagates_version_witness :
  R.Topics R.zero = None
  /\ R.decode R.zero frameA 7
     = (R.mk 7 None (Some [T.mk 7 "orders" (Some [P.mk 7 3 7 42])]), [], None)
  /\ R_versioned 7
       (R.mk 7 None (Some [T.mk 7 "orders" (Some [P.mk 7 3 7 42])])).
Proof.
  split; [reflexivity|]. split; [reflexivity|].
  apply (decode_propagates_version R.zero frameA 7 _ []); reflexivity.
Defined.

(** C7.  When the decode of a partition record fails, after any number of
    topics and partitions that decoded, the enclosing topic decode and the
    message decode return that failure, and the decoder is left in the state
    in which the failing partition decode left it: nothing is read after the
    failure, however many partitions and topics were announced. *)
Theorem decode_short_circuits {D : Type} `{!packetDecoder D}
  (r0 : R.t) (v : Z) (pd0 pd1 pd2 pdT pdN pdP pdJ pd' : D)
  (c : option string) (nT nP : Z) (jT jP : nat)
  (arrT : list T.t) (arrP : list P.t) (name : string) (b : P.t) (e : error) :
  getNullableString pd0 = (pd1, c, None) ->
  getArrayLength pd1 = (pd2, nT, None) ->
  (jT < Z.to_nat nT)%nat ->
  R.decode_blocks jT 0 (replicate (Z.to_nat nT) T.zero) pd2 v
    = (arrT, pdT, None) ->
  getString pdT = (pdN, name, None) ->
  getArrayLength pdN = (pdP, nP, None) ->
  (jP < Z.to_nat nP)%nat ->
  T.decode_blocks jP 0 (replicate (Z.to_nat nP) P.zero) pdP v
    = (arrP, pdJ, None) ->
  P.decode P.zero pdJ v = (b, pd', Some e) ->
  T.decode T.zero pdT v = (T.mk v name (Some arrP), pd', Some e)
  /\ R.decode r0 pd0 v = (R.mk v c (Some arrT), pd', Some e).
Proof.
  intros Hc HnT HjT HpreT Hname HnP HjP HpreP Hfail.
  assert (HT : T.decode T.zero pdT v = (T.mk v name (Some arrP), pd', Some e)).
  { eapply T_decode_fail_in_blocks; [done|done|lia|].
    eapply T_decode_blocks_fail; done. }
  split; [done|].
  eapply R_decode_fail_in_blocks; [done|done|lia|].
  eapply R_decode_blocks_fail; done.
Qed.

Lemma decode_short_circuits_witness :
  R.decode R.zero frame_truncated 0
  = (R.mk 0 (Some "c") (Some [topic_orders; T.zero]), [],
     Some ErrInsufficientData).
Proof.
  refine (proj2 (decode_short_circuits (D := realDecoder) R.zero 0
    frame_truncated (drop 3 frame_truncated) (drop 7 frame_truncated)
    (drop 31 frame_truncated) (drop 34 frame_truncated)
    (drop 38 frame_truncated) (drop 38 frame_truncated) []
    (Some "c") 2 1 1 0 [topic_orders; T.zero] [P.zero] "t" (P.mk 0 0 0 0)
    ErrInsufficientData _ _ _ _ _ _ _ _ _)); try reflexivity.
  - vm_compute. lia.
  - vm_compute. lia.
Defined.



(** C5, as the claim states it, fails: a topic list and a partition list that
    are present with zero elements come back absent. *)
Lemma empty_list_comes_back_absent_counterexample :
  R.encode request_topic_no_partitions empty_buffer
  = (request_topic_no_partitions,
     op_bytes (OpNullableString (Some "c")) ++ be32 1
     ++ op_bytes (OpString "t") ++ be32 0, None)
  /\ R.decode R.zero
       (op_bytes (OpNullableString (Some "c")) ++ be32 1
        ++ op_bytes (OpString "t") ++ be32 0) 0
     = (R.mk 0 (Some "c") (Some [T.mk 0 "t" None]), [], None)
  /\ T.Partitions topic_no_partitions = Some []
  /\ R.encode scenarioB empty_buffer = (scenarioB, frame_count_0, None)
  /\ R.decode R.zero frame_count_0 0 = (R.mk 0 None None, [], None)
  /\ R.Topics scenarioB = Some [].
Proof. repeat split; reflexivity. Qed.

(** C5, amended.  The lists of this message are not nullable on the wire.
    Encode writes the length of the list as the count, which is 0 for an
    absent list and for a present list without elements alike, so the two are
    written by the same operations and the null sentinel is never written.
    Decode stores a list only when the count is positive: a count of 0, and
    the sentinel -1 as well, leave the list of the receiver as it was, which
    is absent in a fresh receiver. *)
Theorem absent_and_empty_lists_coincide
  {E D : Type} `{!packetEncoder E} `{!packetDecoder D}
  (r r0 : R.t) (x x0 : T.t) (pe : E) (v : Z)
  (pd pd1 pd2 qd qd1 qd2 : D) (c : option string) (s : string) (n m : Z) :
  getNullableString pd = (pd1, c, None) ->
  getArrayLength pd1 = (pd2, n, None) ->
  n <= 0 ->
  getString qd = (qd1, s, None) ->
  getArrayLength qd1 = (qd2, m, None) ->
  m <= 0 ->
  out (R.encode (R.set_Topics None r) pe)
    = run_ops pe [OpNullableString (R.ClusterID r); OpArrayLength 0]
  /\ out (R.encode (R.set_Topics (Some []) r) pe)
    = run_ops pe [OpNullableString (R.ClusterID r); OpArrayLength 0]
  /\ out (T.encode (T.set_Partitions None x) pe v)
    = run_ops pe [OpString (T.TopicName x); OpArrayLength 0]
  /\ out (T.encode (T.set_Partitions (Some []) x) pe v)
    = run_ops pe [OpString (T.TopicName x); OpArrayLength 0]
  /\ R.decode r0 pd v = (R.mk v c (R.Topics r0), pd2, None)
  /\ T.decode x0 qd v = (T.mk v s (T.Partitions x0), qd2, None).
Proof.
  intros Hc Hn Hle Hs Hm Hle'.
  rewrite !R_encode_layout, !T_encode_layout.
  repeat (split; [reflexivity|]).
  split; [by eapply R_decode_no_elements | by eapply T_decode_no_elements].
Qed.

Lemma absent_and_empty_lists_coincide_witness :
  R.decode R.zero frame_count_null 0 = (R.mk 0 None None, [], None)
  /\ T.decode T.zero frame_topic_count_0 0 = (T.mk 0 "t" None, [], None).
Proof.
  refine (proj2 (proj2 (proj2 (proj2
    (absent_and_empty_lists_coincide (E := realEncoder) (D := realDecoder)
       R.zero R.zero T.zero T.zero empty_buffer 0
       frame_count_null (drop 2 frame_count_null) [] 
       frame_topic_count_0 (drop 3 frame_topic_count_0) []
       None "t" (-1) 0 _ _ _ _ _ _))))); try reflexivity.
  all: lia.
Defined.




(** C1, as the claim states it, fails for a list that is present without
    elements: the message of scenario B is encoded as a count of 0 and decoded
    with an absent topic list. *)
Lemma roundtrip_empty_topic_list_counterexample :
  R.encode scenarioB empty_buffer = (scenarioB, frame_count_0, None)
  /\ R.decode R.zero frame_count_0 0 = (R.mk 0 None None, [], None)
  /\ R.mk 0 None None <> scenarioB.
Proof. split; [reflexivity|]. split; [reflexivity | discriminate]. Qed.

(** C1, amended.  For the partition record, the topic record and the request,
    and every version [v] (0 being the supported one): encoding a legal
    message at [v] succeeds, and decoding the bytes written at [v] into a
    fresh receiver yields the message itself and consumes all the bytes.
    Legal means that every Version field holds [v], integers and lengths fit
    their prefixes, the cluster id is absent or present, and each list is
    absent or has at least one element. *)
Theorem roundtrip_legal (v : Z) (p : P.t) (x : T.t) (r : R.t) :
  P_legal v p -> T_legal v x -> R_legal v r ->
  (P.encode p empty_buffer v = (p, wire_partition p, None)
   /\ P.decode P.zero (wire_partition p : realDecoder) v = (p, [], None))
  /\ (T.encode x empty_buffer v = (x, wire_topic x, None)
      /\ T.decode T.zero (wire_topic x : realDecoder) v = (x, [], None))
  /\ (R.encode r empty_buffer = (r, wire_request r, None)
      /\ R.decode R.zero (wire_request r : realDecoder) v = (r, [], None)).
Proof.
  intros Hp Hx Hr. repeat split.
  - by rewrite (P_encode_wire v).
  - pose proof (P_decode_wire v p P.zero [] Hp) as H.
    by rewrite app_nil_r in H.
  - by rewrite (T_encode_wire v).
  - pose proof (T_decode_wire v x T.zero [] Hx eq_refl) as H.
    by rewrite app_nil_r in H.
  - by rewrite (R_encode_wire v).
  - pose proof (R_decode_wire v r R.zero [] Hr eq_refl) as H.
    by rewrite app_nil_r in H.
Qed.

Lemma roundtrip_legal_witness :
  R.encode scenarioA empty_buffer = (scenarioA, frameA, None)
  /\ R.decode R.zero frameA 0 = (scenarioA, [], None).
Proof.
  assert (Hp : P_legal 0 partition_3_7_42).
  { unfold P_legal, int32_range. simpl. lia. }
  assert (Hx : T_legal 0 topic_orders).
  { split; [reflexivity|]. split; [vm_compute; discriminate|].
    split; [discriminate|]. split; [vm_compute; discriminate|].
    by repeat constructor. }
  assert (Hr : R_legal 0 scenarioA).
  { split; [reflexivity|]. split; [exact I|].
    split; [discriminate|]. split; [vm_compute; discriminate|].
    by repeat constructor. }
  exact (proj2 (proj2 (roundtrip_legal 0 partition_3_7_42 topic_orders
                         scenarioA Hp Hx Hr))).
Defined.

(** ** The security-protocol parser *)

(** C9.  ParseSecurityProtocol depends on its argument through its upper-case
    form only.  It returns a protocol with [true] exactly when the upper-case
    form is the name of that protocol, one of PLAINTEXT, SSL, SASL_PLAINTEXT
    and SASL_SSL, and it returns (UNDEFINED, false) exactly when the
    upper-case form is none of the four.  "ssl", "SSL" and "Ssl" give SSL, and
    "bogus" gives (UNDEFINED, false). *)
Theorem ParseSecurityProtocol_case_insensitive
  (upper_unicode : string -> string) (s : string) :
  (forall p : SecurityProtocol,
     ParseSecurityProtocol upper_unicode s = (p, true)
     <-> nth_error scheme_names (Z.to_nat (SecurityProtocol_value p))
         = Some (strings.ToUpper upper_unicode s))
  /\ (ParseSecurityProtocol upper_unicode s = (UNDEFINED, false)
      <-> ~ In (strings.ToUpper upper_unicode s) scheme_names)
  /\ ParseSecurityProtocol upper_unicode "ssl" = (SSL, true)
  /\ ParseSecurityProtocol upper_unicode "SSL" = (SSL, true)
  /\ ParseSecurityProtocol upper_unicode "Ssl" = (SSL, true)
  /\ ParseSecurityProtocol upper_unicode "sasl_Plaintext"
     = (SASL_PLAINTEXT, true)
  /\ ParseSecurityProtocol upper_unicode "bogus" = (UNDEFINED, false).
Proof.
  split; [|split; [|by repeat split]].
  - intros p. unfold ParseSecurityProtocol.
    destruct (String.eqb_spec (strings.ToUpper upper_unicode s) "PLAINTEXT")
      as [->|H1]; [by destruct p|].
    destruct (String.eqb_spec (strings.ToUpper upper_unicode s) "SSL")
      as [->|H2]; [by destruct p|].
    destruct (String.eqb_spec (strings.ToUpper upper_unicode s)
                "SASL_PLAINTEXT") as [->|H3]; [by destruct p|].
    destruct (String.eqb_spec (strings.ToUpper upper_unicode s) "SASL_SSL")
      as [->|H4]; [by destruct p|].
    split; [done|]. destruct p; simpl; intros [= Hu]; by subst.
  - unfold ParseSecurityProtocol.
    destruct (String.eqb_spec (strings.ToUpper upper_unicode s) "PLAINTEXT")
      as [->|H1]; [split; [done|intros Hn; destruct Hn; simpl; tauto]|].
    destruct (String.eqb_spec (strings.ToUpper upper_unicode s) "SSL")
      as [->|H2]; [split; [done|intros Hn; destruct Hn; simpl; tauto]|].
    destruct (String.eqb_spec (strings.ToUpper upper_unicode s)
                "SASL_PLAINTEXT")
      as [->|H3]; [split; [done|intros Hn; destruct Hn; simpl; tauto]|].
    destruct (String.eqb_spec (strings.ToUpper upper_unicode s) "SASL_SSL")
      as [->|H4]; [split; [done|intros Hn; destruct Hn; simpl; tauto]|].
    split; [|done]. intros _. simpl. intros [?|[?|[?|[?|[]]]]]; by subst.
Qed.

(** ** The advertised listeners *)

Section AdvertisedListeners.
Variable fold_unicode : string -> string -> bool.

Lemma refused_host_spec (l : Listener) :
  refused_host fold_unicode l = true
  <-> strings.EqualFold fold_unicode (Host l) "0.0.0.0" = true
      \/ Host l = "".
Proof.
  unfold refused_host. rewrite orb_true_iff.
  by destruct (String.eqb_spec (Host l) ""); intuition.
Qed.

Lemma validateAdvertisedListeners_loop_error (ls : list Listener) :
  validateAdvertisedListeners_loop fold_unicode ls <> None
  <-> Exists (fun l => refused_host fold_unicode l = true) ls.
Proof.
  induction ls as [|l ls IH]; simpl.
  - split; [done | intros H; inversion H].
  - destruct (refused_host fold_unicode l) eqn:Hl.
    + split; [by left | done].
    + rewrite IH. split; [by right|].
      intros H. inversion H as [? ? Hx|]; subst; [congruence | done].
Qed.

(** "0.0.0.0" holds no letter, so on a host made of ASCII bytes the
    case-insensitive comparison is plain equality. *)
Lemma EqualFold_no_letters (t : string) :
  forallb (fun c => (N_of_ascii c <? 65)%N) (String.list_ascii_of_string t)
    = true ->
  forall s : string,
    strings.isASCII s = true ->
    strings.EqualFold fold_unicode s t = String.eqb s t.
Proof.
  unfold strings.isASCII.
  induction t as [|tr t IH]; intros Ht [|sr s] Hs; try done.
  cbn [String.list_ascii_of_string forallb] in Ht, Hs.
  apply andb_true_iff in Ht as [Htr Ht], Hs as [Hsr Hs].
  apply N.ltb_lt in Htr. apply negb_true_iff in Hsr.
  cbn [strings.EqualFold String.eqb]. rewrite Hsr.
  assert (Hna : strings.nonASCII tr = false).
  { unfold strings.nonASCII. apply N.leb_gt. lia. }
  rewrite Hna. cbn [orb]. rewrite (Ascii.eqb_sym tr sr).
  destruct (Ascii.eqb sr tr); [by apply IH|].
  destruct (N.leb_spec 65 (N.min (N_of_ascii sr) (N_of_ascii tr)));
    [lia | done].
Qed.
End AdvertisedListeners.

(** C10.  validateAdvertisedListeners returns an error exactly when some
    advertised listener has a host that equals "0.0.0.0" under the
    case-insensitive comparison or an empty host; it returns no error exactly
    when every advertised listener has a host that is not empty and differs
    from "0.0.0.0"; and in both cases the broker is left as it was. *)
Theorem validateAdvertisedListeners_iff
  (fold_unicode : string -> string -> bool) (b : Broker) :
  (validateAdvertisedListeners fold_unicode b).1 = b
  /\ ((validateAdvertisedListeners fold_unicode b).2 <> None
      <-> Exists (fun l =>
            strings.EqualFold fold_unicode (Host l) "0.0.0.0" = true
            \/ Host l = "")
          (elems (AdvertisedListeners b)))
  /\ ((validateAdvertisedListeners fold_unicode b).2 = None
      <-> Forall (fun l =>
            strings.EqualFold fold_unicode (Host l) "0.0.0.0" = false
            /\ Host l <> "")
          (elems (AdvertisedListeners b))).
Proof.
  split; [done|]. cbn [validateAdvertisedListeners snd].
  assert (Hex : validateAdvertisedListeners_loop fold_unicode
                  (elems (AdvertisedListeners b)) <> None
                <-> Exists (fun l =>
                      strings.EqualFold fold_unicode (Host l) "0.0.0.0" = true
                      \/ Host l = "")
                    (elems (AdvertisedListeners b))).
  { rewrite validateAdvertisedListeners_loop_error.
    rewrite !Exists_exists.
    split; intros (l & Hin & Hl); exists l; (split; [done|]);
      by apply refused_host_spec. }
  split; [exact Hex|].
  destruct (validateAdvertisedListeners_loop fold_unicode
              (elems (AdvertisedListeners b))) as [e|].
  - split; [done|]. intros Hall. exfalso.
    destruct Hex as [Hex _].
    specialize (Hex ltac:(done)).
    apply Exists_exists in Hex as (l & Hin & Hl).
    rewrite Forall_forall in Hall. destruct (Hall l Hin) as [Hf Hne].
    destruct Hl as [Ht|He]; [congruence | done].
  - split; [|done]. intros _. apply Forall_forall. intros l Hin.
    destruct Hex as [_ Hex].
    split.
    + destruct (strings.EqualFold fold_unicode (Host l) "0.0.0.0") eqn:Hf;
        [|done].
      exfalso. apply Hex; [|done]. apply Exists_exists. eauto.
    + intros He. apply Hex; [|done]. apply Exists_exists. eauto.
Qed.

(** The tests of the repository: a listener on 127.0.0.1 or on example.com is
    accepted, one on 0.0.0.0 or with an empty host is refused. *)
Example validateAdvertisedListeners_tests (fold_unicode : string -> string -> bool) :
  (validateAdvertisedListeners fold_unicode (broker_with ["127.0.0.1"])).2
    = None
  /\ (validateAdvertisedListeners fold_unicode
        (broker_with ["example.com"; "example.com"])).2 = None
  /\ (validateAdvertisedListeners fold_unicode (broker_with ["0.0.0.0"])).2
     = Some (Errorf "advertising listener on 0.0.0.0 address is not allowed for listener client")
  /\ (validateAdvertisedListeners fold_unicode (broker_with [""])).2
     = Some (Errorf "advertising listener on 0.0.0.0 address is not allowed for listener client").
Proof. repeat split. Qed.

(** * Further properties of the codec *)

(** ** Encoding on the cursor of the specification *)

Section RealEncoding.

Lemma real_put_op_fits (pe : realEncoder) (op : wire_op) :
  op_fits op -> put_op pe op = (pe ++ op_bytes op, None).
Proof.
  destruct op as [x|s|[s|]|n]; simpl; intros Hop; try done.
  - unfold realEncoder.putString.
    destruct (Z.ltb_spec 32767 (strlen s)); [lia|].
    unfold realEncoder.putInt16. by rewrite <- app_assoc.
  - unfold realEncoder.putString.
    destruct (Z.ltb_spec 32767 (strlen s)); [lia|].
    unfold realEncoder.putInt16. by rewrite <- app_assoc.
  - unfold realEncoder.putArrayLength.
    by destruct (Z.ltb_spec 2147483647 n); [lia|].
Qed.

Lemma real_put_op_too_large (pe : realEncoder) (op : wire_op) :
  ~ op_fits op -> put_op pe op = (pe, Some ErrEncodeValueTooLarge).
Proof.
  destruct op as [x|s|[s|]|n]; simpl; intros Hop; try done.
  - unfold realEncoder.putString.
    by destruct (Z.ltb_spec 32767 (strlen s)); [|lia].
  - unfold realEncoder.putString.
    by destruct (Z.ltb_spec 32767 (strlen s)); [|lia].
  - unfold realEncoder.putArrayLength.
    by destruct (Z.ltb_spec 2147483647 n); [|lia].
Qed.

Lemma op_fits_dec (op : wire_op) : op_fits op \/ ~ op_fits op.
Proof. destruct op as [x|s|[s|]|n]; simpl; try tauto; lia. Qed.

(** The writes of a list of operations: all of them when each fits, and
    otherwise those before the first that does not fit. *)
Lemma real_run_ops_outcome (ops : list wire_op) (pe : realEncoder) :
  (Forall op_fits ops
   /\ run_ops pe ops = (pe ++ flat_map op_bytes ops, None))
  \/ (~ Forall op_fits ops
      /\ exists done_ops bad rest,
           ops = done_ops ++ bad :: rest
           /\ Forall op_fits done_ops
           /\ ~ op_fits bad
           /\ run_ops pe ops
              = (pe ++ flat_map op_bytes done_ops,
                 Some ErrEncodeValueTooLarge)).
Proof.
  revert pe. induction ops as [|op ops IH]; intros pe.
  - left. split; [constructor|]. simpl. by rewrite app_nil_r.
  - destruct (op_fits_dec op) as [Hop|Hop].
    + cbn [run_ops]. rewrite real_put_op_fits by done.
      destruct (IH (pe ++ op_bytes op))
        as [[Hall Hrun]|(Hn & d & bad & r & -> & Hd & Hbad & Hrun)].
      * left. split; [by constructor|].
        rewrite Hrun. cbn [flat_map]. by rewrite app_assoc.
      * right. split; [by intros [_ H]%Forall_cons|].
        exists (op :: d), bad, r. split; [done|].
        split; [by constructor|]. split; [done|].
        rewrite Hrun. cbn [flat_map]. by rewrite app_assoc.
    + right. split; [by intros [H _]%Forall_cons|].
      exists [], op, ops. split; [done|]. split; [constructor|].
      split; [done|].
      cbn [run_ops]. rewrite real_put_op_too_large by done.
      simpl. by rewrite app_nil_r.
Qed.

Lemma P_layout_fits (p : P.t) : Forall op_fits (layout_partition p).
Proof. unfold layout_partition. by repeat constructor. Qed.

Lemma partitions_layout_fits (ps : list P.t) :
  Forall op_fits (flat_map layout_partition ps).
Proof.
  induction ps as [|p ps IH]; simpl; [constructor|].
  by repeat constructor.
Qed.

Lemma T_layout_fits (x : T.t) :
  Forall op_fits (layout_topic x) <-> T_encodable x.
Proof.
  unfold layout_topic, T_encodable. split.
  - intros H. apply Forall_cons in H as [H1 H]. by apply Forall_cons in H as [H2 _].
  - intros [H1 H2]. constructor; [done|]. constructor; [done|].
    apply partitions_layout_fits.
Qed.

Lemma topics_layout_fits (ts : list T.t) :
  Forall op_fits (flat_map layout_topic ts) <-> Forall T_encodable ts.
Proof.
  induction ts as [|x ts IH]; cbn [flat_map].
  - split; constructor.
  - rewrite Forall_app, Forall_cons, IH, T_layout_fits. tauto.
Qed.

Lemma R_layout_fits (r : R.t) :
  Forall op_fits (layout_request r) <-> R_encodable r.
Proof.
  unfold layout_request, R_encodable.
  rewrite !Forall_cons, topics_layout_fits. simpl. tauto.
Qed.

Lemma length_be16 (x : Z) : length (be16 x) = 2%nat.
Proof. done. Qed.

Lemma length_be32 (x : Z) : length (be32 x) = 4%nat.
Proof. done. Qed.

Lemma length_wire_partitions (ps : list P.t) :
  Z.of_nat (length (flat_map wire_partition ps)) = 12 * Z.of_nat (length ps).
Proof.
  induction ps as [|p ps IH]; [done|].
  cbn [flat_map]. rewrite length_app. cbn [length].
  change (length (wire_partition p)) with 12%nat. lia.
Qed.

Lemma length_wire_topic (x : T.t) :
  Z.of_nat (length (wire_topic x)) = topic_size x.
Proof.
  rewrite wire_topic_eq. cbn [op_bytes]. rewrite !length_app.
  rewrite length_be16, length_be32. unfold topic_size, strlen.
  pose proof (length_wire_partitions (elems (T.Partitions x))) as H.
  unfold len. lia.
Qed.

Lemma length_wire_topics (ts : list T.t) :
  Z.of_nat (length (flat_map wire_topic ts)) = topics_size ts.
Proof.
  induction ts as [|x ts IH]; [done|].
  cbn [flat_map topics_size]. rewrite length_app.
  pose proof (length_wire_topic x). lia.
Qed.

Lemma length_wire_request (r : R.t) :
  Z.of_nat (length (wire_request r)) = request_size r.
Proof.
  rewrite wire_request_eq. rewrite !length_app, length_be32.
  pose proof (length_wire_topics (elems (R.Topics r))) as H.
  unfold request_size, nullable_size.
  destruct (R.ClusterID r) as [c|]; cbn [op_bytes].
  - rewrite length_app, length_be16. unfold strlen. lia.
  - rewrite length_be16. lia.
Qed.
End RealEncoding.

(** X1.  On the cursor of the specification, encoding a request succeeds
    exactly when the cluster id and every topic name fit the 16-bit length
    prefix and the topic list and every partition list fit the 32-bit count;
    the only error encode can return is [ErrEncodeValueTooLarge]. *)
Theorem encode_succeeds_iff_fits (r : R.t) (pe : realEncoder) :
  ((R.encode r pe).2 = None <-> R_encodable r)
  /\ ((R.encode r pe).2 = None
      \/ (R.encode r pe).2 = Some ErrEncodeValueTooLarge).
Proof.
  pose proof (R_encode_layout r pe) as Hout. unfold out in Hout.
  rewrite <- R_layout_fits.
  destruct (real_run_ops_outcome (layout_request r) pe)
    as [[Hall Hrun]|(Hn & d & bad & rest & _ & _ & _ & Hrun)];
    rewrite Hrun in Hout; injection Hout as _ ->.
  - split; [done | by left].
  - split; [done | by right].
Qed.

(** X2.  Encoding only appends and never rolls back.  Either every write of
    the body layout fits, and encode returns no error with the buffer it was
    given followed by the bytes of the whole layout; or the layout is
    [done_ops ++ bad :: rest] where every write of [done_ops] fits and [bad]
    is the first that does not, and encode returns [ErrEncodeValueTooLarge]
    with the buffer it was given followed by the bytes of all of [done_ops]:
    everything that precedes the failing field stays written, and nothing of
    the failing field or after it is.  The message itself is left as it
    was. *)
Theorem encode_only_appends (r : R.t) (pe : realEncoder) :
  (Forall op_fits (layout_request r)
   /\ R.encode r pe = (r, pe ++ flat_map op_bytes (layout_request r), None))
  \/ (exists done_ops bad rest,
        layout_request r = done_ops ++ bad :: rest
        /\ Forall op_fits done_ops
        /\ ~ op_fits bad
        /\ R.encode r pe
           = (r, pe ++ flat_map op_bytes done_ops,
              Some ErrEncodeValueTooLarge)).
Proof.
  pose proof (R_encode_receiver r pe) as Hr.
  pose proof (R_encode_layout r pe) as Hout. unfold out in Hout.
  destruct (R.encode r pe) as [[r' buf] err]. cbn [fst snd] in Hr, Hout.
  subst r'.
  destruct (real_run_ops_outcome (layout_request r) pe)
    as [[Hall Hrun]|(Hn & d & bad & rest & Heq & Hd & Hbad & Hrun)];
    rewrite Hrun in Hout; injection Hout as -> ->.
  - by left.
  - right. by exists d, bad, rest.
Qed.

(** X3.  The number of bytes a successful encode writes: 2 for the cluster id
    prefix plus its length when present, 4 for the topic count, and per topic
    2 plus the length of its name, 4 for the partition count and 12 per
    partition. *)
Theorem encode_size (r : R.t) (pe : realEncoder) :
  R_encodable r ->
  (R.encode r pe).2 = None
  /\ Z.of_nat (length (R.encode r pe).1.2)
     = Z.of_nat (length pe) + request_size r.
Proof.
  intros Hr. pose proof (R_encode_layout r pe) as Hout. unfold out in Hout.
  apply R_layout_fits in Hr.
  destruct (real_run_ops_outcome (layout_request r) pe)
    as [[Hall Hrun]|[Hn _]]; [|done].
  rewrite Hrun in Hout.
  pose proof (f_equal fst Hout) as Hb. pose proof (f_equal snd Hout) as He.
  cbn [fst snd] in Hb, He. split; [done|].
  rewrite Hb. fold (wire_request r).
  pose proof (length_wire_request r) as Hlen.
  rewrite length_app. lia.
Qed.

Lemma encode_size_witness :
  R_encodable scenarioA
  /\ (R.encode scenarioA empty_buffer).2 = None
  /\ Z.of_nat (length (R.encode scenarioA empty_buffer).1.2) = 0 + 30.
Proof.
  assert (Hr : R_encodable scenarioA).
  { split; [exact I|]. split; [vm_compute; discriminate|].
    repeat constructor; vm_compute; discriminate. }
  split; [exact Hr|]. exact (encode_size scenarioA empty_buffer Hr).
Defined.

(** X4.  Messages written one after the other into one buffer are read back
    one after the other: the second encode leaves the bytes of the first in
    place, the first decode stops exactly where the second message starts, and
    what follows the second message is left unread. *)
Theorem decode_back_to_back (v : Z) (r1 r2 : R.t) (rest : list byte) :
  R_legal v r1 -> R_legal v r2 ->
  (R.encode r2 (R.encode r1 empty_buffer).1.2).1.2
    = wire_request r1 ++ wire_request r2
  /\ R.decode R.zero (wire_request r1 ++ wire_request r2 ++ rest : realDecoder) v
     = (r1, wire_request r2 ++ rest, None)
  /\ R.decode R.zero (wire_request r2 ++ rest : realDecoder) v
     = (r2, rest, None).
Proof.
  intros H1 H2. split; [|split].
  - rewrite (R_encode_wire v r1) by done. cbn [fst snd].
    by rewrite (R_encode_wire v r2).
  - by apply R_decode_wire.
  - by apply R_decode_wire.
Qed.

Lemma decode_back_to_back_witness :
  R.decode R.zero (frameA ++ frameA ++ [x00] : realDecoder) 0
  = (scenarioA, frameA ++ [x00], None).
Proof.
  assert (Hr : R_legal 0 scenarioA).
  { split; [reflexivity|]. split; [exact I|].
    split; [discriminate|]. split; [vm_compute; discriminate|].
    repeat constructor; try discriminate; try (vm_compute; discriminate);
      unfold int32_range; simpl; lia. }
  exact (proj1 (proj2 (decode_back_to_back 0 scenarioA scenarioA [x00] Hr Hr))).
Defined.

(** X5.  The encoding of legal messages is prefix-free: if the bytes of one
    message followed by anything equal the bytes of another followed by
    anything, the two messages are the same and so is what follows. *)
Theorem encoding_prefix_free (v : Z) (r1 r2 : R.t) (rest1 rest2 : list byte) :
  R_legal v r1 -> R_legal v r2 ->
  wire_request r1 ++ rest1 = wire_request r2 ++ rest2 ->
  r1 = r2 /\ rest1 = rest2.
Proof.
  intros H1 H2 Heq.
  pose proof (R_decode_wire v r1 R.zero rest1 H1 eq_refl) as D1.
  pose proof (R_decode_wire v r2 R.zero rest2 H2 eq_refl) as D2.
  rewrite Heq in D1. rewrite D1 in D2. by injection D2 as -> ->.
Qed.

Lemma encoding_prefix_free_witness :
  scenarioA = scenarioA /\ [x00] = [x00].
Proof.
  assert (Hr : R_legal 0 scenarioA).
  { split; [reflexivity|]. split; [exact I|].
    split; [discriminate|]. split; [vm_compute; discriminate|].
    repeat constructor; try discriminate; try (vm_compute; discriminate);
      unfold int32_range; simpl; lia. }
  exact (encoding_prefix_free 0 scenarioA scenarioA [x00] [x00] Hr Hr eq_refl).
Defined.

(** ** Decoding on any decoder: list sizes and the role of the version *)

Section DecodeGeneric.
Context {D : Type} `{!packetDecoder D}.

Lemma T_decode_blocks_length (v : Z) (k : nat) :
  forall (i : nat) (arr : list P.t) (pd : D),
    length (T.decode_blocks k i arr pd v).1.1 = length arr.
Proof.
  induction k as [|k IH]; intros i arr pd; [done|].
  cbn [T.decode_blocks].
  destruct (P.decode P.zero pd v) as [[b pd1] [e|]]; [done|].
  by rewrite IH, length_insert.
Qed.

Lemma R_decode_blocks_length (v : Z) (k : nat) :
  forall (i : nat) (arr : list T.t) (pd : D),
    length (R.decode_blocks k i arr pd v).1.1 = length arr.
Proof.
  induction k as [|k IH]; intros i arr pd; [done|].
  cbn [R.decode_blocks].
  destruct (T.decode T.zero pd v) as [[b pd1] [e|]]; [done|].
  by rewrite IH, length_insert.
Qed.

Lemma P_decode_unversioned (p0 : P.t) (pd : D) (v v' : Z) :
  (P.decode p0 pd v).2 = (P.decode p0 pd v').2
  /\ (P.decode p0 pd v).1.2 = (P.decode p0 pd v').1.2
  /\ P_unversioned (P.decode p0 pd v).1.1
     = P_unversioned (P.decode p0 pd v').1.1.
Proof.
  unfold P.decode.
  destruct (getInt32 pd) as [[pd1 x1] [e|]]; [done|].
  destruct (getInt32 pd1) as [[pd2 x2] [e|]]; [done|].
  by destruct (getInt32 pd2) as [[pd3 x3] [e|]].
Qed.

Lemma T_decode_blocks_unversioned (v v' : Z) (k : nat) :
  forall (i : nat) (arr arr' : list P.t) (pd : D),
    (P_unversioned <$> arr) = (P_unversioned <$> arr') ->
    (T.decode_blocks k i arr pd v).2 = (T.decode_blocks k i arr' pd v').2
    /\ (T.decode_blocks k i arr pd v).1.2
       = (T.decode_blocks k i arr' pd v').1.2
    /\ P_unversioned <$> (T.decode_blocks k i arr pd v).1.1
       = P_unversioned <$> (T.decode_blocks k i arr' pd v').1.1.
Proof.
  induction k as [|k IH]; intros i arr arr' pd Harr; [done|].
  cbn [T.decode_blocks].
  destruct (P_decode_unversioned P.zero pd v v') as (He & Hd & Hp).
  destruct (P.decode P.zero pd v) as [[b pd1] e1],
           (P.decode P.zero pd v') as [[b' pd1'] e1'].
  cbn [fst snd] in He, Hd, Hp. subst e1' pd1'.
  destruct e1 as [e|]; [done|].
  apply IH. by rewrite !list_fmap_insert, Hp, Harr.
Qed.

Lemma T_decode_unversioned (x0 : T.t) (pd : D) (v v' : Z) :
  (T.decode x0 pd v).2 = (T.decode x0 pd v').2
  /\ (T.decode x0 pd v).1.2 = (T.decode x0 pd v').1.2
  /\ T_unversioned (T.decode x0 pd v).1.1
     = T_unversioned (T.decode x0 pd v').1.1.
Proof.
  unfold T.decode.
  destruct (getString pd) as [[pd1 s] [e|]]; [done|].
  destruct (getArrayLength pd1) as [[pd2 n] [e|]]; [done|].
  destruct (0 <? n); [|done]. cbn zeta.
  destruct (T_decode_blocks_unversioned v v' (Z.to_nat n) 0
              (replicate (Z.to_nat n) P.zero) (replicate (Z.to_nat n) P.zero)
              pd2 eq_refl) as (He & Hd & Hp).
  change (T.Version (T.set_TopicName s (T.set_Version v x0))) with v.
  change (T.Version (T.set_TopicName s (T.set_Version v' x0))) with v'.
  destruct (T.decode_blocks _ _ _ pd2 v) as [[a pd3] e1],
           (T.decode_blocks _ _ _ pd2 v') as [[a' pd3'] e1'].
  cbn [fst snd] in He, Hd, Hp |- *. subst e1' pd3'.
  split; [done|]. split; [done|].
  unfold T_unversioned. cbn. f_equal. f_equal. exact Hp.
Qed.

Lemma R_decode_blocks_unversioned (v v' : Z) (k : nat) :
  forall (i : nat) (arr arr' : list T.t) (pd : D),
    (T_unversioned <$> arr) = (T_unversioned <$> arr') ->
    (R.decode_blocks k i arr pd v).2 = (R.decode_blocks k i arr' pd v').2
    /\ (R.decode_blocks k i arr pd v).1.2
       = (R.decode_blocks k i arr' pd v').1.2
    /\ T_unversioned <$> (R.decode_blocks k i arr pd v).1.1
       = T_unversioned <$> (R.decode_blocks k i arr' pd v').1.1.
Proof.
  induction k as [|k IH]; intros i arr arr' pd Harr; [done|].
  cbn [R.decode_blocks].
  destruct (T_decode_unversioned T.zero pd v v') as (He & Hd & Hp).
  destruct (T.decode T.zero pd v) as [[b pd1] e1],
           (T.decode T.zero pd v') as [[b' pd1'] e1'].
  cbn [fst snd] in He, Hd, Hp. subst e1' pd1'.
  destruct e1 as [e|]; [done|].
  apply IH. by rewrite !list_fmap_insert, Hp, Harr.
Qed.

Lemma R_decode_unversioned (r0 : R.t) (pd : D) (v v' : Z) :
  (R.decode r0 pd v).2 = (R.decode r0 pd v').2
  /\ (R.decode r0 pd v).1.2 = (R.decode r0 pd v').1.2
  /\ R_unversioned (R.decode r0 pd v).1.1
     = R_unversioned (R.decode r0 pd v').1.1.
Proof.
  unfold R.decode.
  destruct (getNullableString pd) as [[pd1 s] [e|]]; [done|].
  destruct (getArrayLength pd1) as [[pd2 n] [e|]]; [done|].
  destruct (0 <? n); [|done]. cbn zeta.
  destruct (R_decode_blocks_unversioned v v' (Z.to_nat n) 0
              (replicate (Z.to_nat n) T.zero) (replicate (Z.to_nat n) T.zero)
              pd2 eq_refl) as (He & Hd & Hp).
  change (R.Version (R.set_ClusterID s (R.set_Version v r0))) with v.
  change (R.Version (R.set_ClusterID s (R.set_Version v' r0))) with v'.
  destruct (R.decode_blocks _ _ _ pd2 v) as [[a pd3] e1],
           (R.decode_blocks _ _ _ pd2 v') as [[a' pd3'] e1'].
  cbn [fst snd] in He, Hd, Hp |- *. subst e1' pd3'.
  split; [done|]. split; [done|].
  unfold R_unversioned. cbn. f_equal. f_equal. exact Hp.
Qed.
End DecodeGeneric.



(** X6.  The version passed to decode is only recorded: for every decoder and
    every receiver, decoding the same input at two versions returns the same
    error, leaves the decoder in the same state, and yields messages that
    differ in their Version fields at most. *)
Theorem decode_ignores_version {D : Type} `{!packetDecoder D}
  (r0 : R.t) (pd : D) (v v' : Z) :
  (R.decode r0 pd v).2 = (R.decode r0 pd v').2
  /\ (R.decode r0 pd v).1.2 = (R.decode r0 pd v').1.2
  /\ R_unversioned (R.decode r0 pd v).1.1
     = R_unversioned (R.decode r0 pd v').1.1.
Proof. apply R_decode_unversioned. Qed.

(** X7.  The version plays no part in what is written: for every encoder,
    two requests that differ in their Version fields at most are encoded by
    the same writes, with the same outcome. *)
Theorem encode_ignores_version {E : Type} `{!packetEncoder E}
  (r r' : R.t) (pe : E) :
  R_unversioned r = R_unversioned r' ->
  out (R.encode r pe) = out (R.encode r' pe).
Proof.
  intros Heq. rewrite !R_encode_layout. f_equal.
  assert (HP : forall p : P.t,
             layout_partition (P_unversioned p) = layout_partition p) by done.
  assert (HPs : forall ps : list P.t,
             flat_map layout_partition (map P_unversioned ps)
             = flat_map layout_partition ps).
  { induction ps as [|p ps IH]; [done|]. cbn [map flat_map]. by rewrite IH. }
  assert (HT : forall x : T.t,
             layout_topic (T_unversioned x) = layout_topic x).
  { intros [vx n [ps|]]; [|done]. unfold layout_topic, T_unversioned. cbn.
    rewrite HPs. unfold len. cbn. by rewrite length_map. }
  assert (HTs : forall ts : list T.t,
             flat_map layout_topic (map T_unversioned ts)
             = flat_map layout_topic ts).
  { induction ts as [|x ts IH]; [done|]. cbn [map flat_map].
    by rewrite IH, HT. }
  assert (HR : forall r : R.t,
             layout_request (R_unversioned r) = layout_request r).
  { intros [vr c [ts|]]; [|done]. unfold layout_request, R_unversioned. cbn.
    rewrite HTs. unfold len. cbn. by rewrite length_map. }
  by rewrite <- (HR r), <- (HR r'), Heq.
Qed.

Lemma encode_ignores_version_witness :
  out (R.encode mixed_versions empty_buffer)
  = out (R.encode (R.mk 0 None (Some [T.mk 0 "a" (Some [P.mk 0 0 0 0])]))
           empty_buffer).
Proof.
  exact (encode_ignores_version (E := realEncoder) mixed_versions _
           empty_buffer eq_refl).
Defined.

(** X8.  The lists of a decoded message are sized by the count read from the
    input before any element is read: whenever the topic count read is
    positive, the topic list of the receiver has that many entries after the
    call, whether the call succeeds or fails on the first topic. *)
Theorem decode_allocates_announced_count {D : Type} `{!packetDecoder D}
  (r0 : R.t) (pd pd1 pd2 : D) (v : Z) (c : option string) (n : Z) :
  getNullableString pd = (pd1, c, None) ->
  getArrayLength pd1 = (pd2, n, None) ->
  0 < n ->
  len (R.Topics (R.decode r0 pd v).1.1) = n.
Proof.
  intros Hc Hn Hpos. unfold R.decode. rewrite Hc, Hn.
  destruct (Z.ltb_spec 0 n); [|lia]. cbn zeta.
  pose proof (R_decode_blocks_length
    (R.Version (R.set_ClusterID c (R.set_Version v r0))) (Z.to_nat n) 0
    (replicate (Z.to_nat n) T.zero) pd2) as Hlen.
  destruct (R.decode_blocks _ _ _ pd2 _) as [[arr pd3] err].
  cbn [fst snd] in Hlen |- *. unfold len. cbn [elems R.Topics R.set_Topics].
  rewrite Hlen, length_replicate. lia.
Qed.

Lemma decode_allocates_announced_count_witness :
  (R.decode R.zero frame_count_1000 0).2 = Some ErrInsufficientData
  /\ len (R.Topics (R.decode R.zero frame_count_1000 0).1.1) = 1000.
Proof.
  split; [reflexivity|].
  apply (decode_allocates_announced_count (D := realDecoder) R.zero
           frame_count_1000 (drop 2 frame_count_1000) [] 0 None 1000);
    [reflexivity | reflexivity | lia].
Defined.

(** ** Decoding on the cursor of the specification: what a read tells *)

Section RealDecoding.

Lemma Z_of_byte_range (b : byte) : 0 <= Z_of_byte b < 256.
Proof.
  unfold Z_of_byte. pose proof (Byte.to_N_bounded b) as H. lia.
Qed.

Lemma byte_of_Z_eq (z : Z) (b : byte) :
  z mod 256 = Z_of_byte b -> byte_of_Z z = b.
Proof.
  intros Hz. unfold byte_of_Z. rewrite Hz. unfold Z_of_byte.
  by rewrite N2Z.id, Byte.of_to_N.
Qed.

Lemma be16_int16_of_bytes (b0 b1 : byte) :
  be16 (int16_of_bytes b0 b1) = [b0; b1]
  /\ -32768 <= int16_of_bytes b0 b1 <= 32767.
Proof.
  pose proof (Z_of_byte_range b0). pose proof (Z_of_byte_range b1).
  unfold be16, int16_of_bytes. cbn zeta.
  destruct (Z.ltb_spec (Z_of_byte b0 * 256 + Z_of_byte b1) 32768).
  - split; [|lia]. f_equal; [|f_equal]; apply byte_of_Z_eq;
      rewrite ?Z.shiftr_div_pow2 by lia; change (2 ^ 8) with 256;
      Z.div_mod_to_equations; lia.
  - split; [|lia]. f_equal; [|f_equal]; apply byte_of_Z_eq;
      rewrite ?Z.shiftr_div_pow2 by lia; change (2 ^ 8) with 256;
      Z.div_mod_to_equations; lia.
Qed.

Lemma be32_int32_of_bytes (b0 b1 b2 b3 : byte) :
  be32 (int32_of_bytes b0 b1 b2 b3) = [b0; b1; b2; b3]
  /\ int32_range (int32_of_bytes b0 b1 b2 b3).
Proof.
  pose proof (Z_of_byte_range b0). pose proof (Z_of_byte_range b1).
  pose proof (Z_of_byte_range b2). pose proof (Z_of_byte_range b3).
  unfold be32, int32_of_bytes, int32_range. cbn zeta.
  destruct (Z.ltb_spec (Z_of_byte b0 * 16777216 + Z_of_byte b1 * 65536
                        + Z_of_byte b2 * 256 + Z_of_byte b3) 2147483648).
  - split; [|lia].
    f_equal; [|f_equal; [|f_equal; [|f_equal]]]; apply byte_of_Z_eq;
      rewrite ?Z.shiftr_div_pow2 by lia;
      change (2 ^ 8) with 256; change (2 ^ 16) with 65536;
      change (2 ^ 24) with 16777216; Z.div_mod_to_equations; lia.
  - split; [|lia].
    f_equal; [|f_equal; [|f_equal; [|f_equal]]]; apply byte_of_Z_eq;
      rewrite ?Z.shiftr_div_pow2 by lia;
      change (2 ^ 8) with 256; change (2 ^ 16) with 65536;
      change (2 ^ 24) with 16777216; Z.div_mod_to_equations; lia.
Qed.

Lemma real_getInt32_inv (pd pd' : realDecoder) (x : Z) :
  getInt32 pd = (pd', x, None) -> pd = be32 x ++ pd' /\ int32_range x.
Proof.
  cbn [getInt32 realDecoder_packetDecoder]. unfold realDecoder.getInt32.
  destruct pd as [|b0 [|b1 [|b2 [|b3 rest]]]]; try done.
  intros [= <- <-]. destruct (be32_int32_of_bytes b0 b1 b2 b3) as [-> Hr].
  done.
Qed.

Lemma real_getInt16_inv (pd pd' : realDecoder) (x : Z) :
  realDecoder.getInt16 pd = (pd', x, None) ->
  pd = be16 x ++ pd' /\ -32768 <= x <= 32767.
Proof.
  unfold realDecoder.getInt16.
  destruct pd as [|b0 [|b1 rest]]; try done.
  intros [= <- <-]. destruct (be16_int16_of_bytes b0 b1) as [-> Hr].
  done.
Qed.

Lemma real_getRaw_inv (pd pd' : realDecoder) (n : Z) (s : string) :
  0 <= n ->
  realDecoder.getRaw pd n = (pd', s, None) ->
  pd = bytes_of_string s ++ pd' /\ strlen s = n.
Proof.
  intros Hn. unfold realDecoder.getRaw.
  destruct (Z.ltb_spec (Z.of_nat (length pd)) n); [intros [=]|].
  intros [= <- <-]. unfold strlen, bytes_of_string, string_of_bytes.
  rewrite String.list_byte_of_string_of_list_byte, take_drop.
  split; [done|]. rewrite length_take_le by lia. lia.
Qed.

Lemma real_getString_inv (pd pd' : realDecoder) (s : string) :
  getString pd = (pd', s, None) ->
  pd = op_bytes (OpString s) ++ pd' /\ strlen s <= 32767.
Proof.
  cbn [getString realDecoder_packetDecoder]. unfold realDecoder.getString.
  destruct (realDecoder.getInt16 pd) as [[pd1 n] [e|]] eqn:Hn; [done|].
  apply real_getInt16_inv in Hn as [-> Hr].
  destruct (Z.ltb_spec n 0); [intros [=]|].
  intros Hraw. apply real_getRaw_inv in Hraw as [-> <-]; [|lia].
  cbn [op_bytes]. split; [by rewrite <- app_assoc | lia].
Qed.

Lemma real_getNullableString_inv (pd pd' : realDecoder) (c : option string) :
  getNullableString pd = (pd', c, None) ->
  pd = op_bytes (OpNullableString c) ++ pd' /\ nullable_legal c.
Proof.
  cbn [getNullableString realDecoder_packetDecoder].
  unfold realDecoder.getNullableString.
  destruct (realDecoder.getInt16 pd) as [[pd1 n] [e|]] eqn:Hn; [done|].
  apply real_getInt16_inv in Hn as [-> Hr].
  destruct (Z.eqb_spec n (-1)) as [->|Hne]; [by intros [= <- <-]|].
  destruct (Z.ltb_spec n 0); [intros [=]|].
  destruct (realDecoder.getRaw pd1 n) as [[pd2 s] [e|]] eqn:Hraw; [done|].
  intros [= <- <-]. apply real_getRaw_inv in Hraw as [-> <-]; [|lia].
  cbn [op_bytes nullable_legal]. split; [by rewrite <- app_assoc | lia].
Qed.

Lemma real_getArrayLength_inv (pd pd' : realDecoder) (n : Z) :
  getArrayLength pd = (pd', n, None) ->
  pd = be32 n ++ pd' /\ -1 <= n <= 2147483647.
Proof.
  cbn [getArrayLength realDecoder_packetDecoder].
  unfold realDecoder.getArrayLength.
  destruct (realDecoder.getInt32 pd) as [[pd1 m] [e|]] eqn:Hm; [done|].
  apply (real_getInt32_inv pd pd1 m) in Hm as [-> Hr].
  destruct (Z.ltb_spec m (-1)); [intros [=]|].
  intros [= <- <-]. unfold int32_range in Hr. split; [done|lia].
Qed.

Lemma P_decode_inv (p0 p : P.t) (pd pd' : realDecoder) (v : Z) :
  P.decode p0 pd v = (p, pd', None) ->
  P_legal v p /\ pd = wire_partition p ++ pd'.
Proof.
  unfold P.decode.
  destruct (getInt32 pd) as [[pd1 a] [e|]] eqn:Ha; [done|].
  destruct (getInt32 pd1) as [[pd2 b] [e|]] eqn:Hb; [done|].
  destruct (getInt32 pd2) as [[pd3 c] [e|]] eqn:Hc; [done|].
  apply real_getInt32_inv in Ha as [-> Hra], Hb as [-> Hrb], Hc as [-> Hrc].
  intros [= <- <-]. split; [done|].
  change (wire_partition _) with (be32 a ++ be32 b ++ be32 c).
  by rewrite <- !app_assoc.
Qed.

Lemma T_decode_blocks_inv (v : Z) (k : nat) :
  forall (i : nat) (arr arr' : list P.t) (pd pd' : realDecoder),
    T.decode_blocks k i arr pd v = (arr', pd', None) ->
    length arr = (i + k)%nat ->
    exists ps, length ps = k
      /\ arr' = take i arr ++ ps
      /\ Forall (P_legal v) ps
      /\ pd = flat_map wire_partition ps ++ pd'.
Proof.
  induction k as [|k IH]; intros i arr arr' pd pd' Hrun Hlen.
  - injection Hrun as <- <-. exists []. rewrite app_nil_r.
    by rewrite take_ge by lia.
  - cbn [T.decode_blocks] in Hrun.
    destruct (P.decode P.zero pd v) as [[b pd1] [e|]] eqn:Hb; [done|].
    apply P_decode_inv in Hb as [Hleg ->].
    apply IH in Hrun as (ps & Hk & -> & Hps & ->);
      [|rewrite length_insert; lia].
    exists (b :: ps). split; [simpl; lia|].
    rewrite (take_S_r _ _ b) by (apply list_lookup_insert_eq; lia).
    rewrite take_insert_ge by lia. rewrite <- app_assoc.
    split; [done|]. split; [by constructor|].
    cbn [flat_map]. by rewrite <- app_assoc.
Qed.
End RealDecoding.

Section RealDecodingNested.

Lemma T_decode_inv (x0 x : T.t) (pd pd' : realDecoder) (v : Z) :
  T.Partitions x0 = None ->
  T.decode x0 pd v = (x, pd', None) ->
  T_legal v x
  /\ exists W, pd = W ++ pd' /\ length W = length (wire_topic x).
Proof.
  intros Hnil. unfold T.decode.
  destruct (getString pd) as [[pd1 s] [e|]] eqn:Hs; [done|].
  destruct (getArrayLength pd1) as [[pd2 n] [e|]] eqn:Hn; [done|].
  apply real_getString_inv in Hs as [-> Hlen].
  apply real_getArrayLength_inv in Hn as [-> Hr].
  destruct (Z.ltb_spec 0 n) as [Hpos|Hle]; cbn zeta.
  - change (T.Version (T.set_TopicName s (T.set_Version v x0))) with v.
    destruct (T.decode_blocks _ _ _ pd2 v) as [[arr pd3] err] eqn:Hloop.
    intros [= <- <- ->].
    apply T_decode_blocks_inv in Hloop as (ps & Hk & -> & Hps & ->);
      [|by rewrite length_replicate].
    rewrite take_0. cbn [app].
    assert (Hn : len (Some ps) = n) by (unfold len; cbn [elems]; lia).
    split.
    + unfold T_legal, slice_legal.
      cbn [T.Version T.TopicName T.Partitions elems T.set_Partitions
           T.set_TopicName T.set_Version].
      split; [done|]. split; [done|]. split; [|split; [lia|done]].
      intros [= ->]. simpl in Hk. lia.
    + exists (wire_topic (T.mk v s (Some ps))). split; [|done].
      rewrite wire_topic_eq. cbn [T.TopicName T.Partitions elems].
      rewrite Hn. by rewrite <- !app_assoc.
  - intros [= <- <-].
    assert (Hx : T.set_TopicName s (T.set_Version v x0) = T.mk v s None).
    { unfold T.set_TopicName, T.set_Version. cbn. by rewrite Hnil. }
    rewrite Hx. split.
    + split; [done|]. split; [done|]. split; [done|].
      split; [done|constructor].
    + exists (op_bytes (OpString s) ++ be32 n).
      split; [by rewrite <- !app_assoc|].
      rewrite wire_topic_eq. cbn [T.TopicName T.Partitions elems flat_map].
      by rewrite app_nil_r, !length_app, !length_be32.
Qed.

Lemma R_decode_blocks_inv (v : Z) (k : nat) :
  forall (i : nat) (arr arr' : list T.t) (pd pd' : realDecoder),
    R.decode_blocks k i arr pd v = (arr', pd', None) ->
    length arr = (i + k)%nat ->
    exists ts W, length ts = k
      /\ arr' = take i arr ++ ts
      /\ Forall (T_legal v) ts
      /\ pd = W ++ pd'
      /\ length W = length (flat_map wire_topic ts).
Proof.
  induction k as [|k IH]; intros i arr arr' pd pd' Hrun Hlen.
  - injection Hrun as <- <-. exists [], []. rewrite app_nil_r.
    by rewrite take_ge by lia.
  - cbn [R.decode_blocks] in Hrun.
    destruct (T.decode T.zero pd v) as [[b pd1] [e|]] eqn:Hb; [done|].
    apply T_decode_inv in Hb as (Hleg & W1 & -> & HW1); [|done].
    apply IH in Hrun as (ts & W & Hk & -> & Hts & -> & HW);
      [|rewrite length_insert; lia].
    exists (b :: ts), (W1 ++ W). split; [simpl; lia|].
    rewrite (take_S_r _ _ b) by (apply list_lookup_insert_eq; lia).
    rewrite take_insert_ge by lia. rewrite <- !app_assoc.
    split; [done|]. split; [by constructor|]. split; [done|].
    cbn [flat_map]. rewrite !length_app. lia.
Qed.

Lemma R_decode_inv (r0 r : R.t) (pd pd' : realDecoder) (v : Z) :
  R.Topics r0 = None ->
  R.decode r0 pd v = (r, pd', None) ->
  R_legal v r
  /\ exists W, pd = W ++ pd' /\ length W = length (wire_request r).
Proof.
  intros Hnil. unfold R.decode.
  destruct (getNullableString pd) as [[pd1 c] [e|]] eqn:Hc; [done|].
  destruct (getArrayLength pd1) as [[pd2 n] [e|]] eqn:Hn; [done|].
  apply real_getNullableString_inv in Hc as [-> Hlen].
  apply real_getArrayLength_inv in Hn as [-> Hr].
  destruct (Z.ltb_spec 0 n) as [Hpos|Hle]; cbn zeta.
  - change (R.Version (R.set_ClusterID c (R.set_Version v r0))) with v.
    destruct (R.decode_blocks _ _ _ pd2 v) as [[arr pd3] err] eqn:Hloop.
    intros [= <- <- ->].
    apply R_decode_blocks_inv in Hloop as (ts & W & Hk & -> & Hts & -> & HW);
      [|by rewrite length_replicate].
    rewrite take_0. cbn [app].
    assert (Hn : len (Some ts) = n) by (unfold len; cbn [elems]; lia).
    split.
    + unfold R_legal, slice_legal.
      cbn [R.Version R.ClusterID R.Topics elems R.set_Topics
           R.set_ClusterID R.set_Version].
      split; [done|]. split; [done|]. split; [|split; [lia|done]].
      intros [= ->]. simpl in Hk. lia.
    + exists (op_bytes (OpNullableString c) ++ be32 n ++ W).
      split; [by rewrite <- !app_assoc|].
      rewrite wire_request_eq.
      cbn [R.ClusterID R.Topics elems R.set_Topics R.set_ClusterID
           R.set_Version].
      rewrite !length_app, !length_be32. lia.
  - intros [= <- <-].
    assert (Hx : R.set_ClusterID c (R.set_Version v r0) = R.mk v c None).
    { unfold R.set_ClusterID, R.set_Version. cbn. by rewrite Hnil. }
    rewrite Hx. split.
    + split; [done|]. split; [done|]. split; [done|].
      split; [done|constructor].
    + exists (op_bytes (OpNullableString c) ++ be32 n).
      split; [by rewrite <- !app_assoc|].
      rewrite wire_request_eq. cbn [R.ClusterID R.Topics elems flat_map].
      by rewrite app_nil_r, !length_app, !length_be32.
Qed.
End RealDecodingNested.

(** X9.  What decode returns, encode accepts: a message decoded without
    error into a fresh receiver is legal for the version of the call, so
    encoding it succeeds and decoding those bytes yields the same message
    again. *)
Theorem decoded_message_round_trips (r0 r : R.t) (pd pd' : realDecoder)
  (v : Z) :
  R.Topics r0 = None ->
  R.decode r0 pd v = (r, pd', None) ->
  R_legal v r
  /\ R.encode r empty_buffer = (r, wire_request r, None)
  /\ R.decode R.zero (wire_request r : realDecoder) v = (r, [], None).
Proof.
  intros Hnil Hrun. apply R_decode_inv in Hrun as [Hleg _]; [|done].
  split; [done|]. split.
  - by rewrite (R_encode_wire v).
  - pose proof (R_decode_wire v r R.zero [] Hleg eq_refl) as H.
    by rewrite app_nil_r in H.
Qed.

Lemma decoded_message_round_trips_witness :
  R.decode R.zero frame_two_topics 0 = (request_two_topics, [], None)
  /\ R_legal 0 request_two_topics
  /\ R.encode request_two_topics empty_buffer
     = (request_two_topics, wire_request request_two_topics, None)
  /\ R.decode R.zero (wire_request request_two_topics : realDecoder) 0
     = (request_two_topics, [], None).
Proof.
  split; [reflexivity|].
  exact (decoded_message_round_trips R.zero request_two_topics
           frame_two_topics [] 0 eq_refl eq_refl).
Defined.

(** X10.  A successful decode into a fresh receiver reads exactly as many
    bytes as encoding the decoded message writes, from the front of the
    input, and leaves the rest of the input unread. *)
Theorem decode_consumes_request_size (r0 r : R.t) (pd pd' : realDecoder)
  (v : Z) :
  R.Topics r0 = None ->
  R.decode r0 pd v = (r, pd', None) ->
  Z.of_nat (length pd) = request_size r + Z.of_nat (length pd')
  /\ pd' = drop (Z.to_nat (request_size r)) pd.
Proof.
  intros Hnil Hrun. apply R_decode_inv in Hrun as [_ (W & -> & HW)]; [|done].
  pose proof (length_wire_request r) as Hsize.
  rewrite length_app. split; [lia|].
  rewrite <- Hsize, Nat2Z.id, <- HW. by rewrite drop_app_length.
Qed.

Lemma decode_consumes_request_size_witness :
  Z.of_nat (length (frameA ++ [x00; x01])) = request_size scenarioA + 2
  /\ [x00; x01] = drop (Z.to_nat (request_size scenarioA)) (frameA ++ [x00; x01]).
Proof.
  exact (decode_consumes_request_size R.zero scenarioA
           (frameA ++ [x00; x01]) [x00; x01] 0 eq_refl eq_refl).
Defined.

(** ** Decoding input that breaks off *)

Section Truncation.

Lemma cut_short_nil (pd : list byte) : ~ cut_short pd [].
Proof. intros (m & Hm & Heq). by destruct pd, m. Qed.

Lemma cut_short_length (pd w : list byte) :
  cut_short pd w -> (length pd < length w)%nat.
Proof.
  intros (m & Hm & ->). rewrite length_app. destruct m; [done|]. simpl. lia.
Qed.

Lemma cut_short_app (w1 w2 pd : list byte) :
  cut_short pd (w1 ++ w2) ->
  cut_short pd w1 \/ exists pd2, pd = w1 ++ pd2 /\ cut_short pd2 w2.
Proof.
  intros (m & Hm & Heq).
  apply app_eq_inv in Heq as [(k & -> & ->)|(k & -> & ->)].
  - destruct k as [|b k].
    + right. exists []. rewrite !app_nil_r. split; [done|].
      exists w2. split; [exact Hm | done].
    + left. by exists (b :: k).
  - right. exists k. split; [done|]. by exists m.
Qed.

Lemma short_getInt16 (pd : realDecoder) :
  (length pd < 2)%nat ->
  realDecoder.getInt16 pd = ([], 0, Some ErrInsufficientData).
Proof. destruct pd as [|? [|? ?]]; simpl; [done|done|lia]. Qed.

Lemma short_getInt32 (pd : realDecoder) :
  (length pd < 4)%nat ->
  realDecoder.getInt32 pd = ([], 0, Some ErrInsufficientData).
Proof.
  destruct pd as [|? [|? [|? [|? ?]]]]; simpl; [done|done|done|done|lia].
Qed.

Lemma cut_getInt32 (x : Z) (rest : list byte) (pd : realDecoder) :
  int32_range x ->
  cut_short pd (be32 x ++ rest) ->
  (getInt32 pd).2 = Some ErrInsufficientData
  \/ exists pd2, getInt32 pd = (pd2, x, None) /\ cut_short pd2 rest.
Proof.
  intros Hx [Hcut|(pd2 & -> & Hcut)]%cut_short_app.
  - left. apply cut_short_length in Hcut. rewrite length_be32 in Hcut.
    cbn [getInt32 realDecoder_packetDecoder]. by rewrite short_getInt32.
  - right. exists pd2. by rewrite real_getInt32.
Qed.

Lemma cut_getArrayLength (n : Z) (rest : list byte) (pd : realDecoder) :
  0 <= n <= 2147483647 ->
  cut_short pd (be32 n ++ rest) ->
  (getArrayLength pd).2 = Some ErrInsufficientData
  \/ exists pd2, getArrayLength pd = (pd2, n, None) /\ cut_short pd2 rest.
Proof.
  intros Hn [Hcut|(pd2 & -> & Hcut)]%cut_short_app.
  - left. apply cut_short_length in Hcut. rewrite length_be32 in Hcut.
    cbn [getArrayLength realDecoder_packetDecoder].
    unfold realDecoder.getArrayLength. by rewrite short_getInt32.
  - right. exists pd2. by rewrite real_getArrayLength.
Qed.

Lemma short_getRaw (pd : realDecoder) (n : Z) :
  Z.of_nat (length pd) < n ->
  realDecoder.getRaw pd n = ([], "", Some ErrInsufficientData).
Proof.
  intros Hn. unfold realDecoder.getRaw.
  by destruct (Z.ltb_spec (Z.of_nat (length pd)) n); [|lia].
Qed.

Lemma cut_getString (s : string) (rest : list byte) (pd : realDecoder) :
  strlen s <= 32767 ->
  cut_short pd (op_bytes (OpString s) ++ rest) ->
  (getString pd).2 = Some ErrInsufficientData
  \/ exists pd2, getString pd = (pd2, s, None) /\ cut_short pd2 rest.
Proof.
  intros Hs [Hcut|(pd2 & -> & Hcut)]%cut_short_app.
  - left. pose proof (strlen_nonneg s) as H0.
    cbn [op_bytes] in Hcut.
    cbn [getString realDecoder_packetDecoder]. unfold realDecoder.getString.
    apply cut_short_app in Hcut as [Hcut|(pd2 & -> & Hcut)].
    + apply cut_short_length in Hcut. rewrite length_be16 in Hcut.
      by rewrite short_getInt16.
    + rewrite real_getInt16 by lia.
      destruct (Z.ltb_spec (strlen s) 0); [lia|].
      apply cut_short_length in Hcut.
      rewrite short_getRaw; [done|]. unfold strlen. lia.
  - right. exists pd2. by rewrite real_getString.
Qed.

Lemma cut_getNullableString (c : option string) (rest : list byte)
  (pd : realDecoder) :
  nullable_legal c ->
  cut_short pd (op_bytes (OpNullableString c) ++ rest) ->
  (getNullableString pd).2 = Some ErrInsufficientData
  \/ exists pd2, getNullableString pd = (pd2, c, None)
                 /\ cut_short pd2 rest.
Proof.
  intros Hs [Hcut|(pd2 & -> & Hcut)]%cut_short_app.
  - left. cbn [getNullableString realDecoder_packetDecoder].
    unfold realDecoder.getNullableString.
    destruct c as [s|]; cbn [op_bytes nullable_legal] in Hcut, Hs.
    + pose proof (strlen_nonneg s) as H0.
      apply cut_short_app in Hcut as [Hcut|(pd2 & -> & Hcut)].
      * apply cut_short_length in Hcut. rewrite length_be16 in Hcut.
        by rewrite short_getInt16.
      * rewrite real_getInt16 by lia.
        destruct (Z.eqb_spec (strlen s) (-1)); [lia|].
        destruct (Z.ltb_spec (strlen s) 0); [lia|].
        apply cut_short_length in Hcut.
        rewrite short_getRaw; [done|]. unfold strlen. lia.
    + apply cut_short_length in Hcut. rewrite length_be16 in Hcut.
      by rewrite short_getInt16.
  - right. exists pd2. by rewrite real_getNullableString.
Qed.
End Truncation.

Section TruncationNested.

Lemma cut_P_decode (v : Z) (p p0 : P.t) (rest : list byte)
  (pd : realDecoder) :
  P_legal v p ->
  cut_short pd (wire_partition p ++ rest) ->
  (P.decode p0 pd v).2 = Some ErrInsufficientData
  \/ exists pd2, P.decode p0 pd v = (p, pd2, None) /\ cut_short pd2 rest.
Proof.
  intros (Hv & Ha & Hb & Hc) Hcut. destruct p as [v0 a b c].
  cbn [P.Version P.PartitionIndex P.LeaderID P.LeaderEpoch] in *. subst v0.
  change (wire_partition (P.mk v a b c) ++ rest)
    with (be32 a ++ be32 b ++ be32 c ++ rest) in Hcut.
  unfold P.decode.
  apply cut_getInt32 in Hcut as [Hf|(pd1 & -> & Hcut)]; [| |done].
  { left. by destruct (getInt32 pd) as [[? ?] [?|]]; simplify_eq/=. }
  apply cut_getInt32 in Hcut as [Hf|(pd2 & -> & Hcut)]; [| |done].
  { left. by destruct (getInt32 pd1) as [[? ?] [?|]]; simplify_eq/=. }
  apply cut_getInt32 in Hcut as [Hf|(pd3 & -> & Hcut)]; [| |done].
  { left. by destruct (getInt32 pd2) as [[? ?] [?|]]; simplify_eq/=. }
  right. by exists pd3.
Qed.

Lemma cut_T_decode_blocks (v : Z) (ps : list P.t) :
  forall (i : nat) (arr : list P.t) (rest : list byte) (pd : realDecoder),
    Forall (P_legal v) ps ->
    cut_short pd (flat_map wire_partition ps ++ rest) ->
    (T.decode_blocks (length ps) i arr pd v).2 = Some ErrInsufficientData
    \/ exists arr' pd2,
         T.decode_blocks (length ps) i arr pd v = (arr', pd2, None)
         /\ cut_short pd2 rest.
Proof.
  induction ps as [|p ps IH]; intros i arr rest pd Hps Hcut.
  - right. by exists arr, pd.
  - apply Forall_cons in Hps as [Hp Hps].
    cbn [length T.decode_blocks flat_map] in *. rewrite <- app_assoc in Hcut.
    apply (cut_P_decode v p P.zero) in Hcut as [Hf|(pd2 & -> & Hcut)];
      [| |done].
    + left. by destruct (P.decode P.zero pd v) as [[? ?] [?|]]; simplify_eq/=.
    + by apply IH.
Qed.

Lemma cut_T_decode (v : Z) (x x0 : T.t) (rest : list byte)
  (pd : realDecoder) :
  T_legal v x ->
  cut_short pd (wire_topic x ++ rest) ->
  (T.decode x0 pd v).2 = Some ErrInsufficientData
  \/ exists x' pd2, T.decode x0 pd v = (x', pd2, None) /\ cut_short pd2 rest.
Proof.
  intros (Hv & Hname & Hne & Hlen & Hps) Hcut.
  rewrite wire_topic_eq, <- !app_assoc in Hcut. unfold T.decode.
  apply cut_getString in Hcut as [Hf|(pd1 & -> & Hcut)]; [| |done].
  { left. by destruct (getString pd) as [[? ?] [?|]]; simplify_eq/=. }
  apply cut_getArrayLength in Hcut as [Hf|(pd2 & -> & Hcut)];
    [| |by apply len_range].
  { left. by destruct (getArrayLength pd1) as [[? ?] [?|]]; simplify_eq/=. }
  destruct (Z.ltb_spec 0 (len (T.Partitions x))) as [Hpos|Hle]; cbn zeta.
  - assert (Hn : Z.to_nat (len (T.Partitions x))
                 = length (elems (T.Partitions x)))
      by (unfold len; apply Nat2Z.id).
    rewrite Hn.
    destruct (cut_T_decode_blocks v (elems (T.Partitions x)) 0
                (replicate (length (elems (T.Partitions x))) P.zero) rest pd2
                Hps Hcut) as [Hf|(arr' & pd3 & Hrun & Hcut')].
    + left.
      change (T.Version (T.set_TopicName (T.TopicName x) (T.set_Version v x0)))
        with v.
      by destruct (T.decode_blocks _ _ _ pd2 v) as [[? ?] [?|]];
        simplify_eq/=.
    + right.
      change (T.Version (T.set_TopicName (T.TopicName x) (T.set_Version v x0)))
        with v.
      rewrite Hrun. by eexists _, pd3.
  - right. assert (Hnil : elems (T.Partitions x) = []).
    { unfold len in Hle. destruct (elems (T.Partitions x)); [done|].
      simpl in Hle. lia. }
    rewrite Hnil in Hcut. by eexists _, pd2.
Qed.

Lemma cut_R_decode_blocks (v : Z) (ts : list T.t) :
  forall (i : nat) (arr : list T.t) (rest : list byte) (pd : realDecoder),
    Forall (T_legal v) ts ->
    cut_short pd (flat_map wire_topic ts ++ rest) ->
    (R.decode_blocks (length ts) i arr pd v).2 = Some ErrInsufficientData
    \/ exists arr' pd2,
         R.decode_blocks (length ts) i arr pd v = (arr', pd2, None)
         /\ cut_short pd2 rest.
Proof.
  induction ts as [|x ts IH]; intros i arr rest pd Hts Hcut.
  - right. by exists arr, pd.
  - apply Forall_cons in Hts as [Hx Hts].
    cbn [length R.decode_blocks flat_map] in *. rewrite <- app_assoc in Hcut.
    apply (cut_T_decode v x T.zero) in Hcut as [Hf|(x' & pd2 & Hrun & Hcut)];
      [| |done].
    + left. by destruct (T.decode T.zero pd v) as [[? ?] [?|]]; simplify_eq/=.
    + rewrite Hrun. by apply IH.
Qed.

Lemma cut_R_decode (v : Z) (r r0 : R.t) (rest : list byte)
  (pd : realDecoder) :
  R_legal v r ->
  cut_short pd (wire_request r ++ rest) ->
  (R.decode r0 pd v).2 = Some ErrInsufficientData
  \/ exists r' pd2, R.decode r0 pd v = (r', pd2, None) /\ cut_short pd2 rest.
Proof.
  intros (Hv & Hc & Hne & Hlen & Hts) Hcut.
  rewrite wire_request_eq, <- !app_assoc in Hcut. unfold R.decode.
  apply cut_getNullableString in Hcut as [Hf|(pd1 & -> & Hcut)]; [| |done].
  { left. by destruct (getNullableString pd) as [[? ?] [?|]]; simplify_eq/=. }
  apply cut_getArrayLength in Hcut as [Hf|(pd2 & -> & Hcut)];
    [| |by apply len_range].
  { left. by destruct (getArrayLength pd1) as [[? ?] [?|]]; simplify_eq/=. }
  destruct (Z.ltb_spec 0 (len (R.Topics r))) as [Hpos|Hle]; cbn zeta.
  - assert (Hn : Z.to_nat (len (R.Topics r)) = length (elems (R.Topics r)))
      by (unfold len; apply Nat2Z.id).
    rewrite Hn.
    destruct (cut_R_decode_blocks v (elems (R.Topics r)) 0
                (replicate (length (elems (R.Topics r))) T.zero) rest pd2
                Hts Hcut) as [Hf|(arr' & pd3 & Hrun & Hcut')].
    + left.
      change (R.Version (R.set_ClusterID (R.ClusterID r) (R.set_Version v r0)))
        with v.
      by destruct (R.decode_blocks _ _ _ pd2 v) as [[? ?] [?|]];
        simplify_eq/=.
    + right.
      change (R.Version (R.set_ClusterID (R.ClusterID r) (R.set_Version v r0)))
        with v.
      rewrite Hrun. by eexists _, pd3.
  - right. assert (Hnil : elems (R.Topics r) = []).
    { unfold len in Hle. destruct (elems (R.Topics r)); [done|].
      simpl in Hle. lia. }
    rewrite Hnil in Hcut. by eexists _, pd2.
Qed.
End TruncationNested.

(** X11.  Input that breaks off is refused: decoding any proper prefix of the
    encoding of a legal message, into any receiver, returns
    [ErrInsufficientData]. *)
Theorem decode_truncated_fails (v : Z) (r r0 : R.t) (k : nat) :
  R_legal v r ->
  (k < length (wire_request r))%nat ->
  (R.decode r0 (take k (wire_request r) : realDecoder) v).2
  = Some ErrInsufficientData.
Proof.
  intros Hr Hk.
  assert (Hcut : cut_short (take k (wire_request r)) (wire_request r ++ [])).
  { exists (drop k (wire_request r)). rewrite app_nil_r, take_drop.
    split; [|done]. intros Hnil.
    apply (f_equal length) in Hnil. rewrite length_drop in Hnil.
    simpl in Hnil. lia. }
  apply (cut_R_decode v r r0) in Hcut as [Hf|(r' & pd2 & _ & Hcut)]; [done| |done].
  by apply cut_short_nil in Hcut.
Qed.

Lemma decode_truncated_fails_witness :
  (R.decode R.zero (take 29 frameA : realDecoder) 0).2
  = Some ErrInsufficientData.
Proof.
  assert (Hr : R_legal 0 scenarioA).
  { split; [reflexivity|]. split; [exact I|].
    split; [discriminate|]. split; [vm_compute; discriminate|].
    repeat constructor; try discriminate; try (vm_compute; discriminate);
      unfold int32_range; simpl; lia. }
  refine (decode_truncated_fails 0 scenarioA R.zero 29 Hr _).
  vm_compute. lia.
Defined.


(** * The broker set-up *)

(** ** Listener names and security protocols *)

Section BrokerNames.
Variable GetEnvVar : string -> string -> string * bool.
Variable upper_unicode : string -> string.
Variable fold_unicode : string -> string -> bool.

Lemma ParseSecurityProtocol_ok (s : string) (p : SecurityProtocol) (ok : bool) :
  ParseSecurityProtocol upper_unicode s = (p, ok) ->
  if ok then p <> UNDEFINED else p = UNDEFINED.
Proof.
  unfold ParseSecurityProtocol.
  repeat (destruct (String.eqb _ _); [by intros [= <- <-]|]).
  by intros [= <- <-].
Qed.

Lemma Split_not_nil (sep : ascii) (s : string) : Split sep s <> [].
Proof.
  destruct s as [|c s]; [done|]. cbn [Split].
  destruct (Ascii.eqb c sep); [done|]. by destruct (Split sep s).
Qed.

Lemma Split_two_pieces (sep : ascii) (s : string) :
  In sep (String.list_ascii_of_string s) -> (2 <= length (Split sep s))%nat.
Proof.
  induction s as [|c s IH]; [done|]. cbn [String.list_ascii_of_string In Split].
  intros Hin. destruct (Ascii.eqb_spec c sep) as [->|Hne].
  - pose proof (Split_not_nil sep s). destruct (Split sep s); [done|].
    simpl. lia.
  - destruct Hin as [->|Hin]; [done|]. specialize (IH Hin).
    destruct (Split sep s); simpl in *; lia.
Qed.

Lemma getBrokerNameComponents_loop_result (s : string) (spm : list string)
  name proto err :
  getBrokerNameComponents_loop upper_unicode fold_unicode s spm
    = Returned (name, proto, err) ->
  match err with
  | None => name = s /\ proto <> UNDEFINED
  | Some _ => name = "" /\ proto = UNDEFINED
  end.
Proof.
  induction spm as [|sp spm IH]; cbn [getBrokerNameComponents_loop].
  - by intros [= <- <- <-].
  - destruct (Split ":" sp !! 0%nat) as [c0|]; [|done].
    destruct (strings.EqualFold fold_unicode s c0); [|exact IH].
    destruct (Split ":" sp !! 1%nat) as [c1|]; [|done].
    destruct (ParseSecurityProtocol upper_unicode c1) as [p ok] eqn:Hp.
    apply ParseSecurityProtocol_ok in Hp.
    destruct ok; cbn [negb]; by intros [= <- <- <-].
Qed.

Lemma getBrokerNameComponents_loop_no_panic (s : string) (spm : list string) :
  Forall (fun sp => (2 <= length (Split ":" sp))%nat) spm ->
  exists res,
    getBrokerNameComponents_loop upper_unicode fold_unicode s spm
    = Returned res.
Proof.
  induction 1 as [|sp spm Hsp _ IH]; cbn [getBrokerNameComponents_loop].
  - by eexists.
  - destruct (Split ":" sp) as [|c0 [|c1 cs]]; simpl in Hsp; [lia|lia|].
    cbn [lookup list_lookup].
    destruct (strings.EqualFold fold_unicode s c0); [|exact IH].
    destruct (ParseSecurityProtocol upper_unicode c1) as [p ok].
    destruct ok; by eexists.
Qed.

Lemma getBrokerNameComponents_loop_panic (s : string) (pre post : list string)
  (sp c0 : string) :
  Forall (fun sp' => forall c, head (Split ":" sp') = Some c ->
                     strings.EqualFold fold_unicode s c = false) pre ->
  Split ":" sp = [c0] ->
  strings.EqualFold fold_unicode s c0 = true ->
  getBrokerNameComponents_loop upper_unicode fold_unicode s
    (pre ++ sp :: post)
  = Panicked "runtime error: index out of range [1] with length 1".
Proof.
  intros Hpre Hsp Hfold.
  induction Hpre as [|sp' pre Hsp' _ IH];
    cbn [app getBrokerNameComponents_loop].
  - by rewrite Hsp; cbn [lookup list_lookup]; rewrite Hfold.
  - pose proof (Split_not_nil ":" sp') as Hne.
    destruct (Split ":" sp') as [|c cs]; [done|]. cbn [lookup list_lookup].
    by rewrite (Hsp' c eq_refl).
Qed.
End BrokerNames.



(** X13.  getBrokerNameComponents panics with an index out of range when the
    name is not a security protocol and the first entry of
    listener.security.protocol.map whose name matches it has no colon; with
    the map unset, the empty name is such a case. *)
Theorem getBrokerNameComponents_panics
  (GetEnvVar : string -> string -> string * bool)
  (upper_unicode : string -> string) (fold_unicode : string -> string -> bool)
  (s : string) (pre post : list string) (sp c0 : string) :
  (ParseSecurityProtocol upper_unicode s).2 = false ->
  Split "," (remove_spaces
               (GetEnvVar "listener.security.protocol.map" "").1)
    = pre ++ sp :: post ->
  Forall (fun sp' => forall c, head (Split ":" sp') = Some c ->
                     strings.EqualFold fold_unicode s c = false) pre ->
  Split ":" sp = [c0] ->
  strings.EqualFold fold_unicode s c0 = true ->
  getBrokerNameComponents GetEnvVar upper_unicode fold_unicode s
  = Panicked "runtime error: index out of range [1] with length 1".
Proof.
  intros Hok Hspm Hpre Hsp Hfold. unfold getBrokerNameComponents.
  destruct (ParseSecurityProtocol upper_unicode s) as [p ok].
  cbn [snd] in Hok. subst ok.
  destruct (GetEnvVar _ _) as [m ?]. cbn [fst] in Hspm. rewrite Hspm.
  by apply getBrokerNameComponents_loop_panic with (c0 := c0).
Qed.

Lemma getBrokerNameComponents_panics_witness :
  getBrokerNameComponents env_unset plain_upper plain_fold ""
  = Panicked "runtime error: index out of range [1] with length 1"
  /\ getBrokerNameComponents env_custom_map plain_upper plain_fold "BROKEN"
     = Panicked "runtime error: index out of range [1] with length 1".
Proof.
  split.
  - apply (getBrokerNameComponents_panics env_unset plain_upper plain_fold
             "" [] [] "" ""); try reflexivity. constructor.
  - apply (getBrokerNameComponents_panics env_custom_map plain_upper
             plain_fold "BROKEN" ["CUSTOM:PLAINTEXT"] [] "BROKEN" "BROKEN");
      try reflexivity.
    constructor; [|constructor]. by intros c [= <-].
Defined.

(** X14.  getBrokerNameComponents does not panic when every entry of
    listener.security.protocol.map, split at the commas with the spaces
    removed, holds a colon. *)
Theorem getBrokerNameComponents_no_panic
  (GetEnvVar : string -> string -> string * bool)
  (upper_unicode : string -> string) (fold_unicode : string -> string -> bool)
  (s : string) :
  Forall (fun sp => In ":"%char (String.list_ascii_of_string sp))
    (Split "," (remove_spaces
                  (GetEnvVar "listener.security.protocol.map" "").1)) ->
  exists res,
    getBrokerNameComponents GetEnvVar upper_unicode fold_unicode s
    = Returned res.
Proof.
  intros Hall. unfold getBrokerNameComponents.
  destruct (ParseSecurityProtocol upper_unicode s) as [p [|]]; [by eexists|].
  destruct (GetEnvVar _ _) as [m ?]. cbn [fst] in Hall.
  apply getBrokerNameComponents_loop_no_panic.
  eapply Forall_impl; [exact Hall|]. intros sp. apply Split_two_pieces.
Qed.

(** ** Parsing the listeners *)

Section ParseListeners.
Variable GetEnvVar : string -> string -> string * bool.
Variable url_Parse : string -> URL * option error.
Variable SplitHostPort : string -> string * string * option error.
Variable Atoi : string -> Z * option error.
Variable upper_unicode : string -> string.
Variable fold_unicode : string -> string -> bool.

Local Abbreviation parse1 :=
  (parseListener GetEnvVar url_Parse SplitHostPort Atoi upper_unicode
     fold_unicode).
Local Abbreviation parse_loop :=
  (parseListeners_loop GetEnvVar url_Parse SplitHostPort Atoi upper_unicode
     fold_unicode).

Lemma int32_of_int_range (n : Z) : int32_range (int32_of_int n).
Proof.
  unfold int32_range, int32_of_int.
  pose proof (Z.mod_pos_bound (n + 2147483648) 4294967296). lia.
Qed.

Lemma int32_of_int_id (n : Z) : int32_range n -> int32_of_int n = n.
Proof.
  unfold int32_range, int32_of_int. intros Hn.
  rewrite Z.mod_small by lia. lia.
Qed.

Lemma parseListener_result (l : string) (x : Listener) (err : option error) :
  parse1 l = Returned (x, err) ->
  match err with
  | None =>
    ListenerSecurityProtocol x <> UNDEFINED
    /\ ListenerName x = Scheme (url_Parse l).1
    /\ int32_range (Port x)
  | Some _ => x = zeroListener
  end.
Proof.
  unfold parseListener.
  destruct (url_Parse l) as [u [e|]]; [by intros [= <- <-]|].
  destruct (getBrokerNameComponents _ _ _ _) as [[[name proto] [e|]]|msg]
    eqn:Hname; [by intros [= <- <-]| |done].
  destruct (SplitHostPort (URLHost u)) as [[host port] [e|]];
    [by intros [= <- <-]|].
  destruct (Atoi port) as [n [e|]]; [by intros [= <- <-]|].
  intros [= <- <-]. cbn.
  unfold getBrokerNameComponents in Hname.
  destruct (ParseSecurityProtocol upper_unicode (Scheme u)) as [p ok] eqn:Hp.
  apply ParseSecurityProtocol_ok in Hp.
  destruct ok.
  - injection Hname as <- <-. split; [done|]. split; [done|].
    apply int32_of_int_range.
  - destruct (GetEnvVar _ _) as [m ?].
    apply getBrokerNameComponents_loop_result in Hname as [-> Hd].
    split; [done|]. split; [done|]. apply int32_of_int_range.
Qed.

Lemma parseListeners_loop_result (ls : list string) :
  forall (result : list Listener) (res : slice Listener) (err : option error),
    parse_loop ls result = Returned (res, err) ->
    match err with
    | None =>
      exists parsed,
        res = Some (result ++ parsed)
        /\ Forall2 (fun l x => parse1 l = Returned (x, None))
             (filter (fun l => l <> "") ls) parsed
    | Some e =>
      res = Some []
      /\ exists pre l post x,
           ls = pre ++ l :: post
           /\ l <> ""
           /\ parse1 l = Returned (x, Some e)
           /\ Forall (fun l' => l' = ""
                        \/ exists x', parse1 l' = Returned (x', None))
                pre
    end.
Proof.
  induction ls as [|l ls IH]; intros result res err;
    cbn [parseListeners_loop].
  - intros [= <- <-]. exists []. by rewrite app_nil_r.
  - destruct (String.eqb_spec l "") as [->|Hne].
    + intros Hrun. apply IH in Hrun. destruct err as [e|].
      * destruct Hrun as (-> & pre & l & post & x & -> & Hl & Hx & Hpre).
        split; [done|]. exists ("" :: pre), l, post, x.
        repeat split; try done. constructor; [by left|done].
      * destruct Hrun as (parsed & -> & Hall). exists parsed.
        split; [done|]. by rewrite filter_cons_False by (by intros ?).
    + destruct (parse1 l) as [[x [e|]]|msg] eqn:Hx; [| |done].
      * intros [= <- <-]. split; [done|].
        exists [], l, ls, x. repeat split; try done.
      * intros Hrun. apply IH in Hrun. destruct err as [e|].
        -- destruct Hrun as (-> & pre & l' & post & x' & -> & Hl & Hx' & Hpre).
           split; [done|]. exists (l :: pre), l', post, x'.
           repeat split; try done. constructor; [right; by exists x|done].
        -- destruct Hrun as (parsed & -> & Hall). exists (x :: parsed).
           split; [by rewrite <- app_assoc|].
           rewrite filter_cons_True by done. by constructor.
Qed.
End ParseListeners.

(** X15.  A listener that parseListener returns without error has a defined
    security protocol, carries the scheme of the URL as its name and a port in
    the int32 range; with an error, the listener returned is the zero
    value. *)
Theorem parseListener_result_defined
  (GetEnvVar : string -> string -> string * bool)
  (url_Parse : string -> URL * option error)
  (SplitHostPort : string -> string * string * option error)
  (Atoi : string -> Z * option error)
  (upper_unicode : string -> string) (fold_unicode : string -> string -> bool)
  (l : string) (x : Listener) (err : option error) :
  parseListener GetEnvVar url_Parse SplitHostPort Atoi upper_unicode
    fold_unicode l = Returned (x, err) ->
  match err with
  | None =>
    ListenerSecurityProtocol x <> UNDEFINED
    /\ ListenerName x = Scheme (url_Parse l).1
    /\ int32_range (Port x)
  | Some _ => x = zeroListener
  end.
Proof. apply parseListener_result. Qed.

Lemma parseListener_result_defined_witness :
  parseListener env_good_map sample_url_Parse sample_SplitHostPort sample_Atoi
    plain_upper plain_fold "CUSTOM://localhost:9092"
  = Returned (mkListener "localhost" 9092 PLAINTEXT "custom", None)
  /\ PLAINTEXT <> UNDEFINED.
Proof.
  split; [reflexivity|].
  exact (proj1 (parseListener_result_defined env_good_map sample_url_Parse
    sample_SplitHostPort sample_Atoi plain_upper plain_fold
    "CUSTOM://localhost:9092" (mkListener "localhost" 9092 PLAINTEXT "custom")
    None eq_refl)).
Defined.

(** X16.  parseListeners skips the empty entries and keeps the order: without
    error, the result holds the parsed form of each non-empty entry, in order;
    with an error, the result is an empty list and the error is that of the
    first non-empty entry that does not parse. *)
Theorem parseListeners_result
  (GetEnvVar : string -> string -> string * bool)
  (url_Parse : string -> URL * option error)
  (SplitHostPort : string -> string * string * option error)
  (Atoi : string -> Z * option error)
  (upper_unicode : string -> string) (fold_unicode : string -> string -> bool)
  (listeners res : slice _) (err : option error) :
  parseListeners GetEnvVar url_Parse SplitHostPort Atoi upper_unicode
    fold_unicode listeners = Returned (res, err) ->
  match err with
  | None =>
    exists parsed,
      res = Some parsed
      /\ Forall2 (fun l x =>
           parseListener GetEnvVar url_Parse SplitHostPort Atoi upper_unicode
             fold_unicode l = Returned (x, None))
           (filter (fun l => l <> "") (elems listeners)) parsed
  | Some e =>
    res = Some []
    /\ exists pre l post x,
         elems listeners = pre ++ l :: post
         /\ l <> ""
         /\ parseListener GetEnvVar url_Parse SplitHostPort Atoi
              upper_unicode fold_unicode l = Returned (x, Some e)
         /\ Forall (fun l' => l' = ""
                      \/ exists x',
                           parseListener GetEnvVar url_Parse SplitHostPort Atoi
                             upper_unicode fold_unicode l'
                           = Returned (x', None))
              pre
  end.
Proof. apply parseListeners_loop_result. Qed.

Lemma parseListeners_result_witness :
  parseListeners env_good_map sample_url_Parse sample_SplitHostPort
    sample_Atoi plain_upper plain_fold
    (Some [""; "CUSTOM://localhost:9092"; ""; "SSL://example.com:9093"])
  = Returned (Some [mkListener "localhost" 9092 PLAINTEXT "custom";
                    mkListener "example.com" 9093 SSL "ssl"], None)
  /\ exists parsed,
       Some [mkListener "localhost" 9092 PLAINTEXT "custom";
             mkListener "example.com" 9093 SSL "ssl"] = Some parsed
       /\ Forall2 (fun l x =>
            parseListener env_good_map sample_url_Parse sample_SplitHostPort
              sample_Atoi plain_upper plain_fold l = Returned (x, None))
            (filter (fun l => l <> "")
               [""; "CUSTOM://localhost:9092"; ""; "SSL://example.com:9093"])
            parsed.
Proof.
  split; [reflexivity|].
  exact (parseListeners_result env_good_map sample_url_Parse
           sample_SplitHostPort sample_Atoi plain_upper plain_fold
           (Some [""; "CUSTOM://localhost:9092"; ""; "SSL://example.com:9093"])
           _ None eq_refl).
Defined.

Lemma getBrokerNameComponents_no_panic_witness :
  exists res,
    getBrokerNameComponents env_good_map plain_upper plain_fold "internal"
    = Returned res.
Proof.
  apply (getBrokerNameComponents_no_panic env_good_map plain_upper plain_fold).
  repeat constructor; simpl; tauto.
Defined.

(** ** Validating the listeners *)

Section ValidateListeners.
Variable is4 : string -> bool.

Lemma last_host_by_snoc {K} `{EqDecision K} (key : Listener -> K) (k : K)
  (pre : list Listener) (l : Listener) :
  last_host_by key k (pre ++ [l])
  = if decide (key l = k) then Some (Host l) else last_host_by key k pre.
Proof.
  unfold last_host_by. rewrite filter_app.
  destruct (decide (key l = k)) as [Heq|Hne].
  - rewrite (filter_cons_True _ l []) by done. rewrite filter_nil.
    by rewrite last_snoc.
  - rewrite (filter_cons_False _ l []) by done. rewrite filter_nil.
    by rewrite app_nil_r.
Qed.

Lemma last_host_by_elem {K} `{EqDecision K} (key : Listener -> K) (k : K)
  (pre : list Listener) (h : string) :
  last_host_by key k pre = Some h ->
  exists l0, l0 ∈ pre /\ key l0 = k /\ Host l0 = h.
Proof.
  unfold last_host_by. intros Hlast.
  destruct (last (filter (fun l => key l = k) pre)) as [l0|] eqn:Hl0; [|done].
  injection Hlast as <-. apply last_Some_elem_of in Hl0.
  apply list_elem_of_filter in Hl0 as [Hk Hin]. by exists l0.
Qed.

Lemma taken_iff {K} `{EqDecision K} `{Countable K} (key : Listener -> K)
  (m : gmap K string) (pre : list Listener) (l : Listener) :
  (forall k, m !! k = last_host_by key k pre) ->
  match m !! key l with
  | Some val => areIpProtocolsSame is4 (Host l) val
  | None => false
  end = true
  <-> exists h, last_host_by key (key l) pre = Some h
                /\ is4 (Host l) = is4 h.
Proof.
  intros Hm. rewrite Hm. unfold areIpProtocolsSame.
  destruct (last_host_by key (key l) pre) as [h|].
  - rewrite Bool.eqb_true_iff. split; [by exists h | by intros (? & [= <-] & ?)].
  - split; [done | by intros (? & ? & ?)].
Qed.

Lemma insert_last_host_by {K} `{EqDecision K} `{Countable K}
  (key : Listener -> K) (m : gmap K string) (pre : list Listener)
  (l : Listener) :
  (forall k, m !! k = last_host_by key k pre) ->
  forall k, <[key l := Host l]> m !! k = last_host_by key k (pre ++ [l]).
Proof.
  intros Hm k. rewrite last_host_by_snoc.
  destruct (decide (key l = k)) as [->|Hne].
  - by rewrite lookup_insert_eq.
  - by rewrite lookup_insert_ne.
Qed.

(** The loop either accepts, and no listener clashes with what the maps
    remember at its turn, or stops at the first listener that does, with an
    error that ends in the name of that listener. *)
Lemma validateListeners_loop_outcome (ls : list Listener) :
  forall (pre : list Listener) (ports : gmap Z string)
    (names : gmap string string),
    (forall p, ports !! p = last_host_by Port p pre) ->
    (forall n, names !! n = last_host_by ListenerName n pre) ->
    (validateListeners_loop is4 ls ports names = None
     /\ forall pre' l post, ls = pre' ++ l :: post ->
          ~ clash is4 (pre ++ pre') l)
    \/ (exists pre' l post msg,
          ls = pre' ++ l :: post
          /\ clash is4 (pre ++ pre') l
          /\ (forall pre'' l'' post'', pre' = pre'' ++ l'' :: post'' ->
                ~ clash is4 (pre ++ pre'') l'')
          /\ validateListeners_loop is4 ls ports names
             = Some (Errorf (msg +:+ ListenerName l))).
Proof.
  induction ls as [|l ls IH]; intros pre ports names Hports Hnames.
  - left. split; [done|]. intros pre' l post Heq. by destruct pre'.
  - cbn [validateListeners_loop].
    pose proof (taken_iff Port ports pre l Hports) as Hp.
    pose proof (taken_iff ListenerName names pre l Hnames) as Hn.
    destruct (match ports !! Port l with
              | Some val => areIpProtocolsSame is4 (Host l) val
              | None => false end) eqn:Hpt.
    { right. exists [], l, ls, "listener port is not unique for listener ".
      rewrite app_nil_r. split; [done|]. split; [left; by apply Hp|].
      split; [|done]. intros pre'' l'' post'' Heq. by destruct pre''. }
    destruct (match names !! ListenerName l with
              | Some val => areIpProtocolsSame is4 (Host l) val
              | None => false end) eqn:Hnt.
    { right. exists [], l, ls, "listener name is not unique for listener ".
      rewrite app_nil_r. split; [done|]. split; [right; by apply Hn|].
      split; [|done]. intros pre'' l'' post'' Heq. by destruct pre''. }
    assert (Hfree : ~ clash is4 pre l).
    { intros [Hc|Hc]; [apply Hp in Hc | apply Hn in Hc]; congruence. }
    destruct (IH (pre ++ [l]) (<[Port l := Host l]> ports)
                (<[ListenerName l := Host l]> names)
                (insert_last_host_by Port ports pre l Hports)
                (insert_last_host_by ListenerName names pre l Hnames))
      as [[Hnone Hall]|(pre' & l' & post & msg & -> & Hc & Hfirst & Herr)].
    + left. split; [done|]. intros pre' l' post Heq.
      destruct pre' as [|l0 pre'].
      * injection Heq as <- _. by rewrite app_nil_r.
      * injection Heq as <- ->. rewrite (cons_middle l pre pre'), app_assoc.
        by eapply Hall.
    + right. exists (l :: pre'), l', post, msg. split; [done|].
      split; [by rewrite (cons_middle l pre pre'), app_assoc|].
      split; [|done]. intros pre'' l'' post'' Heq.
      destruct pre'' as [|l0 pre''].
      * injection Heq as <- _. by rewrite app_nil_r.
      * injection Heq as <- ->. rewrite (cons_middle l pre pre''), app_assoc.
        by eapply Hfirst.
Qed.

Lemma validateListeners_outcome (b : Broker) :
  ((validateListeners is4 b).2 = None
   /\ forall pre l post, elems (Listeners b) = pre ++ l :: post ->
        ~ clash is4 pre l)
  \/ (exists pre l post msg,
        elems (Listeners b) = pre ++ l :: post
        /\ clash is4 pre l
        /\ (forall pre' l' post', pre = pre' ++ l' :: post' ->
              ~ clash is4 pre' l')
        /\ (validateListeners is4 b).2
           = Some (Errorf (msg +:+ ListenerName l))).
Proof.
  cbn [validateListeners snd].
  apply (validateListeners_loop_outcome (elems (Listeners b)) [] ∅ ∅).
  - intros p. by rewrite lookup_empty.
  - intros n. by rewrite lookup_empty.
Qed.

Lemma clash_pair (pre : list Listener) (l : Listener) :
  clash is4 pre l ->
  exists l0, l0 ∈ pre
    /\ (Port l0 = Port l \/ ListenerName l0 = ListenerName l)
    /\ is4 (Host l0) = is4 (Host l).
Proof.
  intros [(h & Hlast & Hfam)|(h & Hlast & Hfam)];
    apply last_host_by_elem in Hlast as (l0 & Hin & Hk & <-);
    exists l0; eauto.
Qed.
End ValidateListeners.

(** X17.  validateListeners compares each listener with the host remembered
    for its port and for its name, which is that of the most recent earlier
    listener with that port or name: it returns no error exactly when no
    listener is of the same kind of address (IPv4 or not) as that host, and it
    leaves the broker as it was. *)
Theorem validateListeners_most_recent (is4 : string -> bool) (b : Broker) :
  (validateListeners is4 b).1 = b
  /\ ((validateListeners is4 b).2 = None
      <-> forall pre l post, elems (Listeners b) = pre ++ l :: post ->
            ~ clash is4 pre l).
Proof.
  split; [done|].
  destruct (validateListeners_outcome is4 b)
    as [[Hnone Hall]|(pre & l & post & msg & Heq & Hc & _ & Herr)].
  - done.
  - rewrite Herr. split; [done|]. intros Hall. by destruct (Hall _ _ _ Heq).
Qed.

(** X18.  An error of validateListeners is backed by two listeners: an earlier
    and a later one that share the port or the name and whose hosts are of the
    same kind of address; the error message ends in the name of the later
    one. *)
Theorem validateListeners_error_has_pair (is4 : string -> bool) (b : Broker)
  (e : error) :
  (validateListeners is4 b).2 = Some e ->
  exists (i j : nat) (li lj : Listener) (msg : string),
    (i < j)%nat
    /\ elems (Listeners b) !! i = Some li
    /\ elems (Listeners b) !! j = Some lj
    /\ (Port li = Port lj \/ ListenerName li = ListenerName lj)
    /\ is4 (Host li) = is4 (Host lj)
    /\ e = Errorf (msg +:+ ListenerName lj).
Proof.
  intros He.
  destruct (validateListeners_outcome is4 b)
    as [[Hnone _]|(pre & l & post & msg & Heq & Hc & _ & Herr)]; [congruence|].
  apply clash_pair in Hc as (l0 & Hin & Hkey & Hfam).
  apply list_elem_of_lookup in Hin as [i Hi].
  exists i, (length pre), l0, l, msg.
  pose proof (lookup_lt_Some _ _ _ Hi) as Hlt. rewrite Heq.
  split; [done|]. split; [by rewrite lookup_app_l|].
  split; [by rewrite list_lookup_middle|]. split; [done|]. split; [done|].
  congruence.
Qed.

Lemma validateListeners_error_has_pair_witness :
  exists (i j : nat) (li lj : Listener) (msg : string),
    (i < j)%nat
    /\ [listener_at "client" "" 5432; listener_at "broker" "" 5432] !! i
       = Some li
    /\ [listener_at "client" "" 5432; listener_at "broker" "" 5432] !! j
       = Some lj
    /\ (Port li = Port lj \/ ListenerName li = ListenerName lj)
    /\ sample_is4 (Host li) = sample_is4 (Host lj)
    /\ Errorf "listener port is not unique for listener broker"
       = Errorf (msg +:+ ListenerName lj).
Proof.
  exact (validateListeners_error_has_pair sample_is4
           (mkBroker 0 None
              (Some [listener_at "client" "" 5432;
                     listener_at "broker" "" 5432]) None)
           _ eq_refl).
Defined.

(** X19.  Listeners with pairwise different ports and pairwise different
    names pass validateListeners, whatever their hosts. *)
Theorem validateListeners_accepts_distinct (is4 : string -> bool) (b : Broker) :
  NoDup (Port <$> elems (Listeners b)) ->
  NoDup (ListenerName <$> elems (Listeners b)) ->
  (validateListeners is4 b).2 = None.
Proof.
  intros Hports Hnames.
  destruct (validateListeners_outcome is4 b)
    as [[Hnone _]|(pre & l & post & msg & Heq & Hc & _ & Herr)]; [done|].
  exfalso. rewrite Heq in Hports, Hnames.
  rewrite fmap_app, fmap_cons in Hports.
  rewrite fmap_app, fmap_cons in Hnames.
  apply NoDup_app in Hports as (_ & Hp & _), Hnames as (_ & Hn & _).
  apply clash_pair in Hc as (l0 & Hin & [Hk|Hk] & _).
  - apply (Hp (Port l0)); [by apply list_elem_of_fmap_2|].
    rewrite Hk. by left.
  - apply (Hn (ListenerName l0)); [by apply list_elem_of_fmap_2|].
    rewrite Hk. by left.
Qed.

Lemma validateListeners_accepts_distinct_witness :
  (validateListeners sample_is4
     (mkBroker 0 None
        (Some [listener_at "client" "" 5432; listener_at "broker" "" 1234])
        None)).2 = None.
Proof.
  apply validateListeners_accepts_distinct; cbn.
  - apply (bool_decide_unpack _). vm_compute. exact I.
  - apply (bool_decide_unpack _). vm_compute. exact I.
Defined.

(** X20.  The check is against the most recent listener only: three listeners
    on one port with different names are accepted when the second is of the
    other kind of address than the first and the third, although the first and
    the third are of the same kind. *)
Theorem validateListeners_accepts_alternation (is4 : string -> bool)
  (a b c : Listener) (id : Z) (rack : option string) (adv : slice Listener) :
  Port a = Port b -> Port b = Port c ->
  ListenerName a <> ListenerName b ->
  ListenerName b <> ListenerName c ->
  ListenerName a <> ListenerName c ->
  is4 (Host a) = is4 (Host c) ->
  is4 (Host b) <> is4 (Host a) ->
  (validateListeners is4 (mkBroker id rack (Some [a; b; c]) adv)).2 = None.
Proof.
  intros Hab Hbc Hn1 Hn2 Hn3 Hac Hba.
  cbn [validateListeners snd Listeners elems validateListeners_loop].
  rewrite !lookup_empty. rewrite <- Hbc, <- Hab.
  rewrite !lookup_insert_eq.
  rewrite (lookup_insert_ne _ (ListenerName a) (ListenerName b)) by done.
  rewrite lookup_empty.
  rewrite (lookup_insert_ne _ (ListenerName b) (ListenerName c)) by done.
  rewrite (lookup_insert_ne _ (ListenerName a) (ListenerName c)) by done.
  rewrite lookup_empty. unfold areIpProtocolsSame.
  destruct (Bool.eqb (is4 (Host b)) (is4 (Host a))) eqn:H1;
    [by apply Bool.eqb_prop in H1|].
  destruct (Bool.eqb (is4 (Host c)) (is4 (Host b))) eqn:H2; [|done].
  apply Bool.eqb_prop in H2. congruence.
Qed.

Lemma validateListeners_accepts_alternation_witness :
  (validateListeners sample_is4
     (mkBroker 0 None
        (Some [listener_at "a" "10.0.0.1" 9092; listener_at "b" "::1" 9092;
               listener_at "c" "10.0.0.2" 9092]) None)).2 = None.
Proof.
  apply validateListeners_accepts_alternation; try reflexivity;
    try discriminate.
Defined.

(** ** NewBroker *)

Section NewBrokerFacts.
Variable GetEnvVar : string -> string -> string * bool.
Variable url_Parse : string -> URL * option error.
Variable SplitHostPort : string -> string * string * option error.
Variable Atoi : string -> Z * option error.
Variable error_message : error -> string.
Variable upper_unicode : string -> string.
Variable fold_unicode : string -> string -> bool.
Variable is4 : string -> bool.

Local Abbreviation parse_all :=
  (parseListeners GetEnvVar url_Parse SplitHostPort Atoi upper_unicode
     fold_unicode).
Local Abbreviation new_broker :=
  (NewBroker GetEnvVar url_Parse SplitHostPort Atoi error_message
     upper_unicode fold_unicode is4).

Lemma len_Split_not_0 (sep : ascii) (s : string) :
  (len (Some (Split sep s)) =? 0) = false.
Proof.
  pose proof (Split_not_nil sep s) as Hne. unfold len. cbn [elems].
  destruct (Split sep s); [done|]. simpl. lia.
Qed.

Lemma elems_go_append_nil {A} (l : list A) : elems (go_append None l) = l.
Proof. by destruct l. Qed.

Lemma NewBroker_outcome (b : Broker) (err : option error) :
  new_broker = Returned (b, err) ->
  (b = zeroBroker /\ err <> None)
  \/ exists b0,
       listeners_ready GetEnvVar url_Parse SplitHostPort Atoi upper_unicode
         fold_unicode is4 b0
       /\ match Atoi (GetEnvVar "broker.id" "-1").1 with
          | (_, Some e) =>
            b = b0
            /\ err = Some (Errorf ("error parsing broker.id: "
                                   +:+ error_message e))
          | (n, None) =>
            if RESERVED_BROKER_MAX_ID <? n
            then b = b0 /\ err <> None
            else b = set_BrokerID
                       (int32_of_int (if n =? -1
                                      then RESERVED_BROKER_MAX_ID + 1
                                      else n)) b0
                 /\ err = None
          end.
Proof.
  unfold NewBroker, listeners_ready.
  destruct (GetEnvVar "advertised.listeners" "") as [adv okA].
  destruct (GetEnvVar "listeners" "") as [lst ok].
  destruct ok; cbn [negb fst snd]; [|intros [= <- <-]; by left].
  rewrite len_Split_not_0.
  destruct (parse_all (Some (Split "," (remove_spaces lst))))
    as [[ls [e|]]|msg] eqn:Hls; [intros [= <- <-]; by left| |done].
  cbn [Listeners zeroBroker].
  destruct (validateListeners is4 _) as [b1 [e|]] eqn:Hv1;
    [intros [= <- <-]; by left|].
  injection Hv1 as <- Hv1.
  destruct (parse_all (Some (Split "," (remove_spaces adv))))
    as [[advs [e|]]|msg] eqn:Hadv; [intros [= <- <-]; by left| |done].
  destruct (validateAdvertisedListeners fold_unicode _) as [b2 [e|]] eqn:Hv2;
    [intros [= <- <-]; by left|].
  injection Hv2 as <- Hv2.
  destruct (GetEnvVar "broker.id" "-1") as [idstr okI]. cbn [fst].
  intros Hret. right.
  exists (mkBroker 0 None (go_append None (elems ls))
            (go_append None (elems advs))).
  split.
  { split; [done|]. exists ls, advs. repeat split; try done. }
  destruct (Atoi idstr) as [n [e|]].
  - by injection Hret as <- <-.
  - destruct (RESERVED_BROKER_MAX_ID <? n); by injection Hret as <- <-.
Qed.
Lemma NewBroker_error_cases (b : Broker) (e : error) :
  new_broker = Returned (b, Some e) ->
  (b = zeroBroker
   /\ forall b0,
        ~ listeners_ready GetEnvVar url_Parse SplitHostPort Atoi
            upper_unicode fold_unicode is4 b0)
  \/ (listeners_ready GetEnvVar url_Parse SplitHostPort Atoi upper_unicode
        fold_unicode is4 b
      /\ BrokerID b = 0
      /\ ((exists n e',
             Atoi (GetEnvVar "broker.id" "-1").1 = (n, Some e')
             /\ e = Errorf ("error parsing broker.id: "
                            +:+ error_message e'))
          \/ (exists n,
                Atoi (GetEnvVar "broker.id" "-1").1 = (n, None)
                /\ RESERVED_BROKER_MAX_ID < n
                /\ e = Errorf
                         ("the configured node ID is greater than `reserved.broker.max.id`. Please adjust the `reserved.broker.max.id` setting. ["
                          +:+ Itoa n +:+ " > "
                          +:+ Itoa RESERVED_BROKER_MAX_ID +:+ "]")))).
Proof.
  unfold NewBroker, listeners_ready.
  destruct (GetEnvVar "advertised.listeners" "") as [adv okA].
  destruct (GetEnvVar "listeners" "") as [lst ok].
  destruct ok; cbn [negb fst snd].
  2:{ intros [= <- <-]. left. split; [done|]. by intros b0 [? _]. }
  rewrite len_Split_not_0.
  destruct (parse_all (Some (Split "," (remove_spaces lst))))
    as [[ls [e0|]]|msg] eqn:Hls; [| |done].
  { intros [= <- <-]. left. split; [done|].
    by intros b0 (_ & ls' & advs' & ? & _). }
  cbn [Listeners zeroBroker].
  destruct (validateListeners is4 _) as [b1 [e0|]] eqn:Hv1.
  { intros [= <- <-]. left. split; [done|].
    intros b0 (_ & ls' & advs' & [= <-] & _ & -> & Hv & _).
    apply (f_equal snd) in Hv1. cbn [snd] in Hv1.
    unfold validateListeners in Hv, Hv1. cbn in Hv, Hv1. congruence. }
  injection Hv1 as <- Hv1.
  destruct (parse_all (Some (Split "," (remove_spaces adv))))
    as [[advs [e0|]]|msg] eqn:Hadv; [| |done].
  { intros [= <- <-]. left. split; [done|].
    by intros b0 (_ & ls' & advs' & _ & ? & _). }
  destruct (validateAdvertisedListeners fold_unicode _) as [b2 [e0|]] eqn:Hv2.
  { intros [= <- <-]. left. split; [done|].
    intros b0 (_ & ls' & advs' & [= <-] & [= <-] & -> & _ & Hv).
    apply (f_equal snd) in Hv2. cbn [snd] in Hv2.
    discriminate (eq_trans (eq_sym Hv2) Hv). }
  injection Hv2 as <- Hv2.
  destruct (GetEnvVar "broker.id" "-1") as [idstr okI]. cbn [fst].
  destruct (Atoi idstr) as [n [e'|]] eqn:Hid.
  - intros [= <- <-]. right. split.
    { split; [done|]. exists ls, advs. repeat split; try done. }
    split; [done|]. left. by exists n, e'.
  - destruct (Z.ltb_spec RESERVED_BROKER_MAX_ID n); [|done].
    intros [= <- <-]. right. split.
    { split; [done|]. exists ls, advs. repeat split; try done. }
    split; [done|]. right. by exists n.
Qed.
End NewBrokerFacts.

Section NewBrokerResults.
Variable GetEnvVar : string -> string -> string * bool.
Variable url_Parse : string -> URL * option error.
Variable SplitHostPort : string -> string * string * option error.
Variable Atoi : string -> Z * option error.
Variable error_message : error -> string.
Variable upper_unicode : string -> string.
Variable fold_unicode : string -> string -> bool.
Variable is4 : string -> bool.

Local Abbreviation parse_one :=
  (parseListener GetEnvVar url_Parse SplitHostPort Atoi upper_unicode
     fold_unicode).
Local Abbreviation parse_them :=
  (parseListeners GetEnvVar url_Parse SplitHostPort Atoi upper_unicode
     fold_unicode).

Lemma parseListeners_defined (listeners res : slice _) :
  parse_them listeners = Returned (res, None) ->
  Forall (fun x => ListenerSecurityProtocol x <> UNDEFINED
                   /\ int32_range (Port x)) (elems res).
Proof.
  intros Hrun. apply parseListeners_loop_result in Hrun
    as (parsed & -> & Hall).
  cbn [elems app]. induction Hall as [|l x ls xs Hx _ IH]; constructor; [|done].
  apply parseListener_result in Hx as (Hp & _ & Hr). done.
Qed.

Lemma parseListeners_nothing :
  parse_them (Some (Split "," (remove_spaces ""))) = Returned (Some [], None).
Proof. reflexivity. Qed.
End NewBrokerResults.

(** X21.  A broker that NewBroker returns without error has passed both
    validations: validateListeners accepts its listeners,
    validateAdvertisedListeners accepts its advertised listeners, and every
    listener in it has a defined security protocol and a port in the int32
    range. *)
Theorem NewBroker_returns_validated
  (GetEnvVar : string -> string -> string * bool)
  (url_Parse : string -> URL * option error)
  (SplitHostPort : string -> string * string * option error)
  (Atoi : string -> Z * option error) (error_message : error -> string)
  (upper_unicode : string -> string) (fold_unicode : string -> string -> bool)
  (is4 : string -> bool) (b : Broker) :
  NewBroker GetEnvVar url_Parse SplitHostPort Atoi error_message upper_unicode
    fold_unicode is4 = Returned (b, None) ->
  (validateListeners is4 b).2 = None
  /\ (validateAdvertisedListeners fold_unicode b).2 = None
  /\ Forall (fun x => ListenerSecurityProtocol x <> UNDEFINED
                      /\ int32_range (Port x))
       (elems (Listeners b) ++ elems (AdvertisedListeners b)).
Proof.
  intros Hrun.
  apply NewBroker_outcome in Hrun
    as [[_ Herr]|(b0 & (_ & ls & advs & Hls & Hadv & -> & Hv1 & Hv2) & Hid)];
    [done|].
  destruct (Atoi (GetEnvVar "broker.id" "-1").1) as [n [e|]];
    [by destruct Hid|].
  destruct (RESERVED_BROKER_MAX_ID <? n); [by destruct Hid as [_ ?]|].
  destruct Hid as [-> _]. split; [exact Hv1|]. split; [exact Hv2|].
  cbn [set_BrokerID Listeners AdvertisedListeners].
  rewrite !elems_go_append_nil. apply Forall_app. split.
  - by eapply parseListeners_defined.
  - by eapply parseListeners_defined.
Qed.

Lemma NewBroker_returns_validated_witness :
  NewBroker env_full sample_url_Parse sample_SplitHostPort sample_Atoi
    sample_error_message plain_upper plain_fold sample_is4
  = Returned
      (mkBroker 7 None
         (Some [mkListener "localhost" 9092 PLAINTEXT "plaintext"])
         (Some [mkListener "example.com" 9092 PLAINTEXT "plaintext"]), None)
  /\ (validateListeners sample_is4
        (mkBroker 7 None
           (Some [mkListener "localhost" 9092 PLAINTEXT "plaintext"])
           (Some [mkListener "example.com" 9092 PLAINTEXT "plaintext"]))).2
     = None.
Proof.
  split; [reflexivity|].
  exact (proj1 (NewBroker_returns_validated env_full sample_url_Parse
    sample_SplitHostPort sample_Atoi sample_error_message plain_upper
    plain_fold sample_is4 _ eq_refl)).
Defined.

(** X22.  The advertised listeners are never taken from the listeners:
    strings.Split returns at least one piece, so the test
    [len(advertisedListeners) == 0] does not hold, and when
    advertised.listeners is empty or unset a broker returned without error has
    no advertised listener, whatever listeners holds. *)
Theorem NewBroker_advertised_not_defaulted
  (GetEnvVar : string -> string -> string * bool)
  (url_Parse : string -> URL * option error)
  (SplitHostPort : string -> string * string * option error)
  (Atoi : string -> Z * option error) (error_message : error -> string)
  (upper_unicode : string -> string) (fold_unicode : string -> string -> bool)
  (is4 : string -> bool) (b : Broker) :
  (GetEnvVar "advertised.listeners" "").1 = "" ->
  NewBroker GetEnvVar url_Parse SplitHostPort Atoi error_message upper_unicode
    fold_unicode is4 = Returned (b, None) ->
  AdvertisedListeners b = None.
Proof.
  intros Hadv0 Hrun.
  apply NewBroker_outcome in Hrun
    as [[_ Herr]|(b0 & (_ & ls & advs & Hls & Hadv & -> & Hv1 & Hv2) & Hid)];
    [done|].
  rewrite Hadv0, parseListeners_nothing in Hadv. injection Hadv as <-.
  destruct (Atoi (GetEnvVar "broker.id" "-1").1) as [n [e|]];
    [by destruct Hid|].
  destruct (RESERVED_BROKER_MAX_ID <? n); [by destruct Hid as [_ ?]|].
  by destruct Hid as [-> _].
Qed.

Lemma NewBroker_advertised_not_defaulted_witness :
  NewBroker env_listeners_only sample_url_Parse sample_SplitHostPort
    sample_Atoi sample_error_message plain_upper plain_fold sample_is4
  = Returned
      (mkBroker 1001 None
         (Some [mkListener "localhost" 9092 PLAINTEXT "plaintext";
                mkListener "localhost" 9093 SSL "ssl"])
         None, None)
  /\ AdvertisedListeners
       (mkBroker 1001 None
          (Some [mkListener "localhost" 9092 PLAINTEXT "plaintext";
                 mkListener "localhost" 9093 SSL "ssl"])
          None) = None.
Proof.
  split; [reflexivity|].
  exact (NewBroker_advertised_not_defaulted env_listeners_only
    sample_url_Parse sample_SplitHostPort sample_Atoi sample_error_message
    plain_upper plain_fold sample_is4 _ eq_refl eq_refl).
Defined.

(** X23.  The broker id of a broker returned without error comes from the
    setting broker.id, which parsed to a number [n] of at most 1000: it is
    1001 when [n] is -1 and [n] cut to 32 bits otherwise, so every other
    negative number is accepted as it is; for [n] in the int32 range the id is
    at most 1001, and it is 1001 only for -1. *)
Theorem NewBroker_broker_id
  (GetEnvVar : string -> string -> string * bool)
  (url_Parse : string -> URL * option error)
  (SplitHostPort : string -> string * string * option error)
  (Atoi : string -> Z * option error) (error_message : error -> string)
  (upper_unicode : string -> string) (fold_unicode : string -> string -> bool)
  (is4 : string -> bool) (b : Broker) :
  NewBroker GetEnvVar url_Parse SplitHostPort Atoi error_message upper_unicode
    fold_unicode is4 = Returned (b, None) ->
  exists n,
    Atoi (GetEnvVar "broker.id" "-1").1 = (n, None)
    /\ n <= 1000
    /\ BrokerID b = int32_of_int (if n =? -1 then 1001 else n)
    /\ (int32_range n ->
        BrokerID b <= 1001
        /\ (BrokerID b = 1001 <-> n = -1)
        /\ (n <> -1 -> BrokerID b = n)).
Proof.
  intros Hrun.
  apply NewBroker_outcome in Hrun as [[_ Herr]|(b0 & _ & Hid)]; [done|].
  destruct (Atoi (GetEnvVar "broker.id" "-1").1) as [n [e|]];
    [by destruct Hid|].
  unfold RESERVED_BROKER_MAX_ID in Hid.
  destruct (Z.ltb_spec 1000 n); [by destruct Hid as [_ ?]|].
  destruct Hid as [-> _]. exists n. split; [done|]. split; [done|].
  cbn [set_BrokerID BrokerID]. change (1000 + 1) with 1001.
  split; [done|]. intros Hr.
  destruct (Z.eqb_spec n (-1)) as [->|Hne].
  - rewrite int32_of_int_id by (unfold int32_range; lia).
    split; [lia|]. split; [done|]. done.
  - rewrite int32_of_int_id by done. split; [lia|]. split; [lia|]. done.
Qed.

Lemma NewBroker_broker_id_witness :
  exists n,
    sample_Atoi (env_full "broker.id" "-1").1 = (n, None)
    /\ n <= 1000
    /\ BrokerID (mkBroker 7 None
         (Some [mkListener "localhost" 9092 PLAINTEXT "plaintext"])
         (Some [mkListener "example.com" 9092 PLAINTEXT "plaintext"]))
       = int32_of_int (if n =? -1 then 1001 else n)
    /\ (int32_range n ->
        BrokerID (mkBroker 7 None
          (Some [mkListener "localhost" 9092 PLAINTEXT "plaintext"])
          (Some [mkListener "example.com" 9092 PLAINTEXT "plaintext"]))
          <= 1001
        /\ (BrokerID (mkBroker 7 None
              (Some [mkListener "localhost" 9092 PLAINTEXT "plaintext"])
              (Some [mkListener "example.com" 9092 PLAINTEXT "plaintext"]))
            = 1001 <-> n = -1)
        /\ (n <> -1 ->
            BrokerID (mkBroker 7 None
              (Some [mkListener "localhost" 9092 PLAINTEXT "plaintext"])
              (Some [mkListener "example.com" 9092 PLAINTEXT "plaintext"]))
            = n)).
Proof.
  exact (NewBroker_broker_id env_full sample_url_Parse sample_SplitHostPort
    sample_Atoi sample_error_message plain_upper plain_fold sample_is4 _
    eq_refl).
Defined.



(** ** More on the advertised listeners and on the parser *)

(** X25.  The error of validateAdvertisedListeners names the first advertised
    listener that is refused: when the listeners before it have a host that is
    not empty and differs from "0.0.0.0", the message ends in the name of that
    listener, whatever follows it. *)
Theorem validateAdvertisedListeners_names_first
  (fold_unicode : string -> string -> bool) (b : Broker)
  (pre post : list Listener) (l : Listener) :
  elems (AdvertisedListeners b) = pre ++ l :: post ->
  Forall (fun l' =>
    strings.EqualFold fold_unicode (Host l') "0.0.0.0" = false
    /\ Host l' <> "") pre ->
  strings.EqualFold fold_unicode (Host l) "0.0.0.0" = true \/ Host l = "" ->
  (validateAdvertisedListeners fold_unicode b).2
  = Some (Errorf
      ("advertising listener on 0.0.0.0 address is not allowed for listener "
       +:+ ListenerName l)).
Proof.
  intros Heq Hpre Hl. cbn [validateAdvertisedListeners snd]. rewrite Heq.
  clear Heq. induction Hpre as [|l' pre [Hf He] _ IH];
    cbn [app validateAdvertisedListeners_loop].
  - apply refused_host_spec in Hl. by rewrite Hl.
  - destruct (refused_host fold_unicode l') eqn:Hr; [|exact IH].
    apply refused_host_spec in Hr as [Hr|Hr]; congruence.
Qed.

Lemma validateAdvertisedListeners_names_first_witness :
  (validateAdvertisedListeners plain_fold
     (mkBroker 0 None None
        (Some [listener_at "a" "example.com" 1; listener_at "b" "" 2;
               listener_at "c" "0.0.0.0" 3]))).2
  = Some (Errorf
      "advertising listener on 0.0.0.0 address is not allowed for listener b").
Proof.
  apply (validateAdvertisedListeners_names_first plain_fold _
           [listener_at "a" "example.com" 1] [listener_at "c" "0.0.0.0" 3]
           (listener_at "b" "" 2)); [reflexivity| |by right].
  constructor; [|constructor]. split; [reflexivity|discriminate].
Defined.

(** X26.  For hosts made of ASCII bytes the comparison that ignores case
    makes no difference, "0.0.0.0" holding no letter:
    validateAdvertisedListeners returns an error exactly when some advertised
    host is "0.0.0.0" or empty. *)
Theorem validateAdvertisedListeners_ascii
  (fold_unicode : string -> string -> bool) (b : Broker) :
  Forall (fun l => strings.isASCII (Host l) = true)
    (elems (AdvertisedListeners b)) ->
  ((validateAdvertisedListeners fold_unicode b).2 <> None
   <-> Exists (fun l => Host l = "0.0.0.0" \/ Host l = "")
         (elems (AdvertisedListeners b))).
Proof.
  intros Hascii. cbn [validateAdvertisedListeners snd].
  rewrite validateAdvertisedListeners_loop_error.
  rewrite !Exists_exists. rewrite Forall_forall in Hascii.
  split; intros (l & Hin & Hl); exists l; (split; [done|]).
  - apply refused_host_spec in Hl as [Hl|Hl]; [left|by right].
    rewrite (EqualFold_no_letters fold_unicode "0.0.0.0" eq_refl)
      in Hl by (by apply Hascii).
    by apply String.eqb_eq.
  - apply refused_host_spec. destruct Hl as [->|Hl]; [by left|by right].
Qed.

Lemma validateAdvertisedListeners_ascii_witness :
  (validateAdvertisedListeners plain_fold
     (mkBroker 0 None None (Some [listener_at "a" "example.com" 1]))).2
    <> None
  <-> Exists (fun l => Host l = "0.0.0.0" \/ Host l = "")
        [listener_at "a" "example.com" 1].
Proof.
  apply (validateAdvertisedListeners_ascii plain_fold
           (mkBroker 0 None None (Some [listener_at "a" "example.com" 1]))).
  by repeat constructor.
Defined.

Section ParserFold.
Variable upper_unicode : string -> string.
Variable fold_unicode : string -> string -> bool.

Lemma upper_byte_fold (sr tr : ascii) :
  (N_of_ascii sr < 128)%N -> (N_of_ascii tr < 97)%N ->
  strings.upper_byte sr = tr
  <-> (Ascii.eqb tr sr = true
       \/ (Ascii.eqb tr sr = false
           /\ (65 <=? N.min (N_of_ascii sr) (N_of_ascii tr))%N
              && (N.min (N_of_ascii sr) (N_of_ascii tr) <=? 90)%N
              && (N.max (N_of_ascii sr) (N_of_ascii tr)
                  =? N.min (N_of_ascii sr) (N_of_ascii tr) + 32)%N = true)).
Proof.
  intros Hs Ht. unfold strings.upper_byte.
  rewrite !andb_true_iff, !N.leb_le, N.eqb_eq.
  destruct (Ascii.eqb_spec tr sr) as [->|Hne].
  - split; [by left|]. intros _.
    destruct (N.leb_spec 97 (N_of_ascii sr)); [lia|done].
  - assert (Hn : N_of_ascii sr <> N_of_ascii tr).
    { intros Heq. apply Hne.
      by rewrite <- (ascii_N_embedding tr), <- Heq, ascii_N_embedding. }
    destruct (N.leb_spec 97 (N_of_ascii sr)) as [Hlo|Hlo];
      [destruct (N.leb_spec (N_of_ascii sr) 122) as [Hhi|Hhi]|]; cbn [andb].
    + split.
      * intros Heq. right. split; [done|].
        apply (f_equal N_of_ascii) in Heq.
        rewrite N_ascii_embedding in Heq by lia. lia.
      * intros [?|[_ Hfold]]; [done|].
        rewrite <- (ascii_N_embedding tr). f_equal. lia.
    + split; [congruence|]. intros [?|[_ Hfold]]; [done|]. lia.
    + split; [congruence|]. intros [?|[_ Hfold]]; [done|]. lia.
Qed.

(** On ASCII input, and against a string without lower-case letters,
    EqualFold holds exactly when the upper-case form of the input is that
    string. *)
Lemma EqualFold_upper (t : string) :
  forallb (fun c => (N_of_ascii c <? 97)%N) (String.list_ascii_of_string t)
    = true ->
  forall s : string,
    strings.isASCII s = true ->
    strings.EqualFold fold_unicode s t = true
    <-> strings.map_bytes strings.upper_byte s = t.
Proof.
  unfold strings.isASCII.
  induction t as [|tr t IH]; intros Ht [|sr s] Hs; try done.
  cbn [String.list_ascii_of_string forallb] in Ht, Hs.
  apply andb_true_iff in Ht as [Htr Ht], Hs as [Hsr Hs].
  apply N.ltb_lt in Htr. apply negb_true_iff in Hsr.
  assert (Hsr' : (N_of_ascii sr < 128)%N).
  { unfold strings.nonASCII in Hsr. by apply N.leb_gt in Hsr. }
  cbn [strings.EqualFold strings.map_bytes]. rewrite Hsr.
  assert (Hna : strings.nonASCII tr = false).
  { unfold strings.nonASCII. apply N.leb_gt. lia. }
  rewrite Hna. cbn [orb].
  pose proof (upper_byte_fold sr tr Hsr' Htr) as Hc.
  specialize (IH Ht s Hs).
  destruct (Ascii.eqb tr sr) eqn:Heqb.
  - rewrite IH. split.
    + intros <-. f_equal. apply Hc. by left.
    + by intros [= _ <-].
  - destruct ((65 <=? N.min (N_of_ascii sr) (N_of_ascii tr))%N
              && (N.min (N_of_ascii sr) (N_of_ascii tr) <=? 90)%N
              && (N.max (N_of_ascii sr) (N_of_ascii tr)
                  =? N.min (N_of_ascii sr) (N_of_ascii tr) + 32)%N) eqn:Hfold.
    + rewrite IH. split.
      * intros <-. f_equal. apply Hc. by right.
      * by intros [= _ <-].
    + split; [done|]. intros [= Hup _].
      apply Hc in Hup as [?|[_ ?]]; congruence.
Qed.

Lemma ParseSecurityProtocol_true_iff (s : string) (p : SecurityProtocol) :
  ParseSecurityProtocol upper_unicode s = (p, true)
  <-> nth_error scheme_names (Z.to_nat (SecurityProtocol_value p))
      = Some (strings.ToUpper upper_unicode s).
Proof.
  unfold ParseSecurityProtocol.
  destruct (String.eqb_spec (strings.ToUpper upper_unicode s) "PLAINTEXT")
    as [->|H1]; [by destruct p|].
  destruct (String.eqb_spec (strings.ToUpper upper_unicode s) "SSL")
    as [->|H2]; [by destruct p|].
  destruct (String.eqb_spec (strings.ToUpper upper_unicode s)
              "SASL_PLAINTEXT") as [->|H3]; [by destruct p|].
  destruct (String.eqb_spec (strings.ToUpper upper_unicode s) "SASL_SSL")
    as [->|H4]; [by destruct p|].
  split; [done|]. destruct p; simpl; intros [= Hu]; by subst.
Qed.
End ParserFold.

(** X27.  On input made of ASCII bytes ParseSecurityProtocol and
    strings.EqualFold agree: the input is accepted as a protocol exactly when
    it equals the name of that protocol under EqualFold, so every spelling of
    the four names in upper and lower case is accepted and nothing else. *)
Theorem ParseSecurityProtocol_agrees_with_EqualFold
  (upper_unicode : string -> string) (fold_unicode : string -> string -> bool)
  (s : string) (p : SecurityProtocol) :
  strings.isASCII s = true ->
  (ParseSecurityProtocol upper_unicode s = (p, true)
   <-> exists name,
         nth_error scheme_names (Z.to_nat (SecurityProtocol_value p))
           = Some name
         /\ strings.EqualFold fold_unicode s name = true).
Proof.
  intros Hs. rewrite ParseSecurityProtocol_true_iff.
  unfold strings.ToUpper. rewrite Hs. split.
  - intros Hn. exists (strings.map_bytes strings.upper_byte s).
    split; [done|].
    assert (Hup : forallb (fun c => (N_of_ascii c <? 97)%N)
                    (String.list_ascii_of_string
                       (strings.map_bytes strings.upper_byte s)) = true).
    { destruct p; cbn in Hn; try discriminate; injection Hn as <-;
        reflexivity. }
    by apply (EqualFold_upper fold_unicode _ Hup s Hs).
  - intros (name & Hn & Hf). rewrite Hn. f_equal. symmetry.
    assert (Hup : forallb (fun c => (N_of_ascii c <? 97)%N)
                    (String.list_ascii_of_string name) = true).
    { destruct p; cbn in Hn; try discriminate; injection Hn as <-;
        reflexivity. }
    by apply (EqualFold_upper fold_unicode name Hup s Hs).
Qed.

Lemma ParseSecurityProtocol_agrees_with_EqualFold_witness :
  ParseSecurityProtocol plain_upper "sAsL_ssl" = (SASL_SSL, true)
  <-> exists name,
        nth_error scheme_names (Z.to_nat (SecurityProtocol_value SASL_SSL))
          = Some name
        /\ strings.EqualFold plain_fold "sAsL_ssl" name = true.
Proof.
  exact (ParseSecurityProtocol_agrees_with_EqualFold plain_upper plain_fold
           "sAsL_ssl" SASL_SSL eq_refl).
Defined.
